(** * Ephemeris and visibility engine of nightsky (frontend/js/astronomy.js)

  A shallow embedding of the [Astronomy] object of
  [nightsky/frontend/js/astronomy.js] and of the parts of the ECMAScript
  runtime it calls ([Date], [Math], string methods), followed by the
  statements established about it.

  Number model.  A JavaScript number is an IEEE-754 binary64 value.  Four
  carriers are used, each where the code it carries lives:
  - [Z] for time values of [Date] objects (integral milliseconds since the
    epoch) and for the results of [Math.round];
  - [Q] for code that only uses field operations and [Math.floor]
    (Julian-date conversion, coordinate parsing): every finite binary64
    value is a rational, and these definitions compute;
  - [R] for code that calls [Math.sin], [Math.cos], [Math.acos], ...: the
    arithmetic is the exact one, rounding is not modelled;
  - [PrimFloat.float] (module [IEEE]) for the two coordinate transforms when
    the question is [NaN] propagation, which only exists in binary64. *)

From Stdlib Require Import ZArith QArith Qround Qabs Reals Factorial Lia Lra List Bool.
From Stdlib Require Import Ascii String.
From Stdlib Require Import Sorting.Sorted Sorting.Permutation.
From Stdlib Require Floats.
From Stdlib Require Lqa.
Import ListNotations.

Local Open Scope Z_scope.

(** ** The ECMAScript [Date] abstraction (ECMA-262, section 21.4.1) *)

Module JSDate.

(** A [Date] object carries a time value: an integral number of
    milliseconds, or [NaN] for an Invalid Date. *)
Inductive Date : Type :=
| ValidDate (t : Z)
| InvalidDate.

Definition msPerDay : Z := 86400000.
Definition maxTime : Z := 8640000000000000.

Definition Day (t : Z) : Z := t / msPerDay.
Definition TimeWithinDay (t : Z) : Z := t mod msPerDay.

(** Days of a year, day number of its first day, and the year of a day
    number: DaysInYear, DayFromYear and YearFromTime of ECMA-262 (on day
    numbers).  [YearFromDay] is the largest year whose first day is not after
    [day]: the estimate [1970 + day / 365.2425] is off by one year at most. *)
Definition DaysInYear (y : Z) : Z :=
  if negb (y mod 4 =? 0) then 365
  else if negb (y mod 100 =? 0) then 366
  else if negb (y mod 400 =? 0) then 365
  else 366.

Definition DayFromYear (y : Z) : Z :=
  365 * (y - 1970) + (y - 1969) / 4 - (y - 1901) / 100 + (y - 1601) / 400.

Definition YearFromDay (day : Z) : Z :=
  let y := 1970 + (400 * day) / 146097 in
  if DayFromYear (y + 1) <=? day then y + 1
  else if day <? DayFromYear y then y - 1
  else y.

(** 1 in a leap year, 0 otherwise. *)
Definition InLeapYear (y : Z) : Z := DaysInYear y - 365.

(** The day within the year on which month [m] (0-based) starts. *)
Definition month_start (leap m : Z) : Z :=
  if m <=? 0 then 0
  else if m =? 1 then 31
  else if m =? 2 then 59 + leap
  else if m =? 3 then 90 + leap
  else if m =? 4 then 120 + leap
  else if m =? 5 then 151 + leap
  else if m =? 6 then 181 + leap
  else if m =? 7 then 212 + leap
  else if m =? 8 then 243 + leap
  else if m =? 9 then 273 + leap
  else if m =? 10 then 304 + leap
  else 334 + leap.

(** MonthFromTime, 0-based, and DateFromTime, on day numbers. *)
Definition MonthFromDay (day : Z) : Z :=
  let y := YearFromDay day in
  let dayWithinYear := day - DayFromYear y in
  let leap := InLeapYear y in
  if dayWithinYear <? 31 then 0
  else if dayWithinYear <? 59 + leap then 1
  else if dayWithinYear <? 90 + leap then 2
  else if dayWithinYear <? 120 + leap then 3
  else if dayWithinYear <? 151 + leap then 4
  else if dayWithinYear <? 181 + leap then 5
  else if dayWithinYear <? 212 + leap then 6
  else if dayWithinYear <? 243 + leap then 7
  else if dayWithinYear <? 273 + leap then 8
  else if dayWithinYear <? 304 + leap then 9
  else if dayWithinYear <? 334 + leap then 10
  else 11.

Definition DateFromDay (day : Z) : Z :=
  let y := YearFromDay day in
  day - DayFromYear y - month_start (InLeapYear y) (MonthFromDay day) + 1.

Definition getUTCFullYear (t : Z) : Z := YearFromDay (Day t).
(** 0-based, as in JavaScript. *)
Definition getUTCMonth (t : Z) : Z := MonthFromDay (Day t).
Definition getUTCDate (t : Z) : Z := DateFromDay (Day t).
Definition getUTCHours (t : Z) : Z := (t / 3600000) mod 24.
Definition getUTCMinutes (t : Z) : Z := (t / 60000) mod 60.
Definition getUTCSeconds (t : Z) : Z := (t / 1000) mod 60.
Definition getUTCMilliseconds (t : Z) : Z := t mod 1000.

Definition MakeTime (h m s ms : Z) : Z :=
  h * 3600000 + m * 60000 + s * 1000 + ms.

(** [month] is 0-based and may lie outside 0..11; [date] may lie outside
    the month: both carry over. *)
Definition MakeDay (year month date : Z) : Z :=
  let ym := year + month / 12 in
  let mn := month mod 12 in
  DayFromYear ym + month_start (InLeapYear ym) mn + date - 1.

Definition MakeDate (day time : Z) : Z := day * msPerDay + time.

Definition TimeClip (t : Z) : Date :=
  if Z.abs t <=? maxTime then ValidDate t else InvalidDate.

(** [new Date(Date.UTC(year, month, date, hours, minutes, seconds))] on
    integral arguments.  Years 0..99 denote 1900..1999. *)
Definition Date_UTC (year month date hours minutes seconds : Z) : Date :=
  let yr := if (0 <=? year) && (year <=? 99) then 1900 + year else year in
  TimeClip (MakeDate (MakeDay yr month date) (MakeTime hours minutes seconds 0)).

(** [d.setUTCHours(0, 0, 0, 0)] on a valid date. *)
Definition setUTCHours0 (t : Z) : Z := t - TimeWithinDay t.

End JSDate.

(** ** astronomy.js, rational part *)

Module AstronomyQ.
Import JSDate.
Local Open Scope Q_scope.

Definition Math_floor (x : Q) : Z := Qfloor x.

(** [dateToJulian(date)] for a valid [date] with time value [t]. *)
Definition dateToJulian (t : Z) : Q :=
  let y := getUTCFullYear t in
  let m := (getUTCMonth t + 1)%Z in
  let d := getUTCDate t in
  let h := inject_Z (getUTCHours t) + inject_Z (getUTCMinutes t) / 60 +
           inject_Z (getUTCSeconds t) / 3600 +
           inject_Z (getUTCMilliseconds t) / 3600000 in
  let jy := if (m <=? 2)%Z then (y - 1)%Z else y in
  let jm := if (m <=? 2)%Z then (m + 12)%Z else m in
  let a := Math_floor (inject_Z jy / 100) in
  let b := (2 - a + Math_floor (inject_Z a / 4))%Z in
  inject_Z (Math_floor (365.25 * inject_Z (jy + 4716))) +
  inject_Z (Math_floor (30.6001 * inject_Z (jm + 1))) +
  inject_Z d + h / 24 + inject_Z b - 1524.5.

(** [julianToDate(jd)]. *)
Definition julianToDate (jd : Q) : Date :=
  let z := Math_floor (jd + 0.5) in
  let f := jd + 0.5 - inject_Z z in
  let a :=
    if (2299161 <=? z)%Z then
      let alpha := Math_floor ((inject_Z z - 1867216.25) / 36524.25) in
      (z + 1 + alpha - Math_floor (inject_Z alpha / 4))%Z
    else z in
  let b := (a + 1524)%Z in
  let c := Math_floor ((inject_Z b - 122.1) / 365.25) in
  let d := Math_floor (365.25 * inject_Z c) in
  let e := Math_floor (inject_Z (b - d) / 30.6001) in
  let day := inject_Z (b - d - Math_floor (30.6001 * inject_Z e)) + f in
  let month := if (e <? 14)%Z then (e - 1)%Z else (e - 13)%Z in
  let year := if (2 <? month)%Z then (c - 4716)%Z else (c - 4715)%Z in
  let dayFrac := day - inject_Z (Math_floor day) in
  let hours := dayFrac * 24 in
  let mins := (hours - inject_Z (Math_floor hours)) * 60 in
  let secs := (mins - inject_Z (Math_floor mins)) * 60 in
  Date_UTC year (month - 1) (Math_floor day)
           (Math_floor hours) (Math_floor mins) (Math_floor secs).

End AstronomyQ.



(** ** The parts of [Math], [Number] and [String] the engine calls *)

Module JS.
Import JSDate.
Local Open Scope R_scope.

(** A number that may be [NaN]: used where the code can meet an undefined
    or unparsable field.  Infinities are not modelled. *)
Inductive Number : Type :=
| NaN
| Num (x : R).

(** [x < y] as a boolean. *)
Definition lt (x y : R) : bool := if Rlt_dec x y then true else false.

Definition Math_floor (x : R) : Z := Zfloor x.
(** [Math.round]: the nearest integer, ties towards plus infinity. *)
Definition Math_round (x : R) : Z := Zfloor (x + / 2).
(** Truncation towards zero (ToIntegerOrInfinity). *)
Definition trunc (x : R) : Z :=
  if Rle_dec 0 x then Zfloor x else Zceil x.
(** The [%] operator on numbers: the result has the sign of the dividend. *)
Definition rem (a b : R) : R := a - b * IZR (trunc (a / b)).

Definition Math_atan2 (y x : R) : R :=
  if lt 0 x then atan (y / x)
  else if lt x 0 then
    (if lt y 0 then atan (y / x) - PI else atan (y / x) + PI)
  else if lt 0 y then PI / 2
  else if lt y 0 then - (PI / 2)
  else 0.

(** [new Date(x)] for a number [x]. *)
Definition new_Date (x : R) : Date :=
  if Rle_dec (Rabs x) (IZR maxTime) then ValidDate (trunc x) else InvalidDate.

(** [new Date(d.getTime() + off)]: an Invalid Date has time value [NaN]. *)
Definition Date_offset (d : Date) (off : R) : Date :=
  match d with
  | ValidDate t => new_Date (IZR t + off)
  | InvalidDate => InvalidDate
  end.

(** [d1 - d2] on two [Date] objects. *)
Definition Date_minus (d1 d2 : Date) : Number :=
  match d1, d2 with
  | ValidDate t1, ValidDate t2 => Num (IZR t1 - IZR t2)
  | _, _ => NaN
  end.

Definition lower_ascii (c : ascii) : ascii :=
  let n := nat_of_ascii c in
  if (65 <=? n)%nat && (n <=? 90)%nat then ascii_of_nat (n + 32) else c.

(** [s.toLowerCase()], on the ASCII letters. *)
Fixpoint toLowerCase (s : string) : string :=
  match s with
  | EmptyString => EmptyString
  | String c r => String (lower_ascii c) (toLowerCase r)
  end.

(** Property lookup in an object literal, by key. *)
Fixpoint lookup {A : Type} (k : string) (o : list (string * A)) : option A :=
  match o with
  | [] => None
  | (k', v) :: r => if String.eqb k k' then Some v else lookup k r
  end.

(** Arithmetic on numbers that may be [NaN] (ECMA-262, 6.1.6.1): an
    operation with a [NaN] operand is [NaN], a comparison with one is
    false.  Division is used with a divisor that is not zero. *)
Definition Number_lt (x y : Number) : bool :=
  match x, y with
  | Num a, Num b => lt a b
  | _, _ => false
  end.

Definition Number_add (x y : Number) : Number :=
  match x, y with
  | Num a, Num b => Num (a + b)
  | _, _ => NaN
  end.

Definition Number_sub (x y : Number) : Number :=
  match x, y with
  | Num a, Num b => Num (a - b)
  | _, _ => NaN
  end.

Definition Number_mul (x y : Number) : Number :=
  match x, y with
  | Num a, Num b => Num (a * b)
  | _, _ => NaN
  end.

Definition Number_div (x y : Number) : Number :=
  match x, y with
  | Num a, Num b => Num (a / b)
  | _, _ => NaN
  end.

(** [Math.min], [Math.max] and [Math.round]: [NaN] if an argument is. *)
Definition Number_min (x y : Number) : Number :=
  match x, y with
  | Num a, Num b => Num (Rmin a b)
  | _, _ => NaN
  end.

Definition Number_max (x y : Number) : Number :=
  match x, y with
  | Num a, Num b => Num (Rmax a b)
  | _, _ => NaN
  end.

Definition Number_round (x : Number) : Number :=
  match x with
  | Num a => Num (IZR (Math_round a))
  | NaN => NaN
  end.

(** [x || 0]: [NaN] and [0] are falsy. *)
Definition Number_or_zero (x : Number) : Number :=
  match x with
  | Num v => if Req_dec_T v 0 then Num 0 else Num v
  | NaN => Num 0
  end.

End JS.

(** ** astronomy.js, coordinate parsing

    Strings are byte strings in UTF-8: the degree sign is the two bytes
    194, 176.  White space is the ASCII white space. *)

Module Coordinates.
Local Open Scope string_scope.

Definition is_digit (c : ascii) : bool :=
  let n := nat_of_ascii c in (48 <=? n)%nat && (n <=? 57)%nat.

Definition is_space (c : ascii) : bool :=
  let n := nat_of_ascii c in
  (n =? 32)%nat || ((9 <=? n)%nat && (n <=? 13)%nat).

Definition is_sign (c : ascii) : bool :=
  Ascii.eqb c "+" || Ascii.eqb c "-".

(** The longest prefix of characters satisfying [p], and the rest: a greedy
    [p*]. *)
Fixpoint take_while (p : ascii -> bool) (s : string) : string * string :=
  match s with
  | EmptyString => (EmptyString, EmptyString)
  | String c r =>
    if p c then let '(t, u) := take_while p r in (String c t, u)
    else (EmptyString, s)
  end.

Fixpoint rev_append (s acc : string) : string :=
  match s with
  | EmptyString => acc
  | String c r => rev_append r (String c acc)
  end.

Definition trim (s : string) : string :=
  let s := snd (take_while is_space s) in
  rev_append (snd (take_while is_space (rev_append s ""))) "".

Definition is_empty (s : string) : bool :=
  match s with EmptyString => true | _ => false end.

(** An optional leading character out of a class. *)
Definition take_opt (p : ascii -> bool) (s : string) : string * string :=
  match s with
  | String c r => if p c then (String c "", r) else ("", s)
  | EmptyString => ("", "")
  end.

(** An optional degree sign. *)
Definition take_opt_degree (s : string) : string :=
  match s with
  | String c1 (String c2 r) =>
    if Ascii.eqb c1 (ascii_of_nat 194) && Ascii.eqb c2 (ascii_of_nat 176)
    then r else s
  | _ => s
  end.

Definition is_dot (c : ascii) : bool := Ascii.eqb c ".".

(** The number pattern [\d+\.?\d*] (digits, an optional dot, digits) at the
    head of [s]: the text matched and the rest. *)
Definition take_number (s : string) : option (string * string) :=
  let '(ds, r1) := take_while is_digit s in
  if is_empty ds then None
  else
    let '(dot, r2) := take_opt is_dot r1 in
    let '(fs, r3) := take_while is_digit r2 in
    Some (ds ++ dot ++ fs, r3).

(** The decimal-degree pattern: start of string, an optional sign and the
    number pattern (group 1), an optional degree sign, end of string.
    Returns group 1. *)
Definition match_decimal (s : string) : option string :=
  let '(sign, r0) := take_opt is_sign s in
  match take_number r0 with
  | None => None
  | Some (num, r1) =>
    if is_empty (take_opt_degree r1) then Some (sign ++ num) else None
  end.

Fixpoint digits_value (acc : Z) (s : string) : Z :=
  match s with
  | EmptyString => acc
  | String c r => digits_value (acc * 10 + (Z.of_nat (nat_of_ascii c) - 48)) r
  end.

(** [parseFloat] on a decimal literal [[+-]digits[.digits]], the only
    strings the callers below hand to it. *)
Definition parseFloat (s : string) : Q :=
  let '(sign, r0) := take_opt is_sign s in
  let '(ds, r1) := take_while is_digit r0 in
  let '(_, r2) := take_opt is_dot r1 in
  let '(fs, _) := take_while is_digit r2 in
  let v := Qmake (digits_value 0 (ds ++ fs))
                 (Z.to_pos (10 ^ Z.of_nat (String.length fs))) in
  if String.eqb sign "-" then Qopp v else v.

(** A regular expression without [^]: the leftmost position at which the
    pattern matches. *)
Fixpoint search {A : Type} (m : string -> option A) (s : string) : option A :=
  match m s with
  | Some r => Some r
  | None =>
    match s with
    | EmptyString => None
    | String _ r => search m r
    end
  end.

Definition is_hsep (c : ascii) : bool :=
  Ascii.eqb c "h" || Ascii.eqb c "H" || Ascii.eqb c ":" || is_space c.
Definition is_msep (c : ascii) : bool :=
  Ascii.eqb c "m" || Ascii.eqb c "M" || Ascii.eqb c ":" || is_space c.
Definition is_h (c : ascii) : bool := Ascii.eqb c "h" || Ascii.eqb c "H".
Definition is_apos_sep (c : ascii) : bool :=
  Ascii.eqb c "'" || Ascii.eqb c ":" || is_space c.

(** The hours-minutes-seconds pattern at the head of [s]: [(\d+)], one or
    more of [[h:\s]], [(\d+)], one or more of [[m:\s]], the number pattern
    (group 3), an optional [s]; letters in either case. *)
Definition match_hms (s : string) : option (string * string * string) :=
  let '(g1, r1) := take_while is_digit s in
  let '(sep1, r2) := take_while is_hsep r1 in
  let '(g2, r3) := take_while is_digit r2 in
  let '(sep2, r4) := take_while is_msep r3 in
  if is_empty g1 || is_empty sep1 || is_empty g2 || is_empty sep2 then None
  else
    match take_number r4 with
    | Some (g3, _) => Some (g1, g2, g3)
    | None => None
    end.

(** The hour pattern at the head of [s]: the number pattern (group 1) and
    the letter [h], in either case. *)
Definition match_hour (s : string) : option string :=
  match take_number s with
  | Some (g1, String c _) => if is_h c then Some g1 else None
  | _ => None
  end.

(** [[°:\s]+] at the head of [s]: the number of separators and the rest. *)
Fixpoint take_degree_seps (n : nat) (s : string) : nat * string :=
  match n with
  | O => (O, s)
  | S n' =>
    match s with
    | String c1 r1 =>
      if Ascii.eqb c1 ":" || is_space c1 then
        let '(k, u) := take_degree_seps n' r1 in (S k, u)
      else
        match r1 with
        | String c2 r2 =>
          if Ascii.eqb c1 (ascii_of_nat 194) && Ascii.eqb c2 (ascii_of_nat 176)
          then let '(k, u) := take_degree_seps n' r2 in (S k, u)
          else (O, s)
        | EmptyString => (O, s)
        end
    | EmptyString => (O, s)
    end
  end.

(** The degrees-minutes-seconds pattern at the head of [s]: an optional
    sign and [\d+] (group 1), one or more separators (degree sign, colon,
    white space), [(\d+)], one or more separators (apostrophe, colon, white
    space), the number pattern (group 3), an optional closing mark. *)
Definition match_dms (s : string) : option (string * string * string) :=
  let '(sign, r0) := take_opt is_sign s in
  let '(d1, r1) := take_while is_digit r0 in
  let '(n1, r2) := take_degree_seps (String.length r1) r1 in
  let '(g2, r3) := take_while is_digit r2 in
  let '(sep2, r4) := take_while is_apos_sep r3 in
  if is_empty d1 || (n1 =? 0)%nat || is_empty g2 || is_empty sep2 then None
  else
    match take_number r4 with
    | Some (g3, _) => Some (sign ++ d1, g2, g3)
    | None => None
    end.

Definition startsWith_minus (s : string) : bool :=
  match s with
  | String c _ => Ascii.eqb c "-"
  | EmptyString => false
  end.

Local Open Scope Q_scope.

Definition HOURS_TO_DEG : Q := 15.

(** [parseCoordinate(str, type)]; [null] is [None]. *)
Definition parseCoordinate (str type : string) : option Q :=
  let str := trim str in
  match match_decimal str with
  | Some g => Some (parseFloat g)
  | None =>
    let in_ra :=
      if String.eqb type "ra" then
        match search match_hms str with
        | Some (g1, g2, g3) =>
          let hours := parseFloat g1 in
          let minutes := parseFloat g2 in
          let seconds := parseFloat g3 in
          Some ((hours + minutes / 60 + seconds / 3600) * HOURS_TO_DEG)
        | None =>
          match search match_hour str with
          | Some g1 => Some (parseFloat g1 * HOURS_TO_DEG)
          | None => None
          end
        end
      else None in
    match in_ra with
    | Some v => Some v
    | None =>
      if String.eqb type "dec" then
        match search match_dms str with
        | Some (g1, g2, g3) =>
          let sign := if startsWith_minus g1 then -1 else 1 in
          let degrees := Qabs (parseFloat g1) in
          let minutes := parseFloat g2 in
          let seconds := parseFloat g3 in
          Some (sign * (degrees + minutes / 60 + seconds / 3600))
        | None => None
        end
      else None
    end
  end.

(** *** Formatting *)

Local Open Scope Z_scope.

Definition digit_char (d : Z) : ascii := ascii_of_nat (48 + Z.to_nat d).

(** The decimal digits of [n], in front of [acc]. *)
Fixpoint print_digits (fuel : nat) (n : Z) (acc : string) : string :=
  match fuel with
  | O => acc
  | S fuel' =>
    let acc' := String (digit_char (n mod 10)) acc in
    if n <? 10 then acc' else print_digits fuel' (n / 10) acc'
  end.

(** [String(n)] for an integer [n] below [10^21] in size. *)
Definition Number_toString (n : Z) : string :=
  if n <? 0
  then String "-" (print_digits (S (Z.to_nat (Z.log2 (- n)))) (- n) "")
  else print_digits (S (Z.to_nat (Z.log2 n))) n "".

Fixpoint zeros (k : nat) : string :=
  match k with
  | O => ""
  | S k' => String "0" (zeros k')
  end.

Local Open Scope Q_scope.

(** [x.toFixed(f)] for [x] below [10^21] in size (ECMA-262, 21.1.3.3):
    the integer [n] nearest to [x * 10^f], the larger one of two, printed
    with [f] digits behind the point. *)
Definition toFixed (x : Q) (f : nat) : string :=
  let s := if Qlt_le_dec x 0 then "-"%string else ""%string in
  let x := Qabs x in
  let n := Qfloor (x * inject_Z (10 ^ Z.of_nat f) + (1 # 2)) in
  let m := Number_toString n in
  let m :=
    match f with
    | O => m
    | _ =>
      let k := String.length m in
      let m := if (k <=? f)%nat then (zeros (f + 1 - k) ++ m)%string else m in
      let k := String.length m in
      (substring 0 (k - f) m ++ "." ++ substring (k - f) f m)%string
    end in
  (s ++ m)%string.

Definition trunc (x : Q) : Z :=
  if Qlt_le_dec x 0 then Qceiling x else Qfloor x.

(** [normalizeAngle] on rationals. *)
Definition normalizeAngle (angle : Q) : Q :=
  let angle := angle - 360 * inject_Z (trunc (angle / 360)) in
  if Qlt_le_dec angle 0 then angle + 360 else angle.

Definition formatRA (ra : Q) : string :=
  let ra := normalizeAngle ra in
  let hours := ra / HOURS_TO_DEG in
  let h := Qfloor hours in
  let m := Qfloor ((hours - inject_Z h) * 60) in
  let s := ((hours - inject_Z h) * 60 - inject_Z m) * 60 in
  (Number_toString h ++ "h " ++ Number_toString m ++ "m " ++
   toFixed s 1 ++ "s")%string.

(** The degree sign is the two bytes 194, 176 and the closing mark the
    double quote, byte 34. *)
Definition formatDec (dec : Q) : string :=
  let sign := if Qle_bool 0 dec then "+"%string else "-"%string in
  let dec := Qabs dec in
  let d := Qfloor dec in
  let m := Qfloor ((dec - inject_Z d) * 60) in
  let s := ((dec - inject_Z d) * 60 - inject_Z m) * 60 in
  (sign ++ Number_toString d ++
   String (ascii_of_nat 194) (String (ascii_of_nat 176) " ") ++
   Number_toString m ++ "' " ++ toFixed s 0 ++
   String (ascii_of_nat 34) "")%string.

End Coordinates.

(** ** astronomy.js, real part *)

Module Astronomy.
Import JSDate JS.
Local Open Scope R_scope.

(** *** Fundamental constants *)

Definition DEG_TO_RAD : R := PI / 180.
Definition RAD_TO_DEG : R := 180 / PI.
Definition HOURS_TO_DEG : R := 15.
Definition J2000 : R := 2451545.0.
Definition JULIAN_CENTURY : R := 36525.
Definition OBLIQUITY_J2000 : R := 23.439291111.
Definition OBLIQUITY_RATE : R := -46.8150.
Definition SUN_HORIZON_ANGLE : R := -0.8333.
Definition TWILIGHT_CIVIL : R := -6.
Definition TWILIGHT_NAUTICAL : R := -12.
Definition TWILIGHT_ASTRONOMICAL : R := -18.
Definition SIDEREAL_RATIO : R := 1.00273790935.
Definition GMST_AT_J2000 : R := 280.46061837.
Definition GMST_RATE : R := 360.98564736629.
Definition SUN_MEAN_LONGITUDE_J2000 : R := 280.461.
Definition SUN_MEAN_LONGITUDE_RATE : R := 0.9856474.
Definition SUN_MEAN_ANOMALY_J2000 : R := 357.528.
Definition SUN_MEAN_ANOMALY_RATE : R := 0.9856003.
Definition SUN_EOC_1 : R := 1.915.
Definition SUN_EOC_2 : R := 0.020.

(** *** Utility methods *)

Definition toRadians (degrees : R) : R := degrees * DEG_TO_RAD.
Definition toDegrees (radians : R) : R := radians * RAD_TO_DEG.

Definition normalizeAngle (angle : R) : R :=
  let angle := rem angle 360 in
  if lt angle 0 then angle + 360 else angle.

Definition normalizeAngleSigned (angle : R) : R :=
  let angle := normalizeAngle angle in
  if lt 180 angle then angle - 360 else angle.

(** [dateToJulian] is rational arithmetic ([AstronomyQ.dateToJulian]); its
    value enters the real computations through [Q2R]. *)
Definition dateToJulian (t : Z) : R := Q2R (AstronomyQ.dateToJulian t).

Definition julianCenturies (jd : R) : R := (jd - J2000) / JULIAN_CENTURY.

(** *** Sidereal time and obliquity *)

Definition gmst (jd : R) : R :=
  let d := jd - J2000 in
  let t := d / JULIAN_CENTURY in
  let gmst := GMST_AT_J2000 + GMST_RATE * d + 0.000387933 * t * t -
              t * t * t / 38710000 in
  normalizeAngle gmst.

Definition lst (jd longitude : R) : R := normalizeAngle (gmst jd + longitude).

Definition meanObliquity (jd : R) : R :=
  let t := julianCenturies jd in
  OBLIQUITY_J2000 +
  (OBLIQUITY_RATE * t + -0.00059 * t * t + 0.001813 * t * t * t) / 3600.

(** *** Coordinate transformations *)

Record AltAz : Type := { altitude : R; azimuth : R }.

Definition raDecToAltAz (ra dec lat lst : R) : AltAz :=
  let ha := toRadians (lst - ra) in
  let decRad := toRadians dec in
  let latRad := toRadians lat in
  let sinAlt := sin decRad * sin latRad + cos decRad * cos latRad * cos ha in
  let altitude := toDegrees (asin sinAlt) in
  let cosAz := (sin decRad - sin latRad * sinAlt) /
               (cos latRad * cos (asin sinAlt)) in
  let azimuth := toDegrees (acos (Rmax (-1) (Rmin 1 cosAz))) in
  let azimuth := if lt 0 (sin ha) then 360 - azimuth else azimuth in
  {| altitude := altitude; azimuth := azimuth |}.

Definition angularDistance (ra1 dec1 ra2 dec2 : R) : R :=
  let dec1Rad := toRadians dec1 in
  let dec2Rad := toRadians dec2 in
  let dRa := toRadians (ra2 - ra1) in
  let cosD := sin dec1Rad * sin dec2Rad +
              cos dec1Rad * cos dec2Rad * cos dRa in
  toDegrees (acos (Rmax (-1) (Rmin 1 cosD))).

(** *** Rise, transit, set *)

(** [rise], [transit], [set] are [null] ([None]) or a [Date]; a flag the
    returned object does not carry reads as [false]. *)
Record RiseTransitSet : Type := {
  rise : option Date;
  transit : option Date;
  set : option Date;
  circumpolar : bool;
  neverRises : bool
}.

Definition calculateTransit (ra lon : R) (date : Z) : Date :=
  let midnight := setUTCHours0 date in
  let jd := dateToJulian midnight in
  let lst0 := lst jd lon in
  let hourAngle := ra - lst0 in
  let hourAngle := if lt hourAngle 0 then hourAngle + 360 else hourAngle in
  let hourAngle := if lt 180 hourAngle then hourAngle - 360 else hourAngle in
  let hoursUntilTransit := hourAngle / HOURS_TO_DEG in
  let transitMs := hoursUntilTransit * 3600000 / SIDEREAL_RATIO in
  new_Date (IZR midnight + transitMs).

Definition calculateRiseTransitSet
    (ra dec lat lon : R) (date : Z) (horizonAngle : R) : RiseTransitSet :=
  let decRad := toRadians dec in
  let latRad := toRadians lat in
  let h0Rad := toRadians horizonAngle in
  let cosH := (sin h0Rad - sin latRad * sin decRad) /
              (cos latRad * cos decRad) in
  if lt cosH (-1) then
    {| circumpolar := true; rise := None;
       transit := Some (calculateTransit ra lon date); set := None;
       neverRises := false |}
  else if lt 1 cosH then
    {| neverRises := true; rise := None; transit := None; set := None;
       circumpolar := false |}
  else
    let H := toDegrees (acos cosH) in
    let transit := calculateTransit ra lon date in
    let riseOffset := H / HOURS_TO_DEG * 3600000 in
    let rise := Date_offset transit (- riseOffset) in
    let set := Date_offset transit riseOffset in
    {| rise := Some rise; transit := Some transit; set := Some set;
       circumpolar := false; neverRises := false |}.

(** *** Sun position and twilight *)

Record SunPosition : Type := {
  sun_ra : R; sun_dec : R; sun_longitude : R; sun_distance : R
}.

Definition approximateSunPosition (date : Z) : SunPosition :=
  let jd := dateToJulian date in
  let n := jd - J2000 in
  let t := n / JULIAN_CENTURY in
  let L := normalizeAngle (SUN_MEAN_LONGITUDE_J2000 + SUN_MEAN_LONGITUDE_RATE * n) in
  let g := normalizeAngle (SUN_MEAN_ANOMALY_J2000 + SUN_MEAN_ANOMALY_RATE * n) in
  let gRad := toRadians g in
  let C := SUN_EOC_1 * sin gRad + SUN_EOC_2 * sin (2 * gRad) in
  let lambda := L + C in
  let epsilon := meanObliquity jd in
  let epsilonRad := toRadians epsilon in
  let lambdaRad := toRadians lambda in
  let ra := toDegrees (Math_atan2 (cos epsilonRad * sin lambdaRad) (cos lambdaRad)) in
  let dec := toDegrees (asin (sin epsilonRad * sin lambdaRad)) in
  let distance := 1.00014 - 0.01671 * cos gRad - 0.00014 * cos (2 * gRad) in
  {| sun_ra := normalizeAngle ra; sun_dec := dec;
     sun_longitude := lambda; sun_distance := distance |}.

Record SunRiseSet : Type := {
  srs_rise : option Date; srs_set : option Date;
  polarDay : bool; polarNight : bool
}.

Definition calculateSunRiseSet
    (sunDec lat lon : R) (date : Z) (h0 : R) : SunRiseSet :=
  let decRad := toRadians sunDec in
  let latRad := toRadians lat in
  let h0Rad := toRadians h0 in
  let cosH := (sin h0Rad - sin latRad * sin decRad) /
              (cos latRad * cos decRad) in
  if lt cosH (-1) || lt 1 cosH then
    {| srs_rise := None; srs_set := None;
       polarDay := lt cosH (-1); polarNight := lt 1 cosH |}
  else
    let H := toDegrees (acos cosH) in
    let sunPos := approximateSunPosition date in
    let transit := calculateTransit (sun_ra sunPos) lon date in
    let riseOffset := H / HOURS_TO_DEG * 3600000 in
    {| srs_rise := Some (Date_offset transit (- riseOffset));
       srs_set := Some (Date_offset transit riseOffset);
       polarDay := false; polarNight := false |}.

(** The [events] table of [calculateTwilightTimes]: name, horizon angle,
    [isPM]. *)
Definition twilight_events : list (string * (R * bool)) :=
  [ ("sunrise", (SUN_HORIZON_ANGLE, false));
    ("sunset", (SUN_HORIZON_ANGLE, true));
    ("civilDawn", (TWILIGHT_CIVIL, false));
    ("civilDusk", (TWILIGHT_CIVIL, true));
    ("nauticalDawn", (TWILIGHT_NAUTICAL, false));
    ("nauticalDusk", (TWILIGHT_NAUTICAL, true));
    ("astronomicalDawn", (TWILIGHT_ASTRONOMICAL, false));
    ("astronomicalDusk", (TWILIGHT_ASTRONOMICAL, true)) ]%string.

(** The returned object: the eight event properties ([null] is [None]) and
    [darknessDuration], present only when the code assigns it. *)
Record Twilight : Type := {
  tw_date : Z;
  sunPosition : SunPosition;
  tw_events : list (string * option Date);
  darknessDuration : option Number
}.

Definition twilight_event (r : Twilight) (name : string) : option Date :=
  match lookup name (tw_events r) with
  | Some v => v
  | None => None
  end.

(** [nextDate.setDate(nextDate.getDate() + 1)], the local time zone being
    UTC. *)
Definition nextDate (date : Z) : Date := TimeClip (date + msPerDay).

(** [calculateTwilightTimes] calls itself.  [fuel] bounds the number of
    nested activations; [None] means that [fuel] activations were not
    enough.  An Invalid Date as [nextDate] makes every comparison false and
    every event an (truthy) Invalid Date object, so that the recursion never
    stops: no fuel is enough. *)
Fixpoint calculateTwilightTimes
    (fuel : nat) (lat lon : R) (date : Z) : option Twilight :=
  match fuel with
  | O => None
  | S fuel' =>
    let sunCoords := approximateSunPosition date in
    let events :=
      map (fun '(name, (angle, isPM)) =>
             let times := calculateSunRiseSet (sun_dec sunCoords) lat lon date angle in
             (name, if isPM : bool then srs_set times else srs_rise times))
          twilight_events in
    let result := {| tw_date := date; sunPosition := sunCoords;
                     tw_events := events; darknessDuration := None |} in
    match twilight_event result "astronomicalDusk",
          twilight_event result "astronomicalDawn" with
    | Some dusk, Some _ =>
      match nextDate date with
      | InvalidDate => None
      | ValidDate next =>
        match calculateTwilightTimes fuel' lat lon next with
        | None => None
        | Some nextTwilight =>
          match twilight_event nextTwilight "astronomicalDawn" with
          | Some dawn' =>
            Some {| tw_date := date; sunPosition := sunCoords;
                    tw_events := events;
                    darknessDuration :=
                      Some (match Date_minus dawn' dusk with
                            | Num ms => Num (ms / 3600000)
                            | NaN => NaN
                            end) |}
          | None => Some result
          end
        end
      end
    | _, _ => Some result
    end
  end.


(** *** Planetary ephemeris *)

(** An entry of [PLANETS]: the orbital elements at J2000.0, their rates per
    Julian century and the two periods ([null] is [None]).  The symbol and
    the display-only ranges are left out. *)
Record Planet : Type := {
  name : string;
  a : R; e : R; I : R; L : R; longPeri : R; longNode : R;
  aRate : R; eRate : R; IRate : R; LRate : R;
  longPeriRate : R; longNodeRate : R;
  siderealPeriod : R;
  synodicPeriod : option R
}.

Definition PLANETS : list (string * Planet) :=
  [
    ("mercury"%string,
     {| name := "Mercury"; a := 0.38709927; e := 0.20563593; I := 7.00497902; L := 252.25032350;
        longPeri := 77.45779628; longNode := 48.33076593;
        aRate := 0.00000037; eRate := 0.00001906; IRate := (-0.00594749); LRate := 149472.67411175;
        longPeriRate := 0.16047689; longNodeRate := (-0.12534081);
        siderealPeriod := 87.969; synodicPeriod := Some 115.88 |});
    ("venus"%string,
     {| name := "Venus"; a := 0.72333566; e := 0.00677672; I := 3.39467605; L := 181.97909950;
        longPeri := 131.60246718; longNode := 76.67984255;
        aRate := 0.00000390; eRate := (-0.00004107); IRate := (-0.00078890); LRate := 58517.81538729;
        longPeriRate := 0.00268329; longNodeRate := (-0.27769418);
        siderealPeriod := 224.701; synodicPeriod := Some 583.92 |});
    ("earth"%string,
     {| name := "Earth"; a := 1.00000261; e := 0.01671123; I := (-0.00001531); L := 100.46457166;
        longPeri := 102.93768193; longNode := 0.0;
        aRate := 0.00000562; eRate := (-0.00004392); IRate := (-0.01294668); LRate := 35999.37244981;
        longPeriRate := 0.32327364; longNodeRate := 0.0;
        siderealPeriod := 365.256; synodicPeriod := None |});
    ("mars"%string,
     {| name := "Mars"; a := 1.52371034; e := 0.09339410; I := 1.84969142; L := (-4.55343205);
        longPeri := (-23.94362959); longNode := 49.55953891;
        aRate := 0.00001847; eRate := 0.00007882; IRate := (-0.00813131); LRate := 19140.30268499;
        longPeriRate := 0.44441088; longNodeRate := (-0.29257343);
        siderealPeriod := 686.980; synodicPeriod := Some 779.94 |});
    ("jupiter"%string,
     {| name := "Jupiter"; a := 5.20288700; e := 0.04838624; I := 1.30439695; L := 34.39644051;
        longPeri := 14.72847983; longNode := 100.47390909;
        aRate := (-0.00011607); eRate := (-0.00013253); IRate := (-0.00183714); LRate := 3034.74612775;
        longPeriRate := 0.21252668; longNodeRate := 0.20469106;
        siderealPeriod := 4332.59; synodicPeriod := Some 398.88 |});
    ("saturn"%string,
     {| name := "Saturn"; a := 9.53667594; e := 0.05386179; I := 2.48599187; L := 49.95424423;
        longPeri := 92.59887831; longNode := 113.66242448;
        aRate := (-0.00125060); eRate := (-0.00050991); IRate := 0.00193609; LRate := 1222.49362201;
        longPeriRate := (-0.41897216); longNodeRate := (-0.28867794);
        siderealPeriod := 10759.22; synodicPeriod := Some 378.09 |});
    ("uranus"%string,
     {| name := "Uranus"; a := 19.18916464; e := 0.04725744; I := 0.77263783; L := 313.23810451;
        longPeri := 170.95427630; longNode := 74.01692503;
        aRate := (-0.00196176); eRate := (-0.00004397); IRate := (-0.00242939); LRate := 428.48202785;
        longPeriRate := 0.40805281; longNodeRate := 0.04240589;
        siderealPeriod := 30688.5; synodicPeriod := Some 369.66 |});
    ("neptune"%string,
     {| name := "Neptune"; a := 30.06992276; e := 0.00859048; I := 1.77004347; L := (-55.12002969);
        longPeri := 44.96476227; longNode := 131.78422574;
        aRate := 0.00026291; eRate := 0.00005105; IRate := 0.00035372; LRate := 218.45945325;
        longPeriRate := (-0.32241464); longNodeRate := (-0.00508664);
        siderealPeriod := 60182.0; synodicPeriod := Some 367.49 |})
  ].

Definition PLANET_RADII : list (string * R) :=
  [ ("mercury", 2439.7); ("venus", 6051.8); ("earth", 6371.0);
    ("mars", 3389.5); ("jupiter", 69911); ("saturn", 58232);
    ("uranus", 25362); ("neptune", 24622) ]%string.

Record Elements : Type := {
  el_name : string;
  el_a : R; el_e : R; el_I : R; el_L : R; el_longPeri : R; el_longNode : R;
  el_siderealPeriod : R;
  el_synodicPeriod : option R
}.

Definition getPlanetElements (planetName : string) (jd : R) : option Elements :=
  match lookup (toLowerCase planetName) PLANETS with
  | None => None
  | Some planet =>
    let T := julianCenturies jd in
    Some {| el_name := name planet;
            el_a := a planet + aRate planet * T;
            el_e := e planet + eRate planet * T;
            el_I := I planet + IRate planet * T;
            el_L := normalizeAngle (L planet + LRate planet * T);
            el_longPeri := longPeri planet + longPeriRate planet * T;
            el_longNode := longNode planet + longNodeRate planet * T;
            el_siderealPeriod := siderealPeriod planet;
            el_synodicPeriod := synodicPeriod planet |}
  end.

(** The Newton-Raphson loop on Kepler's equation: at most [n] further
    corrections, leaving as soon as a correction is below [0.0001]. *)
Fixpoint kepler_loop (n : nat) (ecc M E : R) : R :=
  match n with
  | O => E
  | S n' =>
    let ERad := toRadians E in
    let dE := (M - E + toDegrees (ecc * sin ERad)) / (1 - ecc * cos ERad) in
    let E := E + dE in
    if lt (Rabs dE) 0.0001 then E else kepler_loop n' ecc M E
  end.

Record Heliocentric : Type := {
  h_longitude : R; h_latitude : R; h_distance : R;
  h_x : R; h_y : R; h_z : R;
  h_trueAnomaly : R; h_meanAnomaly : R
}.

Definition calculateHeliocentricPosition
    (planetName : string) (date : Z) : option Heliocentric :=
  let jd := dateToJulian date in
  match getPlanetElements planetName jd with
  | None => None
  | Some elements =>
    let omega := el_longPeri elements - el_longNode elements in
    let M := normalizeAngle (el_L elements - el_longPeri elements) in
    let MRad := toRadians M in
    let E := M + toDegrees (el_e elements) * sin MRad in
    let E := kepler_loop 10 (el_e elements) M E in
    let ERad := toRadians E in
    let xv := el_a elements * (cos ERad - el_e elements) in
    let yv := el_a elements * sqrt (1 - el_e elements * el_e elements) * sin ERad in
    let v := toDegrees (Math_atan2 yv xv) in
    let r := sqrt (xv * xv + yv * yv) in
    let omegaRad := toRadians omega in
    let nodeRad := toRadians (el_longNode elements) in
    let iRad := toRadians (el_I elements) in
    let vRad := toRadians v in
    let xh := r * (cos nodeRad * cos (vRad + omegaRad) -
                   sin nodeRad * sin (vRad + omegaRad) * cos iRad) in
    let yh := r * (sin nodeRad * cos (vRad + omegaRad) +
                   cos nodeRad * sin (vRad + omegaRad) * cos iRad) in
    let zh := r * sin (vRad + omegaRad) * sin iRad in
    let lonEcl := toDegrees (Math_atan2 yh xh) in
    let latEcl := toDegrees (Math_atan2 zh (sqrt (xh * xh + yh * yh))) in
    Some {| h_longitude := normalizeAngle lonEcl; h_latitude := latEcl;
            h_distance := r; h_x := xh; h_y := yh; h_z := zh;
            h_trueAnomaly := v; h_meanAnomaly := M |}
  end.

Record PlanetPosition : Type := {
  p_ra : R; p_dec : R; p_distance : R; p_distanceSun : R;
  p_elongation : R; p_phaseAngle : R; p_illumination : R;
  p_angularDiameter : R;
  p_eclipticLongitude : R; p_eclipticLatitude : R
}.

Definition calculatePlanetPosition
    (planetName : string) (date : Z) : option PlanetPosition :=
  if String.eqb (toLowerCase planetName) "earth" then None
  else
    let jd := dateToJulian date in
    match calculateHeliocentricPosition planetName date,
          calculateHeliocentricPosition "earth" date with
    | Some planet, Some earth =>
      let xg := h_x planet - h_x earth in
      let yg := h_y planet - h_y earth in
      let zg := h_z planet - h_z earth in
      let dist := sqrt (xg * xg + yg * yg + zg * zg) in
      let lonEcl := toDegrees (Math_atan2 yg xg) in
      let latEcl := toDegrees (Math_atan2 zg (sqrt (xg * xg + yg * yg))) in
      let epsilon := meanObliquity jd in
      let epsilonRad := toRadians epsilon in
      let lonRad := toRadians lonEcl in
      let latRad := toRadians latEcl in
      let ra := toDegrees (Math_atan2
                  (sin lonRad * cos epsilonRad - tan latRad * sin epsilonRad)
                  (cos lonRad)) in
      let dec := toDegrees (asin
                  (sin latRad * cos epsilonRad +
                   cos latRad * sin epsilonRad * sin lonRad)) in
      let sunPos := approximateSunPosition date in
      let elongation := angularDistance (normalizeAngle ra) dec
                                        (sun_ra sunPos) (sun_dec sunPos) in
      let r := h_distance planet in
      let R := dist in
      let s := h_distance earth in
      let phaseAngle := toDegrees (acos ((r * r + R * R - s * s) / (2 * r * R))) in
      let illumination := (1 + cos (toRadians phaseAngle)) / 2 * 100 in
      let planetRadius :=
        match lookup (toLowerCase planetName) PLANET_RADII with
        | Some x => x
        | None => 0
        end in
      let angularDiam :=
        2 * toDegrees (atan (planetRadius / (dist * 149597870.7))) * 3600 in
      Some {| p_ra := normalizeAngle ra; p_dec := dec; p_distance := dist;
              p_distanceSun := r; p_elongation := elongation;
              p_phaseAngle := phaseAngle; p_illumination := illumination;
              p_angularDiameter := angularDiam;
              p_eclipticLongitude := normalizeAngle lonEcl;
              p_eclipticLatitude := latEcl |}
    | _, _ => None
    end.

(** The search loop of [calculateNextPlanetaryEvent]: [n] bounds the
    remaining iterations, [day] is the loop counter.  On an Invalid Date
    every elongation is [NaN], no test succeeds and the date stays
    invalid. *)
Fixpoint event_search (n : nat) (planetName : string) (opposition : bool)
    (targetElong maxDays : R) (day : Z) (date : Date) : option Date :=
  match n with
  | O => None
  | S n' =>
    if lt (IZR day) maxDays then
      match date with
      | InvalidDate =>
        event_search n' planetName opposition targetElong maxDays (day + 1) date
      | ValidDate t =>
        match calculatePlanetPosition planetName t with
        | None =>
          event_search n' planetName opposition targetElong maxDays (day + 1) date
        | Some pos =>
          let diff := Rabs (p_elongation pos - targetElong) in
          let found :=
            if lt diff 1 then
              match new_Date (IZR t + 86400000) with
              | ValidDate t' =>
                match calculatePlanetPosition planetName t' with
                | Some nextPos =>
                  if opposition
                  then lt (p_elongation nextPos) (p_elongation pos)
                  else lt (p_elongation pos) (p_elongation nextPos)
                | None => false
                end
              | InvalidDate => false
              end
            else false in
          if found then Some date
          else event_search n' planetName opposition targetElong maxDays
                            (day + 1) (new_Date (IZR t + 86400000))
        end
      end
    else None
  end.

Definition calculateNextPlanetaryEvent
    (planetName : string) (startDate : Z) (event : string) : option Date :=
  match lookup (toLowerCase planetName) PLANETS with
  | None => None
  | Some planet =>
    let isInferior := lt (a planet) 1 in
    if isInferior && String.eqb event "opposition" then None
    else
      let targetElong := if String.eqb event "opposition" then 180 else 0 in
      let maxDays :=
        match synodicPeriod planet with
        | Some p => if Req_dec_T p 0 then 800 else p * 1.5
        | None => 800
        end in
      event_search (Z.to_nat (Zceil maxDays)) planetName
                   (String.eqb event "opposition") targetElong maxDays
                   0 (ValidDate startDate)
  end.


(** *** Bortle scale *)

(** An entry of [BORTLE_SCALE]; the two descriptive texts are left out. *)
Record BortleInfo : Type := {
  bortle_name : string;
  limitingMag : R;
  sqm : R
}.

Definition BORTLE_SCALE : list (Z * BortleInfo) :=
  [ (1%Z, {| bortle_name := "Excellent Dark-Sky Site"; limitingMag := 7.8; sqm := 21.99 |});
    (2%Z, {| bortle_name := "Typical Truly Dark Site"; limitingMag := 7.3; sqm := 21.89 |});
    (3%Z, {| bortle_name := "Rural Sky"; limitingMag := 6.8; sqm := 21.69 |});
    (4%Z, {| bortle_name := "Rural/Suburban Transition"; limitingMag := 6.3; sqm := 21.25 |});
    (5%Z, {| bortle_name := "Suburban Sky"; limitingMag := 5.8; sqm := 20.49 |});
    (6%Z, {| bortle_name := "Bright Suburban Sky"; limitingMag := 5.3; sqm := 19.50 |});
    (7%Z, {| bortle_name := "Suburban/Urban Transition"; limitingMag := 4.8; sqm := 18.94 |});
    (8%Z, {| bortle_name := "City Sky"; limitingMag := 4.3; sqm := 18.38 |});
    (9%Z, {| bortle_name := "Inner-City Sky"; limitingMag := 4.0; sqm := 17.80 |}) ].

(** [BORTLE_SCALE[k]] for an integral key; [undefined] is [None]. *)
Fixpoint bortle_entry (k : Z) (o : list (Z * BortleInfo)) : option BortleInfo :=
  match o with
  | [] => None
  | (k', v) :: r => if (k =? k')%Z then Some v else bortle_entry k r
  end.

Definition getBortleInfo (bortleClass : R) : option BortleInfo :=
  let bortleClass := Z.max 1 (Z.min 9 (Math_round bortleClass)) in
  bortle_entry bortleClass BORTLE_SCALE.

(** [None]: reading [.sqm] of [undefined] throws. *)
Definition bortleToSqm (bortle : R) : option R :=
  match getBortleInfo bortle with
  | Some info => Some (sqm info)
  | None => None
  end.

(** *** Visibility scoring *)

(** A coordinate field of a catalog object: a number (possibly [NaN], which
    also stands for a missing field) or a string. *)
Inductive Coord : Type :=
| CoordNum (x : Number)
| CoordStr (s : string).

(** A catalog object.  [magnitude] is [NaN] when the field is missing.
    [size] is [None] when [obj.size] is falsy, and otherwise carries the
    value of [parseFloat(obj.size)]. *)
Record CatalogObject : Type := {
  obj_ra : Coord;
  obj_dec : Coord;
  magnitude : Number;
  size : option Number
}.

Definition calculateVisibilityScore
    (obj : CatalogObject) (altitude limitingMag : R) : Z :=
  if lt altitude 0 then 0%Z
  else
    let score := 0 in
    let score :=
      if lt altitude 15 then score + altitude * 1.5
      else if lt altitude 30 then score + (22.5 + (altitude - 15) * 1.0)
      else if lt altitude 70 then score + (37.5 + (altitude - 30) * 0.3125)
      else score + (50 - (altitude - 70) * 0.5) in
    let score :=
      match magnitude obj with
      | Num m =>
        let magDiff := limitingMag - m in
        if lt magDiff (-2) then score + 0
        else if lt magDiff 0 then score + (magDiff + 2) * 5
        else if lt magDiff 3 then score + (10 + magDiff * 6.67)
        else score + 30
      | NaN => score + 30
      end in
    let score :=
      match size obj with
      | Some parsed =>
        let sizeArcmin :=
          match parsed with
          | Num v => if Req_dec_T v 0 then 0 else v
          | NaN => 0
          end in
        if lt 5 sizeArcmin then score + Rmin 20 (sizeArcmin / 3) else score
      | None => score
      end in
    Z.min 100 (Z.max 0 (Math_round score)).

(** An entry of the ranking: the catalog object and the attached fields.
    [NaN] altitude, azimuth and score are [None]. *)
Record Ranked : Type := {
  object : CatalogObject;
  currentAltitude : option R;
  currentAzimuth : option R;
  visibilityScore : option Z;
  isVisible : bool;
  isOptimal : bool
}.

(** [Array.prototype.sort(cmp)]: a stable insertion sort driven by the sign
    of the comparator. *)
Fixpoint insert_by {A : Type} (cmp : A -> A -> Z) (x : A) (l : list A) : list A :=
  match l with
  | [] => [x]
  | y :: r => if (cmp y x <=? 0)%Z then y :: insert_by cmp x r else x :: l
  end.

Definition Array_sort {A : Type} (cmp : A -> A -> Z) (l : list A) : list A :=
  fold_left (fun acc x => insert_by cmp x acc) l [].

(** [s.includes('h')]. *)
Fixpoint includes_h (s : string) : bool :=
  match s with
  | EmptyString => false
  | String c r => Ascii.eqb c "h" || includes_h r
  end.

Section Ranking.

(** The conversion of a string to a number by the arithmetic operators. *)
Variable ToNumber : string -> Number.

(** [null] in arithmetic is [0]. *)
Definition of_parsed (q : option Q) : Number :=
  match q with
  | Some v => Num (Q2R v)
  | None => Num 0
  end.

Definition rank_entry (lat localSiderealTime limitingMag : R)
    (obj : CatalogObject) : Ranked :=
  let ra :=
    match obj_ra obj with
    | CoordStr s =>
      if includes_h s then of_parsed (Coordinates.parseCoordinate s "ra")
      else
        match ToNumber s with
        | Num x => if lt x 24 then Num (x * HOURS_TO_DEG) else Num x
        | NaN => NaN
        end
    | CoordNum (Num x) => if lt x 24 then Num (x * HOURS_TO_DEG) else Num x
    | CoordNum NaN => NaN
    end in
  let dec :=
    match obj_dec obj with
    | CoordStr s => of_parsed (Coordinates.parseCoordinate s "dec")
    | CoordNum x => x
    end in
  match ra, dec with
  | Num ra, Num dec =>
    let altAz := raDecToAltAz ra dec lat localSiderealTime in
    let score := calculateVisibilityScore obj (altitude altAz) limitingMag in
    {| object := obj;
       currentAltitude := Some (altitude altAz);
       currentAzimuth := Some (azimuth altAz);
       visibilityScore := Some score;
       isVisible := lt 0 (altitude altAz);
       isOptimal := lt 30 (altitude altAz) && lt (altitude altAz) 70 |}
  | _, _ =>
    {| object := obj; currentAltitude := None; currentAzimuth := None;
       visibilityScore := None; isVisible := false; isOptimal := false |}
  end.

(** The comparator [(a, b) => b.visibilityScore - a.visibilityScore]; a
    [NaN] difference counts as [0]. *)
Definition by_score (x y : Ranked) : Z :=
  match visibilityScore y, visibilityScore x with
  | Some sy, Some sx => (sy - sx)%Z
  | _, _ => 0%Z
  end.

Definition rankObjectsByVisibility (objects : list CatalogObject)
    (lat lon : R) (date : Z) (limitingMag : R) : list Ranked :=
  let jd := dateToJulian date in
  let localSiderealTime := lst jd lon in
  Array_sort by_score
    (filter isVisible
       (map (rank_entry lat localSiderealTime limitingMag) objects)).

End Ranking.

(** *** Further methods *)

Definition lstHours (jd longitude : R) : R := lst jd longitude / HOURS_TO_DEG.

Record RaDec : Type := { rd_ra : R; rd_dec : R }.

Definition altAzToRaDec (alt az lat lst : R) : RaDec :=
  let altRad := toRadians alt in
  let azRad := toRadians az in
  let latRad := toRadians lat in
  let sinDec := sin altRad * sin latRad + cos altRad * cos latRad * cos azRad in
  let dec := toDegrees (asin sinDec) in
  let cosH := (sin altRad - sin latRad * sinDec) /
              (cos latRad * cos (asin sinDec)) in
  let ha := toDegrees (acos (Rmax (-1) (Rmin 1 cosH))) in
  let ha := if lt 0 (sin azRad) then 360 - ha else ha in
  let ra := normalizeAngle (lst - ha) in
  {| rd_ra := ra; rd_dec := dec |}.

Definition angularDistanceHaversine (ra1 dec1 ra2 dec2 : R) : R :=
  let dec1Rad := toRadians dec1 in
  let dec2Rad := toRadians dec2 in
  let dRa := toRadians (ra2 - ra1) in
  let dDec := dec2Rad - dec1Rad in
  let a := sin (dDec / 2) ^ 2 +
           cos dec1Rad * cos dec2Rad * sin (dRa / 2) ^ 2 in
  toDegrees (2 * asin (sqrt a)).

(** *** Moon *)







(** *** Planets, further methods *)

(** The keys of the loops over the planets. *)
Definition planet_names : list string :=
  [ "mercury"; "venus"; "mars"; "jupiter"; "saturn"; "uranus"; "neptune" ]%string.

(** The returned object, as the list of its properties. *)
Definition calculateAllPlanetPositions (date : Z)
    : list (string * option PlanetPosition) :=
  map (fun planetName => (planetName, calculatePlanetPosition planetName date))
      planet_names.

(** A number or [Infinity]. *)
Inductive Extended : Type :=
| Finite (x : R)
| Infinity.

(** [PLANETS.earth]. *)
Definition earth_siderealPeriod : R :=
  match lookup "earth"%string PLANETS with
  | Some earth => siderealPeriod earth
  | None => 0
  end.

(** [1 / 0] is [Infinity], and so is its absolute value. *)
Definition calculateSynodicPeriod (planetName : string) : option Extended :=
  match lookup (toLowerCase planetName) PLANETS with
  | None => None
  | Some planet =>
    if Req_dec_T (siderealPeriod planet) 0 then None
    else
      let P1 := earth_siderealPeriod in
      let P2 := siderealPeriod planet in
      if Req_dec_T (1 / P1 - 1 / P2) 0 then Some Infinity
      else Some (Finite (Rabs (1 / (1 / P1 - 1 / P2))))
  end.

Record GreatestElongation : Type := {
  ge_date : Z;
  ge_elongation : R;
  ge_type : string
}.

(** The loop of [calculateGreatestElongation]: [n] bounds the remaining
    iterations, [day] is the loop counter, [maxDate] is [null] ([None]) or
    the copy of a date.  An Invalid Date gives [NaN] positions, for which
    no test succeeds, and stays invalid.  The result is the final
    [maxElong] and [maxDate]. *)
Fixpoint elongation_search (n : nat) (planetName : string) (type : string)
    (maxDays : R) (day : Z) (date : Date) (maxElong : R)
    (maxDate : option Z) : R * option Z :=
  match n with
  | O => (maxElong, maxDate)
  | S n' =>
    if lt (IZR day) maxDays then
      match date with
      | InvalidDate =>
        elongation_search n' planetName type maxDays (day + 1) date
                          maxElong maxDate
      | ValidDate t =>
        match calculatePlanetPosition planetName t with
        | None =>
          elongation_search n' planetName type maxDays (day + 1) date
                            maxElong maxDate
        | Some pos =>
          let sunPos := approximateSunPosition t in
          let raDiff := normalizeAngleSigned (p_ra pos - sun_ra sunPos) in
          let isEastern := lt 0 raDiff in
          let '(maxElong, maxDate) :=
            if (String.eqb type "eastern" && isEastern) ||
               (String.eqb type "western" && negb isEastern)
            then
              if lt maxElong (p_elongation pos)
              then (p_elongation pos, Some t)
              else (maxElong, maxDate)
            else (maxElong, maxDate) in
          if (match maxDate with Some _ => true | None => false end) &&
             lt (p_elongation pos) (maxElong - 2)
          then (maxElong, maxDate)
          else elongation_search n' planetName type maxDays (day + 1)
                                 (new_Date (IZR t + 86400000))
                                 maxElong maxDate
        end
      end
    else (maxElong, maxDate)
  end.

(** A [null] synodic period multiplies to [0]. *)
Definition calculateGreatestElongation
    (planetName : string) (startDate : Z) (type : string)
    : option GreatestElongation :=
  match lookup (toLowerCase planetName) PLANETS with
  | None => None
  | Some planet =>
    if lt (a planet) 1 then
      let maxDays :=
        match synodicPeriod planet with
        | Some p => p * 1.5
        | None => 0
        end in
      match elongation_search (Z.to_nat (Zceil maxDays)) planetName type
                              maxDays 0 (ValidDate startDate) 0 None with
      | (maxElong, Some maxDate) =>
        Some {| ge_date := maxDate; ge_elongation := maxElong;
                ge_type := type |}
      | (_, None) => None
      end
    else None
  end.











(** *** Bortle scale, further methods *)

Definition sqmToBortle (sqm : R) : Z :=
  if Rle_dec 21.99 sqm then 1
  else if Rle_dec 21.89 sqm then 2
  else if Rle_dec 21.69 sqm then 3
  else if Rle_dec 21.25 sqm then 4
  else if Rle_dec 20.49 sqm then 5
  else if Rle_dec 19.50 sqm then 6
  else if Rle_dec 18.94 sqm then 7
  else if Rle_dec 18.38 sqm then 8
  else 9.

End Astronomy.

(** ** astronomy.js, scoring on numbers that may be [NaN]

    [calculateVisibilityScore] once more, statement by statement, for an
    altitude and a limiting magnitude that may be [NaN]:
    [rankObjectsByVisibility] hands over the altitude of
    [raDecToAltAz], which is [NaN] when a coordinate of the object
    is. *)

Module AstronomyNaN.
Import JS Astronomy.
Local Open Scope R_scope.

Definition calculateVisibilityScore
    (obj : CatalogObject) (altitude limitingMag : Number) : Number :=
  if Number_lt altitude (Num 0) then Num 0
  else
    let score := Num 0 in
    let score :=
      if Number_lt altitude (Num 15) then
        Number_add score (Number_mul altitude (Num 1.5))
      else if Number_lt altitude (Num 30) then
        Number_add score
          (Number_add (Num 22.5)
             (Number_mul (Number_sub altitude (Num 15)) (Num 1.0)))
      else if Number_lt altitude (Num 70) then
        Number_add score
          (Number_add (Num 37.5)
             (Number_mul (Number_sub altitude (Num 30)) (Num 0.3125)))
      else
        Number_add score
          (Number_sub (Num 50)
             (Number_mul (Number_sub altitude (Num 70)) (Num 0.5))) in
    let magDiff := Number_sub limitingMag (magnitude obj) in
    let score :=
      if Number_lt magDiff (Num (-2)) then Number_add score (Num 0)
      else if Number_lt magDiff (Num 0) then
        Number_add score (Number_mul (Number_add magDiff (Num 2)) (Num 5))
      else if Number_lt magDiff (Num 3) then
        Number_add score (Number_add (Num 10) (Number_mul magDiff (Num 6.67)))
      else Number_add score (Num 30) in
    let score :=
      match size obj with
      | Some parsed =>
        let sizeArcmin := Number_or_zero parsed in
        if Number_lt (Num 5) sizeArcmin then
          Number_add score
            (Number_min (Num 20) (Number_div sizeArcmin (Num 3)))
        else score
      | None => score
      end in
    Number_min (Num 100) (Number_max (Num 0) (Number_round score)).

End AstronomyNaN.


(** ** The two coordinate transforms in binary64

    [+], [-], [*], [/] and the comparisons are the IEEE-754 operations of
    [PrimFloat].  The trigonometric functions and the remainder operator
    are not among the primitives: they are taken from the platform, as a
    record. *)

Module IEEE.
Import Floats.
Local Open Scope float_scope.

Record Platform : Type := {
  Math_sin : float -> float;
  Math_cos : float -> float;
  Math_asin : float -> float;
  Math_acos : float -> float;
  (** the [%] operator *)
  rem : float -> float -> float
}.

(** What ECMA-262 (21.3.2 and 6.1.6.1.6) fixes of these functions on the
    arguments met below: [Math.asin(x)] is [NaN] when [x > 1] or [x] is
    [NaN], [Math.acos(NaN)], [Math.cos(NaN)] and [NaN % y] are [NaN]. *)
Record conforming (p : Platform) : Prop := {
  asin_above_one : forall x, (1 <? x) = true -> Math_asin p x = nan;
  asin_nan : Math_asin p nan = nan;
  acos_nan : Math_acos p nan = nan;
  cos_nan : Math_cos p nan = nan;
  rem_nan : forall y, rem p nan y = nan
}.

(** [Math.max] and [Math.min] on two numbers: [NaN] if either is [NaN];
    [+0] is larger than [-0]. *)
Definition Math_max (x y : float) : float :=
  if is_nan x || is_nan y then nan
  else if x <? y then y
  else if y <? x then x
  else if get_sign x then y else x.

Definition Math_min (x y : float) : float :=
  if is_nan x || is_nan y then nan
  else if x <? y then x
  else if y <? x then y
  else if get_sign x then x else y.

Definition Math_PI : float := 0x1.921fb54442d18p+1.
Definition DEG_TO_RAD : float := Math_PI / 180.
Definition RAD_TO_DEG : float := 180 / Math_PI.

Definition toRadians (degrees : float) : float := degrees * DEG_TO_RAD.
Definition toDegrees (radians : float) : float := radians * RAD_TO_DEG.

Section Transforms.
Variable p : Platform.

Definition normalizeAngle (angle : float) : float :=
  let angle := rem p angle 360 in
  if angle <? 0 then angle + 360 else angle.

Record AltAz : Type := { altitude : float; azimuth : float }.
Record RaDec : Type := { ra : float; dec : float }.

(** The argument [raDecToAltAz] hands to [Math.asin]. *)
Definition sinAlt (ra dec lat lst : float) : float :=
  let ha := toRadians (lst - ra) in
  let decRad := toRadians dec in
  let latRad := toRadians lat in
  Math_sin p decRad * Math_sin p latRad +
  Math_cos p decRad * Math_cos p latRad * Math_cos p ha.

Definition raDecToAltAz (ra dec lat lst : float) : AltAz :=
  let ha := toRadians (lst - ra) in
  let decRad := toRadians dec in
  let latRad := toRadians lat in
  let sinAlt := Math_sin p decRad * Math_sin p latRad +
                Math_cos p decRad * Math_cos p latRad * Math_cos p ha in
  let altitude := toDegrees (Math_asin p sinAlt) in
  let cosAz := (Math_sin p decRad - Math_sin p latRad * sinAlt) /
               (Math_cos p latRad * Math_cos p (Math_asin p sinAlt)) in
  let azimuth := toDegrees (Math_acos p (Math_max (-1) (Math_min 1 cosAz))) in
  let azimuth := if 0 <? Math_sin p ha then 360 - azimuth else azimuth in
  {| altitude := altitude; azimuth := azimuth |}.

(** The argument [altAzToRaDec] hands to [Math.asin]. *)
Definition sinDec (alt az lat : float) : float :=
  let altRad := toRadians alt in
  let azRad := toRadians az in
  let latRad := toRadians lat in
  Math_sin p altRad * Math_sin p latRad +
  Math_cos p altRad * Math_cos p latRad * Math_cos p azRad.

Definition altAzToRaDec (alt az lat lst : float) : RaDec :=
  let altRad := toRadians alt in
  let azRad := toRadians az in
  let latRad := toRadians lat in
  let sinDec := Math_sin p altRad * Math_sin p latRad +
                Math_cos p altRad * Math_cos p latRad * Math_cos p azRad in
  let dec := toDegrees (Math_asin p sinDec) in
  let cosH := (Math_sin p altRad - Math_sin p latRad * sinDec) /
              (Math_cos p latRad * Math_cos p (Math_asin p sinDec)) in
  let ha := toDegrees (Math_acos p (Math_max (-1) (Math_min 1 cosH))) in
  let ha := if 0 <? Math_sin p azRad then 360 - ha else ha in
  let ra := normalizeAngle (lst - ha) in
  {| ra := ra; dec := dec |}.

End Transforms.

(** A platform given by a table: the correctly rounded sine and cosine at
    the two arguments an object at the zenith of latitude 8 degrees leads
    to ([0] and [8 * DEG_TO_RAD]), the ECMA-262 values outside the domain
    and on [NaN], [x % y = x] for [0 <= x < y], and [NaN] elsewhere. *)
Definition zenith8_platform : Platform :=
  {| Math_sin := fun x =>
       if x =? 0 then 0
       else if x =? 8 * DEG_TO_RAD then 0x1.1d06c968d9e19p-3 else nan;
     Math_cos := fun x =>
       if x =? 0 then 1
       else if x =? 8 * DEG_TO_RAD then 0x1.fb046a930947ap-1 else nan;
     Math_asin := fun x =>
       if is_nan x || (1 <? x) || (x <? -1) then nan
       else if x =? 1 then Math_PI / 2 else nan;
     Math_acos := fun x =>
       if is_nan x || (1 <? x) || (x <? -1) then nan
       else if x =? 1 then 0 else nan;
     rem := fun x y =>
       if is_nan x || is_nan y then nan
       else if (0 <=? x) && (x <? y) then x else nan |}.

End IEEE.


(** * Notions used in the statements *)

(** ** Julian dates *)

Section JulianNotions.
Import JSDate AstronomyQ.
Local Open Scope Z_scope.

(** The integer skeletons of [dateToJulian] and [julianToDate]: the Julian
    day number of a civil date, and the civil date of a Julian day number. *)
Definition jdn_of_civil (y m d : Z) : Z :=
  let jy := if m <=? 2 then y - 1 else y in
  let jm := if m <=? 2 then m + 12 else m in
  let a := jy / 100 in
  let b := 2 - a + a / 4 in
  (36525 * (jy + 4716)) / 100 + (306001 * (jm + 1)) / 10000 + d + b - 1524.

Definition civil_of_jdn (z : Z) : Z * Z * Z :=
  let a :=
    if 2299161 <=? z then
      let alpha := (100 * z - 186721625) / 3652425 in
      z + 1 + alpha - alpha / 4
    else z in
  let b := a + 1524 in
  let c := (100 * b - 12210) / 36525 in
  let d := (36525 * c) / 100 in
  let e := (10000 * (b - d)) / 306001 in
  let month := if e <? 14 then e - 1 else e - 13 in
  let year := if 2 <? month then c - 4716 else c - 4715 in
  (year, month, b - d - (306001 * e) / 10000).

(** The proleptic Gregorian day count of the years before March 1 of year
    [jy], up to a constant. *)
Definition march_days (jy : Z) : Z := 365 * jy + jy / 4 - jy / 100 + jy / 400.

(** A day number in March-based form: the year [jy] starting on March 1,
    the month [jm] in 3..14, and the day [s] within that year, from 1. *)
Record march_form (day jy jm d s : Z) : Prop := {
  mf_month : 3 <= jm <= 14;
  mf_date : 1 <= d <= (306001 * (jm + 2)) / 10000 - (306001 * (jm + 1)) / 10000;
  mf_s : s = (306001 * (jm + 1)) / 10000 - 122 + d;
  mf_range : 1 <= s <= 366;
  mf_leap : s = 366 ->
            (jy + 1) mod 4 = 0 /\ ((jy + 1) mod 100 <> 0 \/ (jy + 1) mod 400 = 0);
  mf_day : day = march_days jy - 719468 + s - 1
}.

(** The round trip of the specification: [julianToDate (dateToJulian I)] is
    a valid date within one second of [I]. *)
Definition roundtrip_within_second (t : Z) : Prop :=
  exists t' : Z,
    julianToDate (dateToJulian t) = ValidDate t' /\ Z.abs (t' - t) <= 1000.

End JulianNotions.

(** ** Rise, transit, set and twilight *)

Section RiseSetNotions.
Import JSDate JS Astronomy.
Local Open Scope R_scope.

(** The hour-angle cosine [cosH] of [calculateRiseTransitSet] and
    [calculateSunRiseSet]. *)
Definition cosHourAngle (dec lat horizonAngle : R) : R :=
  (sin (toRadians horizonAngle) - sin (toRadians lat) * sin (toRadians dec)) /
  (cos (toRadians lat) * cos (toRadians dec)).

(** The offset of rise and set from transit, in milliseconds, as
    [calculateRiseTransitSet] computes it: [H / 15] hours. *)
Definition riseOffset (dec lat horizonAngle : R) : R :=
  toDegrees (acos (cosHourAngle dec lat horizonAngle)) / HOURS_TO_DEG * 3600000.

(** The same offset divided by the sidereal-to-solar ratio, as the
    specification words it. *)
Definition riseOffset_solar (dec lat horizonAngle : R) : R :=
  riseOffset dec lat horizonAngle / SIDEREAL_RATIO.

(** The dates the statement on twilight ranges over: 2000-01-01 and the
    100000 days after it. *)
Definition in_window (t : Z) : Prop :=
  (946684800000 <= t <= 9586684800000)%Z.

End RiseSetNotions.

(** ** Ranking *)

Section RankingNotions.
Import JS Astronomy.

(** A list in descending order of [key]. *)
Definition descending {A : Type} (key : A -> Z) : list A -> Prop :=
  StronglySorted (fun x y => (key y <= key x)%Z).

(** The score of an entry that has one. *)
Definition score_of (e : Ranked) : Z :=
  match visibilityScore e with
  | Some s => s
  | None => 0%Z
  end.

(** What the filter lets through: an altitude above 0 and a score. *)
Definition above_horizon (e : Ranked) : Prop :=
  (exists a : R, currentAltitude e = Some a /\ (0 < a)%R) /\
  (exists s : Z, visibilityScore e = Some s).

End RankingNotions.

(** ** Decimal coordinate texts *)

Section ParseNotions.
Import Coordinates.
Local Open Scope string_scope.

Fixpoint all_chars (p : ascii -> bool) (s : string) : bool :=
  match s with
  | EmptyString => true
  | String c r => p c && all_chars p r
  end.

(** A string of decimal digits. *)
Definition digits (s : string) : bool := all_chars is_digit s.

(** The text of an optional fraction and of an optional degree sign. *)
Definition frac_text (frac : option string) : string :=
  match frac with
  | Some fs => "." ++ fs
  | None => ""
  end.

Definition deg_text (deg : bool) : string :=
  if deg then String (ascii_of_nat 194) (String (ascii_of_nat 176) "") else "".

Definition not_space (c : ascii) : bool := negb (is_space c).

(** The three signs a decimal coordinate may start with. *)
Definition is_sign_text (sign : string) : Prop :=
  sign = "" \/ sign = "+" \/ sign = "-".

End ParseNotions.

(** ** Kepler's equation *)

Section KeplerNotions.
Import JS Astronomy.
Local Open Scope R_scope.

(** The correction [dE] of one pass of the loop of
    [calculateHeliocentricPosition], from the current [E]. *)
Definition kepler_dE (ecc M E : R) : R :=
  (M - E + toDegrees (ecc * sin (toRadians E))) / (1 - ecc * cos (toRadians E)).

(** Whether the loop is left through [break] in one of [n] passes. *)
Fixpoint kepler_breaks (n : nat) (ecc M E : R) : bool :=
  match n with
  | O => false
  | S n' =>
    let dE := kepler_dE ecc M E in
    if lt (Rabs dE) 0.0001 then true else kepler_breaks n' ecc M (E + dE)
  end.

(** The value of [E] the loop starts from. *)
Definition kepler_start (ecc M : R) : R :=
  M + toDegrees ecc * sin (toRadians M).

(** Kepler's function in radians, and the Newton step on it. *)
Definition kepler_g (e m x : R) : R := x - e * sin x - m.

Definition newton_step (e m x : R) : R :=
  (m - x + e * sin x) / (1 - e * cos x).

(** Distances to the root from which [j] squarings, each with the factor
    1.0326, lead under the threshold of the loop. *)
Definition error_bound (j : nat) : R :=
  match j with
  | 0%nat => 0.0000016
  | 1%nat => 0.0012
  | 2%nat => 0.034
  | 3%nat => 0.18
  | 4%nat => 0.41
  | 5%nat => 0.63
  | 6%nat => 0.78
  | 7%nat => 0.869
  | 8%nat => 0.917
  | _ => 0
  end.

End KeplerNotions.

(** ** Proof steps *)

(** Linear arithmetic with floor divisions and remainders. *)
Ltac zdiv := Z.div_mod_to_equations; lia.

(** Case analysis on the integer tests of a conditional. *)
Ltac split_tests :=
  repeat (match goal with
          | |- context [if ?a <? ?b then _ else _] => destruct (Z.ltb_spec a b)
          | |- context [if ?a <=? ?b then _ else _] => destruct (Z.leb_spec a b)
          | |- context [if ?a =? ?b then _ else _] => destruct (Z.eqb_spec a b)
          end; try (exfalso; lia)).


(** * Notions used in the further facts *)

Section TransitNotions.
Import JSDate JS Astronomy.
Local Open Scope R_scope.

(** The polynomial [gmst] reduces to one turn. *)
Definition gmst_polynomial (jd : R) : R :=
  let d := jd - J2000 in
  let t := d / JULIAN_CENTURY in
  GMST_AT_J2000 + GMST_RATE * d + 0.000387933 * t * t - t * t * t / 38710000.

End TransitNotions.

Section PlanetNotions.
Import JSDate JS Astronomy.
Local Open Scope R_scope.

(** The years the elements of [PLANETS] are given for, 1800 to 2050, as
    time values. *)
Definition ephemeris_window (t : Z) : Prop :=
  (-5364662400000 <= t <= 2524608000000)%Z.

(** What is left of Kepler's equation [M = E - e sin E] at [E], in
    degrees. *)
Definition kepler_residual (ecc M E : R) : R :=
  M - E + toDegrees (ecc * sin (toRadians E)).

(** The dates a search loop can hold after [day] rounds from [start]: an
    Invalid Date, or [start] plus at most [day] whole days. *)
Definition search_date (start day : Z) (date : Date) : Prop :=
  date = InvalidDate \/
  exists j : Z, (0 <= j <= day)%Z /\ date = ValidDate (start + j * 86400000).

(** What a date returned by the loop of [calculateNextPlanetaryEvent]
    satisfies. *)
Definition event_found (planetName : string) (opposition : bool)
    (targetElong maxDays : R) (start : Z) (d : Date) : Prop :=
  exists (k : Z) (pos nextPos : PlanetPosition),
    (0 <= k)%Z /\ IZR k < maxDays /\
    d = ValidDate (start + k * 86400000) /\
    calculatePlanetPosition planetName (start + k * 86400000) = Some pos /\
    calculatePlanetPosition planetName (start + (k + 1) * 86400000) =
      Some nextPos /\
    Rabs (p_elongation pos - targetElong) < 1 /\
    (if opposition
     then p_elongation nextPos < p_elongation pos
     else p_elongation pos < p_elongation nextPos).

(** The test of [calculateGreatestElongation] on the side of the Sun the
    planet is on: the requested [type] against the sign of the difference
    in right ascension. *)
Definition elongation_side (type : string) (pos : PlanetPosition) (t : Z)
    : bool :=
  let sunPos := approximateSunPosition t in
  let raDiff := normalizeAngleSigned (p_ra pos - sun_ra sunPos) in
  let isEastern := lt 0 raDiff in
  (String.eqb type "eastern" && isEastern) ||
  (String.eqb type "western" && negb isEastern).

(** The state of the loop of [calculateGreatestElongation] once the days
    [0 .. J - 1] after [start] have been looked at: [maxElong] bounds the
    elongation of those days on the requested side, and [maxDate], if
    set, is one of those days, on that side, with elongation [maxElong]. *)
Definition elongation_state (planetName type : string) (maxDays : R)
    (start J : Z) (maxElong : R) (maxDate : option Z) : Prop :=
  0 <= maxElong /\
  (forall (i : Z) (pos : PlanetPosition),
     (0 <= i < J)%Z ->
     calculatePlanetPosition planetName (start + i * 86400000) = Some pos ->
     elongation_side type pos (start + i * 86400000) = true ->
     p_elongation pos <= maxElong) /\
  match maxDate with
  | None => True
  | Some t =>
    exists (k : Z) (pos : PlanetPosition),
      (0 <= k < J)%Z /\ IZR k < maxDays /\
      t = (start + k * 86400000)%Z /\
      calculatePlanetPosition planetName t = Some pos /\
      maxElong = p_elongation pos /\ 0 < maxElong /\
      elongation_side type pos t = true
  end.



End PlanetNotions.


(** * Facts about the rational part *)

Section JulianFacts.
Import JSDate AstronomyQ.
Local Open Scope Z_scope.

Lemma Qfloor_unique (x : Q) (k : Z) :
  (inject_Z k <= x)%Q -> (x < inject_Z (k + 1))%Q -> Qfloor x = k.
Proof.
  intros Hlo Hhi.
  assert (H1 : (inject_Z (Qfloor x) <= x)%Q) by apply Qfloor_le.
  assert (H2 : (x < inject_Z (Qfloor x + 1))%Q) by apply Qlt_floor.
  assert (H3 : (inject_Z k < inject_Z (Qfloor x + 1))%Q)
    by (eapply Qle_lt_trans; eassumption).
  assert (H4 : (inject_Z (Qfloor x) < inject_Z (k + 1))%Q)
    by (eapply Qle_lt_trans; eassumption).
  rewrite <- Zlt_Qlt in H3, H4. lia.
Qed.

Lemma floor_365_25 (n : Z) :
  Math_floor (365.25 * inject_Z n) = (36525 * n) / 100.
Proof.
  unfold Math_floor, Qfloor, Qmult, inject_Z; cbn [Qnum Qden].
  change (Z.pos (100 * 1)) with 100. reflexivity.
Qed.

Lemma floor_30_6001 (n : Z) :
  Math_floor (30.6001 * inject_Z n) = (306001 * n) / 10000.
Proof.
  unfold Math_floor, Qfloor, Qmult, inject_Z; cbn [Qnum Qden].
  change (Z.pos (10000 * 1)) with 10000. reflexivity.
Qed.

Lemma floor_div_100 (n : Z) : Math_floor (inject_Z n / 100) = n / 100.
Proof.
  unfold Math_floor, Qfloor, Qdiv, Qmult, Qinv, inject_Z; cbn.
  f_equal; lia.
Qed.

Lemma floor_div_4 (n : Z) : Math_floor (inject_Z n / 4) = n / 4.
Proof.
  unfold Math_floor, Qfloor, Qdiv, Qmult, Qinv, inject_Z; cbn.
  f_equal; lia.
Qed.

Lemma floor_alpha (z : Z) :
  Math_floor ((inject_Z z - 1867216.25) / 36524.25) =
  (100 * z - 186721625) / 3652425.
Proof.
  transitivity ((z * 100 + -186721625) * 100 / 365242500);
    [reflexivity | zdiv].
Qed.

Lemma floor_c (b : Z) :
  Math_floor ((inject_Z b - 122.1) / 365.25) = (100 * b - 12210) / 36525.
Proof.
  transitivity ((b * 10 + -1221) * 100 / 365250); [reflexivity | zdiv].
Qed.

Lemma floor_e (n : Z) :
  Math_floor (inject_Z n / 30.6001) = (10000 * n) / 306001.
Proof.
  transitivity (n * 10000 / 306001); [reflexivity | f_equal; lia].
Qed.

(** *** The calendar of [Date] *)

Lemma DayFromYear_step (y : Z) :
  DayFromYear (y + 1) = DayFromYear y + DaysInYear y.
Proof.
  unfold DayFromYear, DaysInYear.
  destruct (y mod 4 =? 0) eqn:E4; destruct (y mod 100 =? 0) eqn:E100;
    destruct (y mod 400 =? 0) eqn:E400; cbn [negb];
    rewrite ?Z.eqb_eq, ?Z.eqb_neq in *; zdiv.
Qed.

Lemma DaysInYear_cases (y : Z) :
  (DaysInYear y = 365 /\ InLeapYear y = 0 /\
   (y mod 4 <> 0 \/ (y mod 100 = 0 /\ y mod 400 <> 0))) \/
  (DaysInYear y = 366 /\ InLeapYear y = 1 /\
   y mod 4 = 0 /\ (y mod 100 <> 0 \/ y mod 400 = 0)).
Proof.
  unfold InLeapYear, DaysInYear.
  destruct (y mod 4 =? 0) eqn:E4; destruct (y mod 100 =? 0) eqn:E100;
    destruct (y mod 400 =? 0) eqn:E400; cbn [negb];
    rewrite ?Z.eqb_eq, ?Z.eqb_neq in *; lia.
Qed.

Lemma DayFromYear_approx (y : Z) :
  146097 * (y - 1970) - 600 <= 400 * DayFromYear y
    <= 146097 * (y - 1970) + 600.
Proof. unfold DayFromYear. zdiv. Qed.

(** [YearFromDay day] is the year [day] falls in. *)
Lemma YearFromDay_spec (day : Z) :
  DayFromYear (YearFromDay day) <= day < DayFromYear (YearFromDay day + 1).
Proof.
  unfold YearFromDay. cbv zeta.
  set (y := 1970 + 400 * day / 146097).
  assert (Hy : 146097 * (y - 1970) <= 400 * day
                 < 146097 * (y - 1970) + 146097) by (unfold y; zdiv).
  pose proof (DayFromYear_approx (y - 1)) as A0.
  pose proof (DayFromYear_approx y) as A1.
  pose proof (DayFromYear_approx (y + 1)) as A2.
  pose proof (DayFromYear_approx (y + 2)) as A3.
  destruct (DayFromYear (y + 1) <=? day) eqn:E1.
  - apply Z.leb_le in E1. replace (y + 1 + 1) with (y + 2) by lia. lia.
  - apply Z.leb_gt in E1. destruct (day <? DayFromYear y) eqn:E2.
    + apply Z.ltb_lt in E2. replace (y - 1 + 1) with y by lia. lia.
    + apply Z.ltb_ge in E2. lia.
Qed.

Lemma civil_march_form (day : Z) :
  let y := YearFromDay day in
  let m := MonthFromDay day + 1 in
  let d := DateFromDay day in
  1 <= m <= 12 /\
  DayFromYear y + month_start (InLeapYear y) (m - 1) + d - 1 = day /\
  exists s,
    march_form day (if m <=? 2 then y - 1 else y)
               (if m <=? 2 then m + 12 else m) d s.
Proof.
  cbv zeta. unfold DateFromDay, MonthFromDay, month_start. cbv zeta.
  pose proof (YearFromDay_spec day) as Hy.
  set (y := YearFromDay day) in *.
  rewrite DayFromYear_step in Hy.
  set (dy := day - DayFromYear y).
  assert (Hdy : day = DayFromYear y + dy) by (unfold dy; lia).
  assert (HG : DayFromYear y = march_days (y - 1) - 719468 + 306).
  { unfold DayFromYear, march_days. zdiv. }
  assert (HG' : DayFromYear y + 59 + InLeapYear y = march_days y - 719468).
  { destruct (DaysInYear_cases y) as [(E & El & Hc)|(E & El & Hc)];
      rewrite El; unfold DayFromYear, march_days; zdiv. }
  clearbody dy. generalize dependent (DayFromYear y). intros DY Hy Hdy HG HG'.
  destruct (DaysInYear_cases y) as [(E & El & Hc)|(E & El & Hc)];
    rewrite El in *; rewrite E in *; clear E El;
    split_tests;
    (split; [lia|]); (split; [lia|]);
    eexists; (split; [lia | zdiv | reflexivity | zdiv | intros; zdiv | zdiv]).
Qed.

(** *** The two conversions against the calendar of [Date] *)

Lemma jdn_of_civil_value (day y m d s : Z) :
  march_form day (if m <=? 2 then y - 1 else y)
             (if m <=? 2 then m + 12 else m) d s ->
  jdn_of_civil y m d = day + 2440588.
Proof.
  intros [Hm Hd Hs Hr Hl Hday]. unfold jdn_of_civil. cbv zeta.
  set (jy := if m <=? 2 then y - 1 else y) in *.
  set (jm := if m <=? 2 then m + 12 else m) in *.
  rewrite Hday, Hs. unfold march_days. zdiv.
Qed.

Lemma civil_of_jdn_march (jy s : Z) :
  1 <= s <= 366 ->
  (s = 366 ->
   (jy + 1) mod 4 = 0 /\ ((jy + 1) mod 100 <> 0 \/ (jy + 1) mod 400 = 0)) ->
  2299161 <= march_days jy + 1721119 + s ->
  civil_of_jdn (march_days jy + 1721119 + s) =
  let e := (10000 * (122 + s)) / 306001 in
  let month := if e <? 14 then e - 1 else e - 13 in
  (if 2 <? month then jy else jy + 1, month,
   122 + s - (306001 * e) / 10000).
Proof.
  intros Hs Hleap Hz. unfold civil_of_jdn.
  replace (2299161 <=? march_days jy + 1721119 + s) with true
    by (symmetry; apply Z.leb_le; lia).
  set (z := march_days jy + 1721119 + s) in *.
  assert (Halpha : (100 * z - 186721625) / 3652425 = jy / 100 - 4).
  { unfold z, march_days. zdiv. }
  rewrite Halpha.
  assert (Hb : z + 1 + (jy / 100 - 4) - (jy / 100 - 4) / 4 + 1524
               = 365 * jy + jy / 4 + 1722641 + s).
  { unfold z, march_days. zdiv. }
  rewrite Hb.
  assert (Hc : (100 * (365 * jy + jy / 4 + 1722641 + s) - 12210) / 36525
               = jy + 4716) by zdiv.
  rewrite Hc.
  assert (Hd : 36525 * (jy + 4716) / 100 = 365 * jy + jy / 4 + 1722519)
    by zdiv.
  rewrite Hd.
  replace (365 * jy + jy / 4 + 1722641 + s - (365 * jy + jy / 4 + 1722519))
    with (122 + s) by lia.
  cbv zeta.
  destruct (2 <? _); f_equal; f_equal; lia.
Qed.

Lemma civil_of_jdn_value (day y m d s : Z) :
  1 <= m <= 12 ->
  -141427 <= day ->
  march_form day (if m <=? 2 then y - 1 else y)
             (if m <=? 2 then m + 12 else m) d s ->
  civil_of_jdn (day + 2440588) = (y, m, d).
Proof.
  intros Hm12 Hday0 [Hm Hd Hs Hr Hl Hday].
  set (jy := if m <=? 2 then y - 1 else y) in *.
  set (jm := if m <=? 2 then m + 12 else m) in *.
  replace (day + 2440588) with (march_days jy + 1721119 + s) by lia.
  rewrite civil_of_jdn_march by (assumption || lia).
  cbv zeta.
  assert (He : 10000 * (122 + s) / 306001 = jm + 1) by (rewrite Hs; zdiv).
  rewrite He.
  assert (Hday' : 122 + s - 306001 * (jm + 1) / 10000 = d) by lia.
  rewrite Hday'.
  unfold jy, jm. destruct (Z.leb_spec m 2); split_tests;
    f_equal; try f_equal; lia.
Qed.

(** A day number from 1582-10-15 on lies in year 1582 or later. *)
Lemma YearFromDay_gregorian (day : Z) : -141427 <= day -> 1582 <= YearFromDay day.
Proof.
  intros H. pose proof (YearFromDay_spec day) as [_ Hy].
  pose proof (DayFromYear_approx (YearFromDay day + 1)). lia.
Qed.

End JulianFacts.

(** ** The round trip [julianToDate (dateToJulian I)] *)

Section JulianRoundTrip.
Import JSDate AstronomyQ.
Local Open Scope Z_scope.

Lemma Qmake_inject (w : Z) (p : positive) :
  (w # p == inject_Z w / inject_Z (Z.pos p))%Q.
Proof. apply Qmake_Qdiv. Qed.

Lemma inject_Z_mod (w k : Z) :
  k <> 0 ->
  (inject_Z (w mod k) == inject_Z w - inject_Z k * inject_Z (w / k))%Q.
Proof.
  intros Hk. rewrite Z.mod_eq by assumption.
  unfold Z.sub. rewrite inject_Z_plus, inject_Z_opp, inject_Z_mult. reflexivity.
Qed.

Lemma time_fields (t : Z) :
  let w := TimeWithinDay t in
  getUTCHours t = w / 3600000 /\
  getUTCMinutes t = (w mod 3600000) / 60000 /\
  getUTCSeconds t = (w mod 60000) / 1000 /\
  getUTCMilliseconds t = w mod 1000.
Proof.
  unfold TimeWithinDay, getUTCHours, getUTCMinutes, getUTCSeconds,
    getUTCMilliseconds, msPerDay.
  cbv zeta. repeat split; zdiv.
Qed.

Lemma TimeWithinDay_range (t : Z) : 0 <= TimeWithinDay t < 86400000.
Proof. unfold TimeWithinDay, msPerDay. zdiv. Qed.

Lemma Day_decompose (t : Z) : t = Day t * 86400000 + TimeWithinDay t.
Proof. unfold Day, TimeWithinDay, msPerDay. zdiv. Qed.

Lemma dateToJulian_value (t : Z) :
  (dateToJulian t ==
   inject_Z (Day t + 2440588) - (1 # 2) + (TimeWithinDay t # 86400000))%Q.
Proof.
  destruct (civil_march_form (Day t)) as (_ & _ & s & Hmf).
  pose proof (jdn_of_civil_value _ _ _ _ _ Hmf) as Hj.
  destruct (time_fields t) as (HH & HM & HS & Hms).
  unfold dateToJulian, getUTCFullYear, getUTCMonth, getUTCDate.
  set (y := YearFromDay (Day t)) in *.
  set (m := MonthFromDay (Day t) + 1) in *.
  set (d := DateFromDay (Day t)) in *.
  cbv zeta.
  rewrite HH, HM, HS, Hms.
  rewrite floor_365_25, floor_30_6001, floor_div_100, floor_div_4.
  rewrite <- Hj. unfold jdn_of_civil.
  set (w := TimeWithinDay t).
  set (A := 36525 * _ / 100). set (B := 306001 * _ / 10000).
  set (C := 2 - _ + _).
  assert (Hw : w = w / 3600000 * 3600000 + w mod 3600000 / 60000 * 60000 +
               w mod 60000 / 1000 * 1000 + w mod 1000) by zdiv.
  set (hh := w / 3600000) in *. set (mm := w mod 3600000 / 60000) in *.
  set (ss := w mod 60000 / 1000) in *. set (ms := w mod 1000) in *.
  rewrite (Qmake_inject w 86400000), Hw.
  replace (A + B + d + C - 1524) with (A + B + d + C + -1524) by lia.
  rewrite !inject_Z_plus, !inject_Z_mult.
  change (inject_Z 3600000) with 3600000%Q.
  change (inject_Z 60000) with 60000%Q.
  change (inject_Z 1000) with 1000%Q.
  change (inject_Z (Z.pos 86400000)) with 86400000%Q.
  change (inject_Z (-1524)) with (-1524)%Q.
  field.
Qed.

Lemma floor_inject_scaled (x : Q) (w : Z) (p : positive) :
  (x == inject_Z w * (1 # p))%Q -> Math_floor x = w / Z.pos p.
Proof.
  intros H. unfold Math_floor. rewrite H.
  unfold Qfloor, Qmult, inject_Z; cbn [Qnum Qden].
  rewrite Z.mul_1_r. reflexivity.
Qed.

(** [julianToDate] read in two stages: the calendar date of the day number,
    then the time of day. *)
Lemma julianToDate_staged (jd : Q) :
  julianToDate jd =
  let z := Math_floor (jd + 0.5) in
  let f := (jd + 0.5 - inject_Z z)%Q in
  let '(year, month, dint) := civil_of_jdn z in
  let day := (inject_Z dint + f)%Q in
  let dayFrac := (day - inject_Z (Math_floor day))%Q in
  let hours := (dayFrac * 24)%Q in
  let mins := ((hours - inject_Z (Math_floor hours)) * 60)%Q in
  let secs := ((mins - inject_Z (Math_floor mins)) * 60)%Q in
  Date_UTC year (month - 1) (Math_floor day)
           (Math_floor hours) (Math_floor mins) (Math_floor secs).
Proof.
  unfold julianToDate, civil_of_jdn. cbv zeta.
  rewrite floor_alpha, floor_div_4.
  rewrite !floor_c, !floor_365_25, !floor_e, !floor_30_6001.
  reflexivity.
Qed.

Lemma julianToDate_value (jd : Q) (Zj w : Z) :
  0 <= w < 86400000 ->
  (jd == inject_Z Zj - (1 # 2) + (w # 86400000))%Q ->
  julianToDate jd =
  let '(y, m, d) := civil_of_jdn Zj in
  Date_UTC y (m - 1) d
           (w / 3600000) ((w mod 3600000) / 60000) ((w mod 60000) / 1000).
Proof.
  intros Hw Hjd.
  assert (HW0 : (0 <= inject_Z w)%Q) by (rewrite <- (Zle_Qle 0); lia).
  assert (HW1 : (inject_Z w < 86400000)%Q)
    by (change 86400000%Q with (inject_Z 86400000); rewrite <- Zlt_Qlt; lia).
  assert (Hf : (jd + 0.5 - inject_Z Zj == inject_Z w * (1 # 86400000))%Q).
  { rewrite Hjd, (Qmake_inject w 86400000).
    change (inject_Z (Z.pos 86400000)) with 86400000%Q. field. }
  assert (Hz : Math_floor (jd + 0.5) = Zj).
  { apply Qfloor_unique; [|rewrite inject_Z_plus; change (inject_Z 1) with 1%Q];
      Lqa.lra. }
  rewrite julianToDate_staged. cbv zeta. rewrite Hz.
  destruct (civil_of_jdn Zj) as [[y m] d].
  set (f := (jd + 0.5 - inject_Z Zj)%Q) in *.
  assert (Hd : Math_floor (inject_Z d + f) = d).
  { apply Qfloor_unique; [|rewrite inject_Z_plus; change (inject_Z 1) with 1%Q];
      Lqa.lra. }
  rewrite Hd.
  assert (Hh : Math_floor ((inject_Z d + f - inject_Z d) * 24) = w / 3600000).
  { apply (floor_inject_scaled _ w 3600000). Lqa.lra. }
  rewrite Hh.
  pose proof (inject_Z_mod w 3600000 ltac:(lia)) as E1.
  change (inject_Z 3600000) with 3600000%Q in E1.
  assert (Hm : Math_floor (((inject_Z d + f - inject_Z d) * 24 -
                            inject_Z (w / 3600000)) * 60) =
               (w mod 3600000) / 60000).
  { apply (floor_inject_scaled _ (w mod 3600000) 60000). Lqa.lra. }
  rewrite Hm.
  pose proof (inject_Z_mod (w mod 3600000) 60000 ltac:(lia)) as E2.
  change (inject_Z 60000) with 60000%Q in E2.
  replace ((w mod 3600000) mod 60000) with (w mod 60000) in E2 by zdiv.
  assert (Hs : Math_floor ((((inject_Z d + f - inject_Z d) * 24 -
                             inject_Z (w / 3600000)) * 60 -
                            inject_Z (w mod 3600000 / 60000)) * 60) =
               (w mod 60000) / 1000).
  { apply (floor_inject_scaled _ (w mod 60000) 1000). Lqa.lra. }
  rewrite Hs. reflexivity.
Qed.

Lemma julian_roundtrip_value (t : Z) :
  -12219292800000 <= t <= maxTime ->
  julianToDate (dateToJulian t) = ValidDate (t - t mod 1000).
Proof.
  intros [Hlo Hhi]. unfold maxTime in Hhi.
  pose proof (TimeWithinDay_range t) as Hw.
  rewrite (julianToDate_value _ (Day t + 2440588) (TimeWithinDay t) Hw
             (dateToJulian_value t)).
  assert (Hn : -141427 <= Day t) by (unfold Day, msPerDay; zdiv).
  destruct (civil_march_form (Day t)) as (Hm & Hday & s & Hmf).
  rewrite (civil_of_jdn_value _ _ _ _ _ Hm Hn Hmf).
  pose proof (YearFromDay_gregorian _ Hn) as Hy.
  set (y := YearFromDay (Day t)) in *.
  set (m := MonthFromDay (Day t) + 1) in *.
  set (d := DateFromDay (Day t)) in *.
  unfold Date_UTC, MakeDay, MakeDate, MakeTime.
  replace ((0 <=? y) && (y <=? 99)) with false
    by (symmetry; apply andb_false_iff; right; apply Z.leb_gt; lia).
  replace ((m - 1) / 12) with 0 by zdiv.
  replace ((m - 1) mod 12) with (m - 1) by zdiv.
  rewrite Z.add_0_r, Hday.
  set (w := TimeWithinDay t) in *.
  replace (Day t * msPerDay +
           (w / 3600000 * 3600000 + w mod 3600000 / 60000 * 60000 +
            w mod 60000 / 1000 * 1000 + 0))
    with (t - t mod 1000).
  2:{ pose proof (Day_decompose t) as Ht. fold w in Ht.
      unfold msPerDay. zdiv. }
  unfold TimeClip, maxTime.
  replace (Z.abs (t - t mod 1000) <=? 8640000000000000) with true; [reflexivity|].
  symmetry; apply Z.leb_le. zdiv.
Qed.

(** The floor of a rational scaled down by a whole number. *)
Lemma floor_rational_scaled (x w : Q) (p : positive) :
  (x == w * (1 # p))%Q -> Math_floor x = Qfloor w / Z.pos p.
Proof.
  intros H. unfold Math_floor. rewrite H. destruct w as [a b].
  unfold Qfloor, Qmult; cbn [Qnum Qden].
  rewrite Z.mul_1_r, Pos2Z.inj_mul, Z.div_div by lia. reflexivity.
Qed.

Lemma Qfloor_shift (w : Q) (k : Z) : Qfloor (w - inject_Z k) = Qfloor w - k.
Proof.
  pose proof (Qfloor_le w) as H1. pose proof (Qlt_floor w) as H2.
  rewrite inject_Z_plus in H2. change (inject_Z 1) with 1%Q in H2.
  apply Qfloor_unique.
  - unfold Z.sub. rewrite inject_Z_plus, inject_Z_opp. Lqa.lra.
  - replace (Qfloor w - k + 1) with (Qfloor w + 1 + - k) by lia.
    rewrite !inject_Z_plus, inject_Z_opp. change (inject_Z 1) with 1%Q.
    Lqa.lra.
Qed.

(** [julianToDate] on a Julian date whose time of day [w], in
    milliseconds, is any rational: the fields are those of the whole
    milliseconds [Qfloor w]. *)
Lemma julianToDate_value_rational (jd : Q) (Zj : Z) (w : Q) :
  (0 <= w)%Q -> (w < 86400000)%Q ->
  (jd == inject_Z Zj - (1 # 2) + w * (1 # 86400000))%Q ->
  julianToDate jd =
  let W := Qfloor w in
  let '(y, m, d) := civil_of_jdn Zj in
  Date_UTC y (m - 1) d
           (W / 3600000) ((W mod 3600000) / 60000) ((W mod 60000) / 1000).
Proof.
  intros HW0 HW1 Hjd. cbv zeta.
  assert (Hf : (jd + 0.5 - inject_Z Zj == w * (1 # 86400000))%Q)
    by (rewrite Hjd; Lqa.lra).
  assert (Hz : Math_floor (jd + 0.5) = Zj).
  { apply Qfloor_unique; [|rewrite inject_Z_plus; change (inject_Z 1) with 1%Q];
      Lqa.lra. }
  rewrite julianToDate_staged. cbv zeta. rewrite Hz.
  destruct (civil_of_jdn Zj) as [[y m] d].
  set (f := (jd + 0.5 - inject_Z Zj)%Q) in *.
  assert (Hd : Math_floor (inject_Z d + f) = d).
  { apply Qfloor_unique; [|rewrite inject_Z_plus; change (inject_Z 1) with 1%Q];
      Lqa.lra. }
  rewrite Hd.
  set (W := Qfloor w).
  assert (Hh : Math_floor ((inject_Z d + f - inject_Z d) * 24) = W / 3600000).
  { apply (floor_rational_scaled _ w 3600000). Lqa.lra. }
  rewrite Hh.
  assert (Hm : Math_floor (((inject_Z d + f - inject_Z d) * 24 -
                            inject_Z (W / 3600000)) * 60) =
               (W mod 3600000) / 60000).
  { rewrite (floor_rational_scaled _
               (w - inject_Z (3600000 * (W / 3600000))) 60000).
    - rewrite Qfloor_shift. fold W. f_equal. zdiv.
    - rewrite inject_Z_mult. change (inject_Z 3600000) with 3600000%Q.
      Lqa.lra. }
  rewrite Hm.
  assert (Hs : Math_floor ((((inject_Z d + f - inject_Z d) * 24 -
                             inject_Z (W / 3600000)) * 60 -
                            inject_Z (W mod 3600000 / 60000)) * 60) =
               (W mod 60000) / 1000).
  { rewrite (floor_rational_scaled _
               (w - inject_Z (3600000 * (W / 3600000) +
                              60000 * (W mod 3600000 / 60000))) 1000).
    - rewrite Qfloor_shift. fold W. f_equal. zdiv.
    - rewrite inject_Z_plus, !inject_Z_mult.
      change (inject_Z 3600000) with 3600000%Q.
      change (inject_Z 60000) with 60000%Q.
      Lqa.lra. }
  rewrite Hs. reflexivity.
Qed.

(** [dateToJulian] is the time value in days plus 2440587.5. *)
Lemma dateToJulian_in_days (t : Z) :
  (dateToJulian t == inject_Z t * (1 # 86400000) + 2440587.5)%Q.
Proof.
  rewrite dateToJulian_value, (Qmake_inject (TimeWithinDay t) 86400000).
  rewrite (Day_decompose t) at 3.
  rewrite !inject_Z_plus, inject_Z_mult.
  change (inject_Z (Z.pos 86400000)) with 86400000%Q.
  change (inject_Z 86400000) with 86400000%Q.
  change (inject_Z 2440588) with 2440588%Q.
  field.
Qed.

(** A Julian date off by less than a millisecond is read by
    [julianToDate] as the exact Julian date of the millisecond at or just
    before the instant. *)
Lemma julianToDate_near (t : Z) (err : Q) :
  (Qabs err < 1 # 86400000)%Q ->
  exists T : Z,
    t - 1 <= T <= t /\
    (inject_Z t + err * 86400000 < inject_Z T + 1)%Q /\
    julianToDate (dateToJulian t + err) = julianToDate (dateToJulian T).
Proof.
  intros He. apply Qabs_Qlt_condition in He. destruct He as [He1 He2].
  set (x := (inject_Z t + err * 86400000)%Q).
  pose proof (Qfloor_le x) as H1. pose proof (Qlt_floor x) as H2.
  set (T := Qfloor x) in *.
  rewrite inject_Z_plus in H2. change (inject_Z 1) with 1%Q in H2.
  assert (Hx : (inject_Z t - 1 < x /\ x < inject_Z t + 1)%Q)
    by (unfold x; split; Lqa.lra).
  assert (HT : t - 1 <= T <= t).
  { assert (A : (inject_Z T < inject_Z (t + 1))%Q)
      by (rewrite inject_Z_plus; change (inject_Z 1) with 1%Q; Lqa.lra).
    assert (B : (inject_Z (t - 2) < inject_Z T)%Q).
    { replace (t - 2) with (t + -2) by lia. rewrite inject_Z_plus.
      change (inject_Z (-2)) with (-2)%Q. Lqa.lra. }
    rewrite <- Zlt_Qlt in A, B. lia. }
  exists T. split; [exact HT|]. split; [exact H2|].
  pose proof (TimeWithinDay_range T) as Hw.
  pose proof (Day_decompose T) as HD.
  set (w := (x - inject_Z (Day T * 86400000))%Q).
  assert (Ew : Qfloor w = TimeWithinDay T).
  { unfold w. rewrite Qfloor_shift. fold T. lia. }
  assert (HDq : (inject_Z T ==
                 inject_Z (Day T * 86400000) + inject_Z (TimeWithinDay T))%Q)
    by (rewrite <- inject_Z_plus, <- HD; reflexivity).
  assert (Hw0 : (0 <= inject_Z (TimeWithinDay T))%Q)
    by (rewrite <- (Zle_Qle 0); lia).
  assert (Hw1 : (inject_Z (TimeWithinDay T) + 1 <= 86400000)%Q).
  { change 86400000%Q with (inject_Z 86400000). change 1%Q with (inject_Z 1).
    rewrite <- inject_Z_plus, <- Zle_Qle. lia. }
  assert (Ejd : (dateToJulian t + err ==
                 inject_Z (Day T + 2440588) - (1 # 2) +
                 w * (1 # 86400000))%Q).
  { rewrite dateToJulian_in_days. unfold w, x.
    rewrite inject_Z_plus, inject_Z_mult.
    change (inject_Z 86400000) with 86400000%Q.
    change (inject_Z 2440588) with 2440588%Q. field. }
  rewrite (julianToDate_value_rational _ (Day T + 2440588) w);
    [| unfold w; Lqa.lra | unfold w; Lqa.lra | exact Ejd].
  rewrite (julianToDate_value _ (Day T + 2440588) (TimeWithinDay T) Hw
             (dateToJulian_value T)).
  cbv zeta. rewrite Ew. reflexivity.
Qed.

(** C4, as amended.  For every instant [I] from 1582-10-15T00:00:00Z (the
    first day of the Gregorian calendar, where [julianToDate] switches
    calendars) to the end of the time range of [Date],
    [julianToDate (dateToJulian I)] is a valid date within one second of
    [I].  This is so in exact rational arithmetic, and it stays so when the
    Julian date handed to [julianToDate] is off by less than a millisecond
    (1/86400000 of a day) without falling below 2299160.5, the Julian date
    of 1582-10-15T00:00:00Z. *)
Theorem julian_roundtrip_gregorian (t : Z) :
  -12219292800000 <= t <= maxTime ->
  roundtrip_within_second t /\
  (forall err : Q,
     (Qabs err < 1 # 86400000)%Q ->
     (2299160.5 <= dateToJulian t + err)%Q ->
     exists t' : Z,
       julianToDate (dateToJulian t + err) = ValidDate t' /\
       Z.abs (t' - t) <= 1000).
Proof.
  intros Ht. split.
  - exists (t - t mod 1000). split; [exact (julian_roundtrip_value t Ht)|].
    pose proof (Z.mod_pos_bound t 1000 ltac:(lia)). lia.
  - intros err He Hlo.
    destruct (julianToDate_near t err He) as (T & HT & Hx & ->).
    assert (HTlo : -12219292800000 <= T).
    { rewrite dateToJulian_in_days in Hlo.
      assert (A : (inject_Z (-12219292800000) < inject_Z (T + 1))%Q).
      { rewrite inject_Z_plus. change (inject_Z 1) with 1%Q.
        change (inject_Z (-12219292800000)) with (-12219292800000)%Q.
        Lqa.lra. }
      rewrite <- Zlt_Qlt in A. lia. }
    exists (T - T mod 1000). split.
    + apply julian_roundtrip_value. lia.
    + pose proof (Z.mod_pos_bound T 1000 ltac:(lia)). lia.
Qed.

(** The theorem on 2024-02-29T23:59:59.999Z. *)
Lemma julian_roundtrip_gregorian_witness :
  -12219292800000 <= 1709251199999 <= maxTime /\
  roundtrip_within_second 1709251199999.
Proof.
  assert (H : -12219292800000 <= 1709251199999 <= maxTime)
    by (unfold maxTime; lia).
  split; [exact H|].
  exact (proj1 (julian_roundtrip_gregorian 1709251199999 H)).
Defined.

(** The bound of one second is reached: with a Julian date 10^-10 day
    short of the exact one, 2000-01-01T00:00:01Z comes back as
    2000-01-01T00:00:00Z. *)
Lemma julian_roundtrip_previous_second :
  julianToDate (dateToJulian 946684801000 - (1 # 10000000000)) =
  ValidDate 946684800000.
Proof. vm_compute. reflexivity. Qed.

(** C4, as the specification words it, fails on 1582-10-14T00:00:00Z, a
    valid instant of [Date] (whose calendar is the proleptic Gregorian one):
    [dateToJulian] gives 2299159.5, which [julianToDate] reads in the
    Julian calendar as October 4 and hands to [Date.UTC] as
    1582-10-04T00:00:00Z, ten days earlier. *)
Lemma julian_roundtrip_fails_before_1582_10_15 :
  Z.abs (-12219379200000) <= maxTime /\
  getUTCFullYear (-12219379200000) = 1582 /\
  getUTCMonth (-12219379200000) + 1 = 10 /\
  getUTCDate (-12219379200000) = 14 /\
  (dateToJulian (-12219379200000) == 2299159.5)%Q /\
  julianToDate (dateToJulian (-12219379200000)) = ValidDate (-12220243200000) /\
  getUTCDate (-12220243200000) = 4 /\
  ~ roundtrip_within_second (-12219379200000).
Proof.
  repeat split; try (vm_compute; reflexivity); try (vm_compute; discriminate).
  intros (t' & Ht & Habs).
  assert (E : julianToDate (dateToJulian (-12219379200000))
              = ValidDate (-12220243200000)) by (vm_compute; reflexivity).
  rewrite E in Ht. injection Ht as <-. lia.
Qed.

End JulianRoundTrip.

(** * Facts about the real part *)

Section RealBasics.
Import JSDate JS Astronomy.
Local Open Scope R_scope.

Lemma lt_true (x y : R) : x < y -> lt x y = true.
Proof. intros H. unfold lt. destruct (Rlt_dec x y); [reflexivity | contradiction]. Qed.

Lemma lt_false (x y : R) : y <= x -> lt x y = false.
Proof. intros H. unfold lt. destruct (Rlt_dec x y); [lra | reflexivity]. Qed.

Lemma lt_spec (x y : R) : lt x y = true <-> x < y.
Proof. unfold lt. destruct (Rlt_dec x y); split; intros; try assumption; try reflexivity; try discriminate; contradiction. Qed.

Lemma lt_spec_false (x y : R) : lt x y = false <-> y <= x.
Proof. unfold lt. destruct (Rlt_dec x y); split; intros; try discriminate; try reflexivity; lra. Qed.

Lemma trunc_IZR (z : Z) : trunc (IZR z) = z.
Proof.
  unfold trunc. destruct (Rle_dec 0 (IZR z)).
  - apply ZfloorZ.
  - apply Zceil_eq. lra.
Qed.

Lemma trunc_near (x : R) : x - 1 < IZR (trunc x) < x + 1.
Proof.
  unfold trunc. destruct (Rle_dec 0 x).
  - pose proof (Zfloor_bound x). lra.
  - pose proof (Zceil_bound x). lra.
Qed.

Lemma trunc_nonneg (x : R) : 0 <= x -> IZR (trunc x) <= x.
Proof.
  intros H. unfold trunc. destruct (Rle_dec 0 x); [|contradiction].
  pose proof (Zfloor_bound x). lra.
Qed.

Lemma trunc_nonpos (x : R) : x <= 0 -> x <= IZR (trunc x).
Proof.
  intros H. unfold trunc. destruct (Rle_dec 0 x).
  - assert (x = 0) by lra. subst x. change 0 with (IZR 0). rewrite ZfloorZ. simpl. lra.
  - pose proof (Zceil_bound x). lra.
Qed.

Lemma trunc_sign_nonneg (x : R) : 0 <= x -> 0 <= IZR (trunc x).
Proof.
  intros H. unfold trunc. destruct (Rle_dec 0 x); [|contradiction].
  apply IZR_le. apply (Zfloor_lub 0). exact H.
Qed.

Lemma trunc_sign_nonpos (x : R) : x <= 0 -> IZR (trunc x) <= 0.
Proof.
  intros H. unfold trunc. destruct (Rle_dec 0 x).
  - assert (x = 0) by lra. subst x. change 0 with (IZR 0) at 1. rewrite ZfloorZ. simpl. lra.
  - pose proof (Zceil_bound x) as [_ Hc].
    assert (Hz : (Zceil x <= 0)%Z).
    { destruct (Z_le_gt_dec (Zceil x) 0) as [Hle|Hgt]; [assumption|].
      exfalso. pose proof (Zceil_bound x) as [Hlo _].
      assert (1 <= IZR (Zceil x)) by (apply IZR_le; lia). lra. }
    apply IZR_le in Hz. exact Hz.
Qed.

(** [a % 360] keeps the sign of [a] and stays below [360] in size. *)
Lemma rem_360 (a : R) :
  (0 <= a -> 0 <= rem a 360 < 360) /\ (a <= 0 -> -360 < rem a 360 <= 0).
Proof.
  unfold rem. pose proof (trunc_near (a / 360)) as Hn.
  split; intros Ha.
  - pose proof (trunc_nonneg (a / 360) ltac:(lra)). lra.
  - pose proof (trunc_nonpos (a / 360) ltac:(lra)). lra.
Qed.

Lemma normalizeAngle_range (a : R) : 0 <= normalizeAngle a < 360.
Proof.
  unfold normalizeAngle. cbv zeta.
  destruct (rem_360 a) as [Hp Hn].
  unfold lt. destruct (Rlt_dec (rem a 360) 0) as [Hlt|Hge].
  - destruct (Rle_dec 0 a) as [Ha|Ha].
    + specialize (Hp Ha). lra.
    + specialize (Hn ltac:(lra)). lra.
  - destruct (Rle_dec 0 a) as [Ha|Ha].
    + specialize (Hp Ha). lra.
    + specialize (Hn ltac:(lra)). lra.
Qed.

Lemma toRadians_toDegrees (x : R) : toRadians (toDegrees x) = x.
Proof.
  unfold toRadians, toDegrees, DEG_TO_RAD, RAD_TO_DEG.
  field. apply PI_neq0.
Qed.

Lemma toDegrees_toRadians (x : R) : toDegrees (toRadians x) = x.
Proof.
  unfold toRadians, toDegrees, DEG_TO_RAD, RAD_TO_DEG.
  field. apply PI_neq0.
Qed.

Lemma toRadians_0 : toRadians 0 = 0.
Proof. unfold toRadians. ring. Qed.

Lemma Rabs_le_bounds (a b : R) : Rabs a <= b -> - b <= a <= b.
Proof. unfold Rabs. destruct (Rcase_abs a); lra. Qed.

Lemma abs_sin_le (x : R) : Rabs (sin x) <= Rabs x.
Proof.
  assert (Hpos : forall y, 0 < y -> - y <= sin y <= y).
  { intros y Hy. split; [|left; apply sin_lt_x; assumption].
    destruct (Rle_dec y 1) as [Hy1|Hy1].
    - assert (0 < sin y).
      { apply sin_gt_0; [assumption|]. pose proof PI2_3_2. lra. }
      lra.
    - pose proof (SIN_bound y). lra. }
  destruct (Rtotal_order x 0) as [Hx|[Hx|Hx]].
  - specialize (Hpos (- x) ltac:(lra)). rewrite sin_neg in Hpos.
    apply Rabs_le. rewrite (Rabs_left x Hx). lra.
  - subst x. rewrite sin_0. lra.
  - specialize (Hpos x Hx). apply Rabs_le. rewrite (Rabs_right x) by lra. lra.
Qed.

End RealBasics.

(** ** Rise, transit and set *)

Section RiseTransitSetFacts.
Import JSDate JS Astronomy.
Local Open Scope R_scope.

Lemma setUTCHours0_range (date : Z) :
  (date - 86400000 < setUTCHours0 date <= date)%Z.
Proof.
  unfold setUTCHours0, TimeWithinDay, msPerDay.
  pose proof (Z.mod_pos_bound date 86400000 ltac:(lia)). lia.
Qed.

Lemma new_Date_valid (x : R) :
  Rabs x <= IZR maxTime -> new_Date x = ValidDate (trunc x).
Proof.
  intros H. unfold new_Date. destruct (Rle_dec (Rabs x) (IZR maxTime));
    [reflexivity | contradiction].
Qed.

Lemma calculateTransit_near (ra lon : R) (date : Z) :
  0 <= ra < 360 ->
  (Z.abs date <= maxTime - 172800000)%Z ->
  exists T : Z,
    calculateTransit ra lon date = ValidDate T /\
    IZR (setUTCHours0 date) - 43200001 < IZR T
      < IZR (setUTCHours0 date) + 43200001.
Proof.
  intros Hra Hdate. unfold calculateTransit. cbv zeta.
  set (midnight := setUTCHours0 date).
  set (lst0 := lst (dateToJulian midnight) lon).
  assert (Hl : 0 <= lst0 < 360) by apply normalizeAngle_range.
  set (ha1 := if lt (ra - lst0) 0 then ra - lst0 + 360 else ra - lst0).
  assert (H1 : 0 <= ha1 < 360).
  { unfold ha1, lt. destruct (Rlt_dec (ra - lst0) 0); lra. }
  set (ha2 := if lt 180 ha1 then ha1 - 360 else ha1).
  assert (H2 : -180 < ha2 <= 180).
  { unfold ha2, lt. destruct (Rlt_dec 180 ha1); lra. }
  set (ms := ha2 / HOURS_TO_DEG * 3600000 / SIDEREAL_RATIO).
  assert (Hms : -43200000 < ms < 43200000).
  { unfold ms, HOURS_TO_DEG, SIDEREAL_RATIO. lra. }
  pose proof (setUTCHours0_range date) as Hm. fold midnight in Hm.
  assert (Hd : (- (maxTime - 172800000) <= date <= maxTime - 172800000)%Z) by lia.
  unfold maxTime in Hd.
  assert (HmR : -8640000000000000 + 86400000 <= IZR midnight
                 <= 8640000000000000 - 172800000).
  { split.
    - apply (Rle_trans _ (IZR (-8640000000000000 + 86400000))).
      + right. rewrite plus_IZR. reflexivity.
      + apply IZR_le. lia.
    - apply (Rle_trans _ (IZR (8640000000000000 - 172800000))).
      + apply IZR_le. lia.
      + right. rewrite minus_IZR. reflexivity. }
  exists (trunc (IZR midnight + ms)). split.
  - apply new_Date_valid. unfold maxTime. apply Rabs_le. lra.
  - pose proof (trunc_near (IZR midnight + ms)). lra.
Qed.

(** The normal outcome, read off the code. *)
Lemma rts_normal (ra dec lat lon : R) (date : Z) (horizonAngle : R) :
  -1 <= cosHourAngle dec lat horizonAngle <= 1 ->
  calculateRiseTransitSet ra dec lat lon date horizonAngle =
  {| rise := Some (Date_offset (calculateTransit ra lon date)
                               (- riseOffset dec lat horizonAngle));
     transit := Some (calculateTransit ra lon date);
     set := Some (Date_offset (calculateTransit ra lon date)
                              (riseOffset dec lat horizonAngle));
     circumpolar := false; neverRises := false |}.
Proof.
  intros [Hlo Hhi]. unfold calculateRiseTransitSet. cbv zeta.
  fold (cosHourAngle dec lat horizonAngle).
  rewrite (lt_false _ (-1)) by lra. rewrite (lt_false 1) by lra.
  reflexivity.
Qed.

Lemma hour_angle_range (c : R) : 0 <= toDegrees (acos c) <= 180.
Proof.
  pose proof (acos_bound c) as [H0 H1].
  unfold toDegrees, RAD_TO_DEG. pose proof PI_RGT_0 as Hpi.
  assert (Hk : 0 < 180 / PI) by (apply Rdiv_lt_0_compat; lra).
  split.
  - apply Rmult_le_pos; lra.
  - apply (Rle_trans _ (PI * (180 / PI))).
    + apply Rmult_le_compat_r; lra.
    + right. field. lra.
Qed.

Lemma riseOffset_range (dec lat h0 : R) :
  0 <= riseOffset dec lat h0 <= 43200000.
Proof.
  unfold riseOffset, HOURS_TO_DEG.
  pose proof (hour_angle_range (cosHourAngle dec lat h0)). lra.
Qed.

Lemma cosHourAngle_origin : cosHourAngle 0 0 0 = 0.
Proof.
  unfold cosHourAngle. rewrite toRadians_0, sin_0, cos_0. field.
Qed.

Lemma riseOffset_origin : riseOffset 0 0 0 = 21600000.
Proof.
  unfold riseOffset. rewrite cosHourAngle_origin, acos_0.
  unfold toDegrees, RAD_TO_DEG, HOURS_TO_DEG. field. apply PI_neq0.
Qed.

(** Around a valid transit, rise and set are valid dates, each within a
    millisecond of transit minus or plus the offset, and in this order. *)
Lemma rise_set_around_transit (T : Z) (off : R) :
  0 <= off <= 43200000 ->
  (Z.abs T <= maxTime - 43200001)%Z ->
  exists tr ts : Z,
    Date_offset (ValidDate T) (- off) = ValidDate tr /\
    Date_offset (ValidDate T) off = ValidDate ts /\
    (tr <= T <= ts)%Z /\
    IZR T - off - 1 < IZR tr < IZR T - off + 1 /\
    IZR T + off - 1 < IZR ts < IZR T + off + 1.
Proof.
  intros Hoff HT. unfold Date_offset.
  assert (HTR : - (8640000000000000 - 43200001) <= IZR T
                 <= 8640000000000000 - 43200001).
  { unfold maxTime in HT.
    assert (HT' : (- (8640000000000000 - 43200001) <= T
                   <= 8640000000000000 - 43200001)%Z) by lia.
    destruct HT' as [Ha Hb]. apply IZR_le in Ha, Hb.
    rewrite opp_IZR, minus_IZR in Ha. rewrite minus_IZR in Hb. lra. }
  exists (trunc (IZR T + - off)), (trunc (IZR T + off)).
  rewrite !new_Date_valid by (unfold maxTime; apply Rabs_le; lra).
  pose proof (trunc_near (IZR T + - off)) as Hr.
  pose proof (trunc_near (IZR T + off)) as Hs.
  repeat split; try lra.
  - apply le_IZR.
    destruct (Rle_dec 0 (IZR T + - off)) as [Hp|Hn].
    + pose proof (trunc_nonneg _ Hp). lra.
    + pose proof (trunc_sign_nonpos (IZR T + - off) ltac:(lra)).
      destruct (Rle_dec 0 (IZR T)); [lra|].
      (* T < 0: truncation rounds up, but not beyond T, an integer *)
      assert (Hc : IZR (trunc (IZR T + - off)) < IZR T + 1) by lra.
      rewrite <- (plus_IZR T 1) in Hc. apply lt_IZR in Hc.
      apply IZR_le. lia.
  - apply le_IZR.
    destruct (Rle_dec (IZR T + off) 0) as [Hp|Hn].
    + pose proof (trunc_nonpos _ Hp). lra.
    + pose proof (trunc_sign_nonneg (IZR T + off) ltac:(lra)).
      destruct (Rle_dec (IZR T) 0); [lra|].
      assert (Hc : IZR T - 1 < IZR (trunc (IZR T + off))) by lra.
      rewrite <- (minus_IZR T 1) in Hc. apply lt_IZR in Hc.
      apply IZR_le. lia.
Qed.

(** C1, as amended.  Away from the poles (latitude and declination
    strictly between -90 and 90 degrees, so that the divisor
    [cos lat * cos dec] of the hour-angle cosine is not zero), in the
    normal outcome of [calculateRiseTransitSet] (the hour-angle cosine
    lies in [-1, 1]) the result carries the transit
    of [calculateTransit], [rise] is the date at transit minus
    [H / 15 * 3600000] milliseconds and [set] the date at transit plus the
    same offset, [H] being [acos] of the cosine in degrees, between 0 and
    180.  The offset is used as it is: it is not divided by the
    sidereal-to-solar ratio.  Around a valid transit away from the ends of
    the time range, rise and set are valid, within a millisecond of
    transit minus and plus the offset, and rise <= transit <= set. *)
Theorem rise_set_offsets_from_transit
    (ra dec lat lon : R) (date : Z) (horizonAngle : R) :
  -90 < lat < 90 -> -90 < dec < 90 ->
  -1 <= cosHourAngle dec lat horizonAngle <= 1 ->
  let r := calculateRiseTransitSet ra dec lat lon date horizonAngle in
  let tr := calculateTransit ra lon date in
  let H := toDegrees (acos (cosHourAngle dec lat horizonAngle)) in
  circumpolar r = false /\ neverRises r = false /\
  transit r = Some tr /\
  rise r = Some (Date_offset tr (- (H / 15 * 3600000))) /\
  set r = Some (Date_offset tr (H / 15 * 3600000)) /\
  0 <= H <= 180 /\
  (forall T : Z,
     tr = ValidDate T -> (Z.abs T <= maxTime - 43200001)%Z ->
     exists t_rise t_set : Z,
       rise r = Some (ValidDate t_rise) /\ set r = Some (ValidDate t_set) /\
       (t_rise <= T <= t_set)%Z /\
       IZR T - H / 15 * 3600000 - 1 < IZR t_rise
         < IZR T - H / 15 * 3600000 + 1 /\
       IZR T + H / 15 * 3600000 - 1 < IZR t_set
         < IZR T + H / 15 * 3600000 + 1).
Proof.
  intros _ _ Hc r tr H. subst r.
  rewrite (rts_normal ra dec lat lon date horizonAngle Hc).
  cbn [rise set transit circumpolar neverRises]. fold tr.
  change (riseOffset dec lat horizonAngle) with (H / HOURS_TO_DEG * 3600000).
  unfold HOURS_TO_DEG.
  repeat split; try reflexivity; try apply hour_angle_range.
  intros T HT Hrange. rewrite HT.
  pose proof (riseOffset_range dec lat horizonAngle) as Hoff.
  change (riseOffset dec lat horizonAngle) with (H / 15 * 3600000) in Hoff.
  destruct (rise_set_around_transit T (H / 15 * 3600000) Hoff Hrange)
    as (t1 & t2 & E1 & E2 & Hord & B1 & B2).
  exists t1, t2. rewrite E1, E2. repeat split; try reflexivity; try lia; lra.
Qed.

(** The theorem at an object on the celestial equator seen from the
    terrestrial equator, on 2000-01-01T12:00:00Z. *)
Lemma rise_set_offsets_from_transit_witness :
  -90 < 0 < 90 /\ -1 <= cosHourAngle 0 0 0 <= 1 /\
  rise (calculateRiseTransitSet 0 0 0 0 946728000000 0) =
  Some (Date_offset (calculateTransit 0 0 946728000000)
          (- (toDegrees (acos (cosHourAngle 0 0 0)) / 15 * 3600000))).
Proof.
  assert (Hc : -1 <= cosHourAngle 0 0 0 <= 1)
    by (rewrite cosHourAngle_origin; lra).
  assert (Hp : -90 < 0 < 90) by lra.
  split; [exact Hp|]. split; [exact Hc|].
  exact (proj1 (proj2 (proj2 (proj2
    (rise_set_offsets_from_transit 0 0 0 0 946728000000 0 Hp Hp Hc))))).
Defined.

(** C1, as the specification words it, fails: for an object on the
    celestial equator seen from the terrestrial equator with horizon angle
    0, on 2000-01-01T12:00:00Z, [rise] is not transit minus the offset
    divided by the sidereal-to-solar ratio. *)
Lemma rise_offset_not_divided_by_sidereal_ratio :
  -1 <= cosHourAngle 0 0 0 <= 1 /\
  rise (calculateRiseTransitSet 0 0 0 0 946728000000 0) <>
  Some (Date_offset (calculateTransit 0 0 946728000000)
          (- riseOffset_solar 0 0 0)).
Proof.
  assert (Hc : -1 <= cosHourAngle 0 0 0 <= 1)
    by (rewrite cosHourAngle_origin; lra).
  split; [exact Hc|].
  rewrite (rts_normal 0 0 0 0 946728000000 0 Hc). cbn [rise].
  unfold riseOffset_solar. rewrite riseOffset_origin.
  destruct (calculateTransit_near 0 0 946728000000) as (T & -> & HT).
  { lra. }
  { unfold maxTime. lia. }
  assert (Hmid : setUTCHours0 946728000000 = 946684800000%Z) by reflexivity.
  rewrite Hmid in HT.
  intros Heq. injection Heq as Heq. unfold Date_offset in Heq.
  rewrite !new_Date_valid in Heq
    by (unfold maxTime, SIDEREAL_RATIO; apply Rabs_le; lra).
  injection Heq as Heq.
  match type of Heq with
  | trunc ?x1 = trunc ?x2 =>
    pose proof (trunc_near x1) as Hn1; pose proof (trunc_near x2) as Hn2
  end.
  rewrite Heq in Hn1. unfold SIDEREAL_RATIO in Hn1, Hn2. lra.
Qed.

End RiseTransitSetFacts.

(** ** Twilight *)

Section TwilightFacts.
Import JSDate JS Astronomy.
Local Open Scope R_scope.

Lemma Q2R_inject_Z (z : Z) : Q2R (inject_Z z) = IZR z.
Proof. unfold Q2R, inject_Z. cbn [Qnum Qden]. field. Qed.

(** The Julian date of a time value: the day number from the epoch, shifted,
    plus the fraction of the day. *)
Lemma dateToJulian_real (t : Z) :
  dateToJulian t =
  IZR (Day t) + 2440587.5 + IZR (TimeWithinDay t) / 86400000.
Proof.
  unfold dateToJulian.
  rewrite (Qreals.Qeq_eqR _ _ (dateToJulian_value t)).
  rewrite Qreals.Q2R_plus, Qreals.Q2R_minus, Q2R_inject_Z, plus_IZR.
  unfold Q2R. cbn [Qnum Qden]. lra.
Qed.

Lemma julian_window (t : Z) :
  in_window t -> 2451544 <= dateToJulian t <= 2551546.
Proof.
  intros [Hlo Hhi]. rewrite dateToJulian_real.
  assert (Hd : (10957 <= Day t <= 110957)%Z).
  { unfold Day, msPerDay. Z.div_mod_to_equations. lia. }
  pose proof (Z.mod_pos_bound t 86400000 ltac:(lia)) as Hw.
  fold msPerDay in Hw. fold (TimeWithinDay t) in Hw.
  destruct Hd as [Hd1 Hd2]. apply IZR_le in Hd1, Hd2.
  destruct Hw as [Hw1 Hw2]. apply IZR_le in Hw1. apply IZR_lt in Hw2.
  unfold msPerDay in Hw2. lra.
Qed.

Lemma obliquity_window (jd : R) :
  2451544 <= jd <= 2551546 -> 23 <= meanObliquity jd <= 24.
Proof.
  intros Hjd. unfold meanObliquity, julianCenturies, J2000, JULIAN_CENTURY,
    OBLIQUITY_J2000, OBLIQUITY_RATE. cbv zeta.
  set (T := (jd - 2451545.0) / 36525).
  assert (HT : -1 <= T <= 3) by (unfold T; lra).
  assert (HT2 : 0 <= T * T <= 9) by nra.
  assert (HT3 : -9 <= T * T * T <= 27) by nra.
  lra.
Qed.

(** The sine of the Sun's declination stays small while the obliquity is
    below 24 degrees. *)
Lemma sun_declination_sine (eps lam : R) :
  23 <= eps <= 24 ->
  let x := sin (toRadians eps) * sin (toRadians lam) in
  -1 <= x <= 1 /\ x * x <= 0.36.
Proof.
  intros He x.
  pose proof (abs_sin_le (toRadians eps)) as Hs.
  pose proof (SIN_bound (toRadians lam)) as Hl.
  pose proof PI_4 as Hpi4. pose proof PI_RGT_0 as Hpi0.
  assert (Hr : 0 <= toRadians eps <= 0.6).
  { unfold toRadians, DEG_TO_RAD. split; nra. }
  rewrite (Rabs_right (toRadians eps)) in Hs by lra.
  apply Rabs_le_bounds in Hs.
  assert (Hx : -0.6 <= x <= 0.6) by (unfold x; nra).
  split; [lra | nra].
Qed.

Lemma cos_declination (eps lam : R) :
  23 <= eps <= 24 ->
  0.8 <= cos (toRadians (toDegrees
            (asin (sin (toRadians eps) * sin (toRadians lam))))).
Proof.
  intros He. rewrite toRadians_toDegrees.
  destruct (sun_declination_sine eps lam He) as [Hx Hxx].
  rewrite cos_asin by exact Hx.
  replace 0.8 with (sqrt (0.8 * 0.8)) by (apply sqrt_square; lra).
  apply sqrt_le_1_alt. unfold Rsqr. lra.
Qed.

Lemma sin_twilight_angle : Rabs (sin (toRadians TWILIGHT_ASTRONOMICAL)) <= 0.4.
Proof.
  eapply Rle_trans; [apply abs_sin_le|].
  unfold toRadians, TWILIGHT_ASTRONOMICAL, DEG_TO_RAD.
  pose proof PI_4. pose proof PI_RGT_0. apply Rabs_le. lra.
Qed.

Lemma div_within_one (a c : R) : 0 < c -> - c <= a <= c -> -1 <= a / c <= 1.
Proof.
  intros Hc [Hlo Hhi]. split.
  - apply (Rmult_le_reg_r c); [assumption|].
    unfold Rdiv. rewrite Rmult_assoc, Rinv_l by lra. lra.
  - apply (Rmult_le_reg_r c); [assumption|].
    unfold Rdiv. rewrite Rmult_assoc, Rinv_l by lra. lra.
Qed.

(** At latitude 0, inside the window, the Sun reaches 18 degrees below the
    horizon: astronomical dawn and dusk are both dates. *)
Lemma astronomical_events_at_equator (lon : R) (t : Z) :
  in_window t ->
  exists dawn dusk : Date,
    calculateSunRiseSet (sun_dec (approximateSunPosition t)) 0 lon t
                        TWILIGHT_ASTRONOMICAL =
    {| srs_rise := Some dawn; srs_set := Some dusk;
       polarDay := false; polarNight := false |}.
Proof.
  intros Hw.
  pose proof (obliquity_window _ (julian_window t Hw)) as Heps.
  unfold calculateSunRiseSet. cbv zeta.
  set (decRad := toRadians (sun_dec (approximateSunPosition t))).
  assert (Hcos : 0.8 <= cos decRad).
  { unfold decRad, approximateSunPosition. cbv zeta. cbn [sun_dec].
    apply cos_declination. exact Heps. }
  pose proof sin_twilight_angle as Hsin. apply Rabs_le_bounds in Hsin.
  rewrite toRadians_0, sin_0, cos_0.
  set (cosH := (sin (toRadians TWILIGHT_ASTRONOMICAL) - 0 * sin decRad) /
               (1 * cos decRad)).
  assert (HcosH : -1 <= cosH <= 1).
  { unfold cosH. apply div_within_one; lra. }
  rewrite (lt_false cosH (-1)) by lra. rewrite (lt_false 1 cosH) by lra.
  cbn [orb]. eexists. eexists. reflexivity.
Qed.

(** One activation of [calculateTwilightTimes] whose astronomical dusk and
    dawn are dates needs the activation for the next day. *)
Lemma twilight_needs_next_day (fuel : nat) (lat lon : R) (date next : Z)
    (dawn dusk : Date) :
  calculateSunRiseSet (sun_dec (approximateSunPosition date)) lat lon date
                      TWILIGHT_ASTRONOMICAL =
  {| srs_rise := Some dawn; srs_set := Some dusk;
     polarDay := false; polarNight := false |} ->
  nextDate date = ValidDate next ->
  calculateTwilightTimes fuel lat lon next = None ->
  calculateTwilightTimes (S fuel) lat lon date = None.
Proof.
  intros Hev Hnext Hrec.
  cbn [calculateTwilightTimes]. unfold twilight_event.
  cbn [tw_events twilight_events map lookup].
  cbv [String.eqb Ascii.eqb Bool.eqb].
  rewrite Hev. cbn [srs_set srs_rise]. rewrite Hnext, Hrec. reflexivity.
Qed.

Lemma nextDate_in_window (t : Z) :
  (946684800000 <= t <= 9586684800000 - 86400000)%Z ->
  nextDate t = ValidDate (t + 86400000) /\ in_window (t + 86400000).
Proof.
  intros H. unfold nextDate, TimeClip, msPerDay, maxTime, in_window.
  replace (Z.abs (t + 86400000) <=? 8640000000000000)%Z with true
    by (symmetry; apply Z.leb_le; lia).
  split; [reflexivity | lia].
Qed.

(** At latitude 0 the recursion goes on day after day: whatever number of
    nested activations is allowed, up to 100000, it is not enough. *)
Lemma twilight_fuel_exhausted (lon : R) (fuel : nat) :
  forall t : Z,
    (946684800000 <= t)%Z ->
    (t + Z.of_nat fuel * 86400000 <= 9586684800000)%Z ->
    calculateTwilightTimes fuel 0 lon t = None.
Proof.
  induction fuel as [|k IH]; intros t Hlo Hhi.
  - reflexivity.
  - destruct (astronomical_events_at_equator lon t) as (dawn & dusk & Hev).
    { unfold in_window. lia. }
    destruct (nextDate_in_window t) as [Hnext _]; [lia|].
    apply (twilight_needs_next_day k 0 lon t (t + 86400000) dawn dusk Hev Hnext).
    apply IH; lia.
Qed.

(** When the Sun does not reach 18 degrees below the horizon today, one
    activation is enough: there is no recursive call. *)
Lemma twilight_no_recursion (fuel : nat) (lat lon : R) (date : Z) :
  srs_set (calculateSunRiseSet (sun_dec (approximateSunPosition date)) lat lon
             date TWILIGHT_ASTRONOMICAL) = None ->
  exists r : Twilight,
    calculateTwilightTimes (S fuel) lat lon date = Some r /\
    darknessDuration r = None.
Proof.
  intros Hev.
  cbn [calculateTwilightTimes]. unfold twilight_event.
  cbn [tw_events twilight_events map lookup].
  cbv [String.eqb Ascii.eqb Bool.eqb].
  rewrite Hev. eexists. split; reflexivity.
Qed.

(** C2, evaluated on the code at latitude 0, longitude 0, from
    2000-01-01T00:00:00Z: the specification says that the computation of
    [darknessDuration] recurses one day forward and never further.  The
    recursive call is a call of [calculateTwilightTimes] itself, which calls
    itself again whenever the next day has an astronomical dusk and dawn:
    here no bound on the nesting up to 100000 activations is enough. *)
Theorem twilight_recursion_not_bounded (fuel : nat) :
  (Z.of_nat fuel <= 100000)%Z ->
  calculateTwilightTimes fuel 0 0 946684800000 = None.
Proof.
  intros H. apply twilight_fuel_exhausted; lia.
Qed.

(** Two nested activations, the depth the specification allows, are not
    enough. *)
Lemma twilight_recursion_not_bounded_witness :
  (Z.of_nat 2 <= 100000)%Z /\
  calculateTwilightTimes 2 0 0 946684800000 = None.
Proof.
  assert (H : (Z.of_nat 2 <= 100000)%Z) by (cbn; lia).
  split; [exact H | exact (twilight_recursion_not_bounded 2 H)].
Defined.

End TwilightFacts.

(** ** Bortle scale and visibility scoring *)

Section VisibilityFacts.
Import JSDate JS Astronomy.
Local Open Scope R_scope.

Lemma Math_round_spec (x : R) (k : Z) :
  IZR k - / 2 <= x < IZR k + / 2 -> Math_round x = k.
Proof.
  intros H. unfold Math_round. apply Zfloor_eq. lra.
Qed.

(** Every key from 1 to 9 has an entry. *)
Lemma bortle_entry_defined (k : Z) :
  (1 <= k <= 9)%Z -> exists info, bortle_entry k BORTLE_SCALE = Some info.
Proof.
  intros H.
  assert (Hk : k = 1%Z \/ k = 2%Z \/ k = 3%Z \/ k = 4%Z \/ k = 5%Z \/
               k = 6%Z \/ k = 7%Z \/ k = 8%Z \/ k = 9%Z) by lia.
  repeat (destruct Hk as [->|Hk]); try subst k; eexists; reflexivity.
Qed.

(** C9.  [getBortleInfo] is total on the real numbers: the argument is
    rounded to the nearest integer and clamped into 1..9, the key found
    that way has an entry of [BORTLE_SCALE] (the result is never
    [undefined]), and [bortleToSqm] returns the [sqm] of that entry, a
    number. *)
Theorem getBortleInfo_total (x : R) :
  exists (k : Z) (info : BortleInfo),
    k = Z.max 1 (Z.min 9 (Math_round x)) /\
    (1 <= k <= 9)%Z /\
    bortle_entry k BORTLE_SCALE = Some info /\
    getBortleInfo x = Some info /\
    bortleToSqm x = Some (sqm info).
Proof.
  set (k := Z.max 1 (Z.min 9 (Math_round x))).
  assert (Hk : (1 <= k <= 9)%Z) by (unfold k; lia).
  destruct (bortle_entry_defined k Hk) as [info Hinfo].
  exists k, info. unfold bortleToSqm, getBortleInfo. fold k. rewrite Hinfo.
  repeat split; try reflexivity; lia.
Qed.

Lemma getBortleInfo_examples :
  option_map bortle_name (getBortleInfo 0) = Some "Excellent Dark-Sky Site"%string /\
  option_map bortle_name (getBortleInfo (-3.2)) = Some "Excellent Dark-Sky Site"%string /\
  option_map bortle_name (getBortleInfo 4.5) = Some "Suburban Sky"%string /\
  option_map bortle_name (getBortleInfo 4.4) = Some "Rural/Suburban Transition"%string /\
  option_map bortle_name (getBortleInfo 12) = Some "Inner-City Sky"%string.
Proof.
  unfold getBortleInfo.
  rewrite (Math_round_spec 0 0), (Math_round_spec (-3.2) (-3)),
    (Math_round_spec 4.5 5), (Math_round_spec 4.4 4),
    (Math_round_spec 12 12) by lra.
  repeat split.
Qed.

(** [Math.min(100, Math.max(0, n))] of an integer is an integer. *)
Lemma clamp_integer (z : Z) :
  Rmin 100 (Rmax 0 (IZR z)) = IZR (Z.min 100 (Z.max 0 z)).
Proof.
  destruct (Z.max_spec 0 z) as [[H ->]|[H ->]].
  - rewrite Rmax_right by (apply IZR_le; lia).
    destruct (Z.min_spec 100 z) as [[H' ->]|[H' ->]].
    + rewrite Rmin_left by (apply IZR_le; lia). reflexivity.
    + rewrite Rmin_right by (apply IZR_le; lia). reflexivity.
  - rewrite Rmax_left by (apply IZR_le; lia).
    rewrite Z.min_r by lia. rewrite Rmin_right by lra. reflexivity.
Qed.

Ltac score_cases :=
  cbn [Number_or_zero];
  repeat match goal with
         | |- context [Req_dec_T ?a ?b] => destruct (Req_dec_T a b)
         end;
  cbn [Number_lt];
  repeat match goal with
         | |- context [lt ?a ?b] => destruct (lt a b)
         end;
  cbn [Number_add Number_sub Number_mul Number_div Number_min Number_max
       Number_round].

(** On numbers the two readings of [calculateVisibilityScore] agree. *)
Lemma score_on_numbers (obj : CatalogObject) (altitude limitingMag : R) :
  AstronomyNaN.calculateVisibilityScore obj (Num altitude) (Num limitingMag) =
  Num (IZR (calculateVisibilityScore obj altitude limitingMag)).
Proof.
  unfold AstronomyNaN.calculateVisibilityScore, calculateVisibilityScore.
  cbn [Number_lt]. destruct (lt altitude 0); [reflexivity|].
  cbv zeta.
  destruct (magnitude obj) as [|m]; destruct (size obj) as [[|v]|];
    cbn [Number_sub]; score_cases;
    rewrite clamp_integer; reflexivity.
Qed.

(** C7, as amended.  For every altitude that is a number, and any
    limiting magnitude ([NaN] included), [calculateVisibilityScore]
    returns 0 when the altitude is below 0 and in every case an integer
    from 0 to 100: the [Math.round] of the summed score clamped by
    [Math.max] and [Math.min].  For an object of magnitude 5.8 at altitude
    -1 with limiting magnitude 5.8 it returns 0. *)
Theorem visibility_score_range
    (obj : CatalogObject) (altitude : R) (limitingMag : Number) :
  (altitude < 0 ->
   AstronomyNaN.calculateVisibilityScore obj (Num altitude) limitingMag =
   Num 0) /\
  (exists k : Z,
     (0 <= k <= 100)%Z /\
     AstronomyNaN.calculateVisibilityScore obj (Num altitude) limitingMag =
     Num (IZR k)) /\
  (forall ra dec sz,
     AstronomyNaN.calculateVisibilityScore
       {| obj_ra := ra; obj_dec := dec; magnitude := Num 5.8; size := sz |}
       (Num (-1)) (Num 5.8) = Num 0).
Proof.
  split; [|split].
  - intros H. unfold AstronomyNaN.calculateVisibilityScore.
    cbn [Number_lt]. rewrite lt_true by exact H. reflexivity.
  - destruct limitingMag as [|l].
    + unfold AstronomyNaN.calculateVisibilityScore. cbn [Number_lt].
      destruct (lt altitude 0);
        [exists 0%Z; split; [lia|reflexivity]|].
      cbv zeta. cbn [Number_sub Number_lt].
      destruct (size obj) as [[|v]|]; score_cases;
        rewrite clamp_integer; eexists; (split; [|reflexivity]); lia.
    + rewrite score_on_numbers.
      exists (calculateVisibilityScore obj altitude l).
      split; [|reflexivity].
      unfold calculateVisibilityScore. destruct (lt altitude 0); lia.
  - intros. unfold AstronomyNaN.calculateVisibilityScore.
    cbn [Number_lt]. rewrite lt_true by lra. reflexivity.
Qed.

(** The theorem on an object of magnitude 5.8 one degree below the
    horizon. *)
Lemma visibility_score_range_witness :
  (-1 < 0) /\
  AstronomyNaN.calculateVisibilityScore
    {| obj_ra := CoordNum (Num 10); obj_dec := CoordNum (Num 20);
       magnitude := Num 5.8; size := None |} (Num (-1)) (Num 5.8) = Num 0.
Proof.
  assert (H : -1 < 0) by lra.
  split; [exact H|].
  exact (proj1 (visibility_score_range
                  {| obj_ra := CoordNum (Num 10); obj_dec := CoordNum (Num 20);
                     magnitude := Num 5.8; size := None |} (-1) (Num 5.8)) H).
Defined.

(** C7, as the specification words it, fails on an altitude that is
    [NaN], the altitude [rankObjectsByVisibility] computes for an object
    without a right ascension: no comparison holds, the altitude term of
    the score is [NaN], and so is what [Math.round], [Math.max] and
    [Math.min] return.  The result is not an integer from 0 to 100. *)
Lemma visibility_score_of_NaN_altitude :
  AstronomyNaN.calculateVisibilityScore
    {| obj_ra := CoordNum NaN; obj_dec := CoordNum (Num 20);
       magnitude := Num 5.8; size := None |} NaN (Num 5.8) = NaN /\
  ~ (exists k : Z,
       (0 <= k <= 100)%Z /\
       AstronomyNaN.calculateVisibilityScore
         {| obj_ra := CoordNum NaN; obj_dec := CoordNum (Num 20);
            magnitude := Num 5.8; size := None |} NaN (Num 5.8) =
       Num (IZR k)).
Proof.
  assert (E : AstronomyNaN.calculateVisibilityScore
                {| obj_ra := CoordNum NaN; obj_dec := CoordNum (Num 20);
                   magnitude := Num 5.8; size := None |} NaN (Num 5.8) = NaN).
  { unfold AstronomyNaN.calculateVisibilityScore.
    cbn [Number_lt Number_sub Number_mul Number_add magnitude size].
    repeat match goal with
           | |- context [lt ?a ?b] => destruct (lt a b)
           end; reflexivity. }
  split; [exact E|].
  intros (k & _ & H). rewrite E in H. discriminate H.
Qed.

Lemma visibility_score_examples :
  calculateVisibilityScore
    {| obj_ra := CoordNum (Num 10); obj_dec := CoordNum (Num 20);
       magnitude := Num 2; size := None |} 45 5.8 = 72%Z /\
  calculateVisibilityScore
    {| obj_ra := CoordNum (Num 10); obj_dec := CoordNum (Num 20);
       magnitude := NaN; size := Some (Num 90) |} 10 5.8 = 65%Z.
Proof.
  unfold calculateVisibilityScore. cbn [magnitude size].
  rewrite !(lt_false 45) by lra. rewrite (lt_true 45 70) by lra.
  rewrite !(lt_false (5.8 - 2)) by lra.
  rewrite (lt_false 10 0), (lt_true 10 15) by lra.
  destruct (Req_dec_T 90 0) as [E|_]; [lra|].
  rewrite (lt_true 5 90) by lra.
  rewrite Rmin_left by lra.
  rewrite (Math_round_spec _ 72), (Math_round_spec _ 65) by lra.
  split; reflexivity.
Qed.

End VisibilityFacts.

(** ** Ranking *)

Section SortFacts.
Import Astronomy.
Context {A : Type}.
Variable cmp : A -> A -> Z.
Variable key : A -> Z.
(** The elements the comparator is known on. *)
Variable P : A -> Prop.
Hypothesis cmp_key : forall x y, P x -> P y -> cmp x y = (key y - key x)%Z.

Lemma insert_by_perm (x : A) (l : list A) :
  Permutation (x :: l) (insert_by cmp x l).
Proof.
  induction l as [|y r IH]; cbn [insert_by].
  - apply Permutation_refl.
  - destruct (cmp y x <=? 0)%Z.
    + eapply perm_trans; [apply perm_swap|]. apply perm_skip. exact IH.
    + apply Permutation_refl.
Qed.

Lemma insert_by_descending (x : A) (l : list A) :
  P x -> Forall P l -> descending key l -> descending key (insert_by cmp x l).
Proof.
  unfold descending. intros Px HP Hs. revert HP.
  induction Hs as [|y r Hr IH Hy]; intros HP; cbn [insert_by].
  - constructor; constructor.
  - inversion HP as [|? ? Py HPr]; subst.
    destruct (Z.leb_spec (cmp y x) 0) as [Hle|Hgt];
      rewrite (cmp_key y x Py Px) in *.
    + constructor; [exact (IH HPr)|].
      apply Forall_forall. intros z Hz.
      apply (Permutation_in _ (Permutation_sym (insert_by_perm x r))) in Hz.
      destruct Hz as [<-|Hz]; [lia|].
      rewrite Forall_forall in Hy. apply Hy, Hz.
    + constructor; [constructor; assumption|].
      constructor; [lia|].
      rewrite Forall_forall in Hy |- *. intros z Hz.
      specialize (Hy z Hz). lia.
Qed.

Lemma Array_sort_perm (l : list A) : Permutation l (Array_sort cmp l).
Proof.
  unfold Array_sort.
  assert (H : forall l acc,
             Permutation (l ++ acc)
               (fold_left (fun acc x => insert_by cmp x acc) l acc)).
  { clear l. induction l as [|x r IH]; intros acc; cbn [fold_left app].
    - apply Permutation_refl.
    - eapply perm_trans; [|apply IH].
      eapply perm_trans; [apply Permutation_middle|].
      apply Permutation_app_head. apply insert_by_perm. }
  specialize (H l []). rewrite app_nil_r in H. exact H.
Qed.

Lemma Array_sort_descending (l : list A) :
  Forall P l -> descending key (Array_sort cmp l).
Proof.
  unfold Array_sort. intros HP.
  assert (H : forall l acc,
             Forall P l -> Forall P acc -> descending key acc ->
             descending key (fold_left (fun acc x => insert_by cmp x acc) l acc)).
  { clear l HP. induction l as [|x r IH]; intros acc Hl Hacc Hs;
      cbn [fold_left].
    - exact Hs.
    - inversion Hl as [|? ? Px Hr]; subst.
      apply IH; [exact Hr| |apply insert_by_descending; assumption].
      apply (Permutation_Forall (insert_by_perm x acc)).
      constructor; assumption. }
  apply H; [exact HP | constructor | constructor].
Qed.

End SortFacts.

Section RankingFacts.
Import JSDate JS Astronomy.
Local Open Scope R_scope.

Variable ToNumber : string -> Number.

Lemma rank_entry_visible (lat lstime limitingMag : R) (obj : CatalogObject) :
  isVisible (rank_entry ToNumber lat lstime limitingMag obj) = true ->
  above_horizon (rank_entry ToNumber lat lstime limitingMag obj).
Proof.
  unfold rank_entry, above_horizon.
  repeat match goal with
         | |- context [match ?x with _ => _ end] => destruct x
         end;
    cbn [isVisible currentAltitude visibilityScore]; intros H;
    try discriminate;
    (split; [eexists; split; [reflexivity | apply lt_spec; exact H]
            | eexists; reflexivity]).
Qed.

Lemma by_score_key (x y : Ranked) :
  above_horizon x -> above_horizon y ->
  by_score x y = (score_of y - score_of x)%Z.
Proof.
  intros [_ [sx Hx]] [_ [sy Hy]]. unfold by_score, score_of.
  rewrite Hx, Hy. reflexivity.
Qed.

Lemma StronglySorted_on {A : Type} (P : A -> Prop) (R1 R2 : A -> A -> Prop)
    (l : list A) :
  (forall x y, P x -> P y -> R1 x y -> R2 x y) ->
  Forall P l -> StronglySorted R1 l -> StronglySorted R2 l.
Proof.
  intros Himp HP Hs. induction Hs as [|x r Hr IH Hx].
  - constructor.
  - inversion HP as [|? ? Px HPr]; subst. constructor; [exact (IH HPr)|].
    rewrite Forall_forall in Hx, HPr |- *. intros y Hy.
    apply Himp; [exact Px | apply HPr, Hy | apply Hx, Hy].
Qed.

(** C6.  The list [rankObjectsByVisibility] returns is a rearrangement of
    the entries that pass the filter; none of its entries has a
    [currentAltitude] at or below 0 (each has an altitude, and it is above
    0); and its entries come in descending order of [visibilityScore]
    (every entry has a score, and no entry is followed by one with a larger
    score). *)
Theorem ranking_filtered_and_sorted (objects : list CatalogObject)
    (lat lon : R) (date : Z) (limitingMag : R) :
  let out := rankObjectsByVisibility ToNumber objects lat lon date limitingMag in
  Permutation
    (filter isVisible
       (map (rank_entry ToNumber lat (lst (dateToJulian date) lon) limitingMag)
            objects)) out /\
  Forall (fun e => exists a : R, currentAltitude e = Some a /\ 0 < a) out /\
  StronglySorted
    (fun e1 e2 =>
       exists s1 s2 : Z,
         visibilityScore e1 = Some s1 /\ visibilityScore e2 = Some s2 /\
         (s2 <= s1)%Z) out.
Proof.
  intros out. unfold rankObjectsByVisibility in out. cbv zeta in out.
  set (entries := filter isVisible _) in out.
  assert (Hentries : Forall above_horizon entries).
  { apply Forall_forall. intros e He. unfold entries in He.
    apply filter_In in He as [Hin Hvis].
    apply in_map_iff in Hin as (obj & <- & _).
    apply rank_entry_visible. exact Hvis. }
  assert (Hperm : Permutation entries out) by apply Array_sort_perm.
  assert (Hout : Forall above_horizon out)
    by (apply (Permutation_Forall Hperm); exact Hentries).
  split; [exact Hperm|]. split.
  - apply (Forall_impl _ (P := above_horizon)); [|exact Hout].
    intros e [Ha _]. exact Ha.
  - apply (StronglySorted_on above_horizon
             (fun x y => (score_of y <= score_of x)%Z)); [|exact Hout|].
    + intros x y [_ [sx Hx]] [_ [sy Hy]] Hle. exists sx, sy.
      unfold score_of in Hle. rewrite Hx, Hy in Hle. auto.
    + apply (Array_sort_descending by_score score_of above_horizon
               by_score_key entries Hentries).
Qed.

End RankingFacts.

(** ** Domain-excluded requests *)

Section PlanetFacts.
Import JSDate JS Astronomy.
Local Open Scope R_scope.

Lemma planet_position_earth (planetName : string) (date : Z) :
  toLowerCase planetName = "earth"%string ->
  calculatePlanetPosition planetName date = None.
Proof.
  intros H. unfold calculatePlanetPosition. rewrite H. reflexivity.
Qed.

Lemma opposition_inferior (planetName : string) (startDate : Z) (planet : Planet) :
  lookup (toLowerCase planetName) PLANETS = Some planet ->
  a planet < 1 ->
  calculateNextPlanetaryEvent planetName startDate "opposition" = None.
Proof.
  intros Hl Ha. unfold calculateNextPlanetaryEvent. rewrite Hl.
  rewrite (lt_true _ _ Ha). reflexivity.
Qed.

(** The inferior planets of [PLANETS] are Mercury and Venus. *)
Lemma inferior_planets (key : string) (planet : Planet) :
  lookup key PLANETS = Some planet ->
  (a planet < 1 <-> key = "mercury"%string \/ key = "venus"%string).
Proof.
  unfold PLANETS. cbn [lookup].
  repeat match goal with
         | |- context [String.eqb key ?k] =>
           destruct (String.eqb_spec key k) as [->|?]
         end;
    intros H; try discriminate; injection H as <-; cbn [a];
    (split; [intros Hlt; try lra; auto | intros [E|E]; try discriminate E; try lra; try congruence]).
Qed.

(** C8.  Requests outside the domain return [null]: whatever the date,
    [calculatePlanetPosition] returns [null] for every name that is "earth"
    once put in lower case; and whatever the start date,
    [calculateNextPlanetaryEvent] with event ['opposition'] returns [null]
    for every name of a planet of [PLANETS] whose semi-major axis is below
    1 AU. *)
Theorem domain_excluded_requests_return_null :
  (forall (planetName : string) (date : Z),
     toLowerCase planetName = "earth"%string ->
     calculatePlanetPosition planetName date = None) /\
  (forall (planetName : string) (startDate : Z) (planet : Planet),
     lookup (toLowerCase planetName) PLANETS = Some planet ->
     a planet < 1 ->
     calculateNextPlanetaryEvent planetName startDate "opposition" = None).
Proof.
  split.
  - exact planet_position_earth.
  - exact opposition_inferior.
Qed.

(** The theorem on "EaRtH" and on "Venus", on 2000-01-01T12:00:00Z. *)
Lemma domain_excluded_requests_return_null_witness :
  calculatePlanetPosition "EaRtH" 946728000000 = None /\
  calculateNextPlanetaryEvent "Venus" 946728000000 "opposition" = None /\
  calculateNextPlanetaryEvent "MERCURY" 946728000000 "opposition" = None.
Proof.
  destruct domain_excluded_requests_return_null as [Hearth Hinf].
  split; [|split].
  - apply Hearth. reflexivity.
  - eapply Hinf; [reflexivity|]. cbn [a]. lra.
  - eapply Hinf; [reflexivity|]. cbn [a]. lra.
Defined.

End PlanetFacts.

(** ** Coordinate parsing *)

Section ParseFacts.
Import Coordinates.
Local Open Scope string_scope.

Lemma append_nil_r_string (s : string) : s ++ "" = s.
Proof. induction s as [|c r IH]; cbn [append]; [reflexivity | now rewrite IH]. Qed.

Lemma all_chars_app (p : ascii -> bool) (s t : string) :
  all_chars p (s ++ t) = all_chars p s && all_chars p t.
Proof.
  induction s as [|c r IH]; cbn [all_chars append]; [reflexivity|].
  rewrite IH, andb_assoc. reflexivity.
Qed.

Lemma take_while_all (p : ascii -> bool) (s r : string) :
  all_chars p s = true ->
  match r with EmptyString => true | String c _ => negb (p c) end = true ->
  take_while p (s ++ r) = (s, r).
Proof.
  intros Hs Hr. induction s as [|c t IH]; cbn [append].
  - destruct r as [|c t]; [reflexivity|]. cbn [take_while].
    apply negb_true_iff in Hr. rewrite Hr. reflexivity.
  - cbn [all_chars] in Hs. apply andb_true_iff in Hs as [Hc Ht].
    cbn [take_while]. rewrite Hc, (IH Ht). reflexivity.
Qed.

Lemma rev_append_app (s t acc : string) :
  rev_append (s ++ t) acc = rev_append t (rev_append s acc).
Proof.
  revert acc. induction s as [|c r IH]; intros acc; cbn [append rev_append];
    [reflexivity | apply IH].
Qed.

Lemma rev_append_twice (s a b : string) :
  rev_append (rev_append s a) b = rev_append a (s ++ b).
Proof.
  revert a b. induction s as [|c r IH]; intros a b; cbn [rev_append append].
  - reflexivity.
  - rewrite IH. reflexivity.
Qed.

Lemma all_chars_rev_append (p : ascii -> bool) (s acc : string) :
  all_chars p s = true -> all_chars p acc = true ->
  all_chars p (rev_append s acc) = true.
Proof.
  revert acc. induction s as [|c r IH]; intros acc Hs Hacc; cbn [rev_append].
  - exact Hacc.
  - cbn [all_chars] in Hs. apply andb_true_iff in Hs as [Hc Hr].
    apply IH; [exact Hr|]. cbn [all_chars]. rewrite Hc, Hacc. reflexivity.
Qed.

Lemma take_while_none (p : ascii -> bool) (s : string) :
  all_chars (fun c => negb (p c)) s = true -> take_while p s = ("", s).
Proof.
  destruct s as [|c r]; cbn [all_chars take_while]; [reflexivity|].
  intros H. apply andb_true_iff in H as [Hc _].
  apply negb_true_iff in Hc. rewrite Hc. reflexivity.
Qed.

(** [trim] leaves a string without white space as it is. *)
Lemma trim_no_space (s : string) : all_chars not_space s = true -> trim s = s.
Proof.
  intros H. unfold trim.
  rewrite (take_while_none is_space s H). cbn [snd].
  rewrite (take_while_none is_space (rev_append s ""))
    by (apply all_chars_rev_append; [exact H | reflexivity]).
  cbn [snd]. rewrite rev_append_twice. cbn [rev_append].
  induction s as [|c r IH]; cbn [append]; [reflexivity|].
  f_equal. apply IH. cbn [all_chars] in H.
  apply andb_true_iff in H as [_ Hr]. exact Hr.
Qed.

Lemma digits_no_space (s : string) :
  digits s = true -> all_chars not_space s = true.
Proof.
  unfold digits. induction s as [|c r IH]; cbn [all_chars]; [reflexivity|].
  intros H. apply andb_true_iff in H as [Hc Hr]. rewrite (IH Hr), andb_true_r.
  unfold not_space, is_space, is_digit in *.
  destruct (nat_of_ascii c =? 32)%nat eqn:E32;
    destruct (9 <=? nat_of_ascii c)%nat eqn:E9;
    destruct (nat_of_ascii c <=? 13)%nat eqn:E13;
    destruct (48 <=? nat_of_ascii c)%nat eqn:E48;
    destruct (nat_of_ascii c <=? 57)%nat eqn:E57;
    try reflexivity; try discriminate;
    rewrite ?Nat.eqb_eq, ?Nat.leb_le, ?Nat.leb_gt in *; lia.
Qed.

Lemma match_decimal_form (sign ds : string) (frac : option string) (deg : bool) :
  is_sign_text sign ->
  digits ds = true -> ds <> "" ->
  (forall fs, frac = Some fs -> digits fs = true) ->
  match_decimal (sign ++ ds ++ frac_text frac ++ deg_text deg) =
  Some (sign ++ ds ++ frac_text frac).
Proof.
  intros Hsign Hds Hne Hfrac. unfold match_decimal.
  assert (Hhead : take_opt is_sign (sign ++ ds ++ frac_text frac ++ deg_text deg)
                  = (sign, ds ++ frac_text frac ++ deg_text deg)).
  { destruct ds as [|c r]; [contradiction|].
    cbn [digits all_chars] in Hds. apply andb_true_iff in Hds as [Hc _].
    destruct Hsign as [-> | [-> | ->]]; cbn [append take_opt]; try reflexivity.
    replace (is_sign c) with false; [reflexivity|].
    unfold is_digit in Hc. unfold is_sign.
    destruct (Ascii.eqb_spec c "+") as [->|_]; [discriminate Hc|].
    destruct (Ascii.eqb_spec c "-") as [->|_]; [discriminate Hc|].
    reflexivity. }
  rewrite Hhead.
  assert (Hnum : take_number (ds ++ frac_text frac ++ deg_text deg)
                 = Some (ds ++ frac_text frac, deg_text deg)).
  { unfold take_number.
    rewrite (take_while_all is_digit ds (frac_text frac ++ deg_text deg) Hds)
      by (destruct frac, deg; reflexivity).
    replace (is_empty ds) with false by (destruct ds; [contradiction|reflexivity]).
    destruct frac as [fs|].
    - cbn [frac_text append take_opt]. change (is_dot ".") with true. cbv iota.
      rewrite (take_while_all is_digit fs (deg_text deg) (Hfrac fs eq_refl))
        by (destruct deg; reflexivity).
      reflexivity.
    - cbn [frac_text append].
      assert (E1 : take_opt is_dot (deg_text deg) = ("", deg_text deg))
        by (destruct deg; vm_compute; reflexivity).
      assert (E2 : take_while is_digit (deg_text deg) = ("", deg_text deg))
        by (destruct deg; vm_compute; reflexivity).
      rewrite E1, E2. cbn [append]. reflexivity. }
  rewrite Hnum. destruct deg; reflexivity.
Qed.

Lemma decimal_text_no_space (sign ds : string) (frac : option string)
    (deg : bool) :
  is_sign_text sign ->
  digits ds = true ->
  (forall fs, frac = Some fs -> digits fs = true) ->
  all_chars not_space (sign ++ ds ++ frac_text frac ++ deg_text deg) = true.
Proof.
  intros Hsign Hds Hfrac. rewrite !all_chars_app.
  rewrite (digits_no_space ds Hds).
  assert (H1 : all_chars not_space sign = true)
    by (destruct Hsign as [-> | [-> | ->]]; reflexivity).
  assert (H2 : all_chars not_space (frac_text frac) = true).
  { destruct frac as [fs|]; [|reflexivity].
    cbn [frac_text append all_chars].
    rewrite (digits_no_space fs (Hfrac fs eq_refl)). reflexivity. }
  assert (H3 : all_chars not_space (deg_text deg) = true)
    by (destruct deg; reflexivity).
  rewrite H1, H2, H3. reflexivity.
Qed.

(** C10.  The decimal-degree branch of [parseCoordinate] validates no
    range and converts no unit, whatever the type: a string made of an
    optional sign, digits, an optional dot with digits and an optional degree
    sign yields the [parseFloat] of the signed number as it is.  So
    "999" parses to 999 as a declination, outside [-90, 90], and for type
    'ra' a bare decimal stays in degrees: "12.5" parses to 12.5, not to
    187.5 (which "12.5h" gives), and "400" to 400, not brought back into
    [0, 360). *)
Theorem parse_decimal_unchecked :
  (forall (sign ds : string) (frac : option string) (deg : bool) (type : string),
     is_sign_text sign ->
     digits ds = true -> ds <> "" ->
     (forall fs, frac = Some fs -> digits fs = true) ->
     parseCoordinate (sign ++ ds ++ frac_text frac ++ deg_text deg) type =
     Some (parseFloat (sign ++ ds ++ frac_text frac))) /\
  (parseCoordinate "999" "dec" = Some 999%Q /\ ~ (-90 <= 999 <= 90)%Q) /\
  (parseCoordinate "12.5" "ra" = Some 12.5%Q /\
   parseCoordinate "12.5h" "ra" = Some 187.5%Q) /\
  (parseCoordinate "400" "ra" = Some 400%Q /\ ~ (400 < 360)%Q) /\
  parseCoordinate "-41.5°" "dec" = Some (-41.5)%Q.
Proof.
  split; [|repeat split; try (vm_compute; reflexivity)].
  - intros sign ds frac deg type Hsign Hds Hne Hfrac.
    unfold parseCoordinate.
    rewrite trim_no_space by (apply decimal_text_no_space; assumption).
    rewrite match_decimal_form by assumption. reflexivity.
  - intros [_ H]. vm_compute in H. apply H. reflexivity.
  - intros H. vm_compute in H. discriminate H.
Qed.

(** The theorem on the text "+41.25" followed by a degree sign, as a
    right ascension. *)
Lemma parse_decimal_unchecked_witness :
  parseCoordinate ("+" ++ "41" ++ frac_text (Some "25") ++ deg_text true) "ra" =
  Some (parseFloat ("+" ++ "41" ++ frac_text (Some "25"))).
Proof.
  apply (proj1 parse_decimal_unchecked).
  - right; left; reflexivity.
  - reflexivity.
  - discriminate.
  - intros fs H. injection H as <-. reflexivity.
Defined.

End ParseFacts.

(** ** Kepler's equation *)

(** The loop of [calculateHeliocentricPosition] is Newton's method on
    [x - e sin x - m], in degrees.  Over a half turn that function is
    increasing and convex: at or above its root a step stays above the root
    and squares the distance to it, and a step from below lands above.  The
    starting value is within 0.9 of the root when above it, and the first
    step lands within 0.917 of it when below, which leaves nine squarings
    to come under the threshold. *)

Section KeplerFacts.
Import JS Astronomy.
Local Open Scope R_scope.

(** One pass of the loop, and the loop as [calculateHeliocentricPosition]
    starts it. *)
Lemma kepler_loop_pass (n : nat) (ecc M E : R) :
  kepler_loop (S n) ecc M E =
  if lt (Rabs (kepler_dE ecc M E)) 0.0001 then E + kepler_dE ecc M E
  else kepler_loop n ecc M (E + kepler_dE ecc M E).
Proof. reflexivity. Qed.

(** *** Sines and cosines against polynomials *)

Lemma INR_fact_values :
  INR (fact 1) = 1 /\ INR (fact 3) = 6 /\ INR (fact 5) = 120 /\
  INR (fact 7) = 5040 /\ INR (fact 9) = 362880.
Proof.
  assert (S : forall n, INR (fact (S n)) = (INR n + 1) * INR (fact n)).
  { intros n. rewrite fact_simpl, mult_INR, S_INR. reflexivity. }
  assert (F0 : INR (fact 0) = 1) by reflexivity.
  repeat split; repeat rewrite S; rewrite F0; cbn [INR]; lra.
Qed.

Lemma sin_lb_value (a : R) :
  sin_lb a = a - a ^ 3 / 6 + a ^ 5 / 120 - a ^ 7 / 5040.
Proof.
  destruct INR_fact_values as (F1 & F3 & F5 & F7 & _).
  unfold sin_lb, sin_approx, sin_term.
  cbn [sum_f_R0 Nat.mul Nat.add].
  rewrite F1, F3, F5, F7. field.
Qed.

Lemma sin_ub_value (a : R) :
  sin_ub a = a - a ^ 3 / 6 + a ^ 5 / 120 - a ^ 7 / 5040 + a ^ 9 / 362880.
Proof.
  destruct INR_fact_values as (F1 & F3 & F5 & F7 & F9).
  unfold sin_ub, sin_approx, sin_term.
  cbn [sum_f_R0 Nat.mul Nat.add].
  rewrite F1, F3, F5, F7, F9. field.
Qed.

Lemma PI_gt_3 : 3 < PI.
Proof. pose proof PI2_3_2. lra. Qed.

Lemma sin_values :
  0.2955 <= sin 0.3 /\ 0.5646 <= sin 0.6 /\
  sin 0.823 <= 0.7333 /\ sin 1.123 <= 0.9015.
Proof.
  pose proof PI_gt_3 as Hpi.
  repeat split.
  - destruct (SIN 0.3) as [H1 _]; [lra | lra |].
    rewrite sin_lb_value in H1. lra.
  - destruct (SIN 0.6) as [H1 _]; [lra | lra |].
    rewrite sin_lb_value in H1. lra.
  - destruct (SIN 0.823) as [_ H1]; [lra | lra |].
    rewrite sin_ub_value in H1. lra.
  - destruct (SIN 1.123) as [_ H1]; [lra | lra |].
    rewrite sin_ub_value in H1. lra.
Qed.

(** [1 - cos t] and [t - sin t] against their leading terms. *)
Lemma one_minus_cos (t : R) :
  0 <= t <= 1 -> 0 <= 1 - cos t <= t ^ 2 / 2.
Proof.
  intros Ht. pose proof PI_gt_3 as Hpi.
  replace t with (2 * (t / 2)) at 1 2 by field.
  rewrite cos_2a_sin.
  assert (H0 : 0 <= sin (t / 2)) by (apply sin_ge_0; lra).
  assert (H1 : sin (t / 2) <= t / 2).
  { destruct (Req_dec t 0) as [->|Hn].
    - replace (0 / 2) with 0 by field. rewrite sin_0. lra.
    - left. apply sin_lt_x. lra. }
  nra.
Qed.

Lemma t_minus_sin (t : R) :
  0 <= t <= 1 -> 0 <= t - sin t <= t ^ 3 / 6.
Proof.
  intros Ht. pose proof PI_gt_3 as Hpi.
  split.
  - destruct (Req_dec t 0) as [->|Hn].
    + rewrite sin_0. lra.
    + pose proof (sin_lt_x t). lra.
  - destruct (SIN t) as [H1 _]; [lra | lra |].
    rewrite sin_lb_value in H1.
    assert (H2 : 0 <= t ^ 5 / 120 - t ^ 7 / 5040).
    { replace (t ^ 5 / 120 - t ^ 7 / 5040)
        with (t ^ 5 * ((42 - t ^ 2) / 5040)) by field.
      apply Rmult_le_pos; [apply pow_le; lra | nra]. }
    lra.
Qed.

Lemma sin_mean_value (a b : R) :
  a < b -> exists c : R, a < c < b /\ sin b - sin a = cos c * (b - a).
Proof.
  intros Hab.
  destruct (MVT_cor2 sin cos a b Hab) as (c & Hc & Hin).
  - intros c _. apply derivable_pt_lim_sin.
  - exists c. split; assumption.
Qed.

(** *** Newton's method on Kepler's equation, in radians *)

Section Radians.
Variables e m : R.
Hypothesis He : 0 <= e < 0.9.

Lemma denominator_positive (x : R) : 0.1 < 1 - e * cos x.
Proof. pose proof (COS_bound x) as [_ H]. nra. Qed.

Lemma kepler_g_increasing (x y : R) :
  x < y -> kepler_g e m x < kepler_g e m y.
Proof.
  intros Hxy. unfold kepler_g.
  destruct (sin_mean_value x y Hxy) as (c & _ & Hc).
  pose proof (COS_bound c) as [_ H].
  assert (0 < (y - x) * (1 - e * cos c)) by (apply Rmult_lt_0_compat; nra).
  nra.
Qed.

Lemma kepler_g_monotone (x y : R) :
  x <= y -> kepler_g e m x <= kepler_g e m y.
Proof.
  intros [H| ->]; [left; apply kepler_g_increasing; exact H | right; reflexivity].
Qed.

Lemma kepler_g_reflects (x y : R) :
  kepler_g e m x <= kepler_g e m y -> x <= y.
Proof.
  intros H. destruct (Rle_or_lt x y) as [Hle|Hlt]; [exact Hle|].
  pose proof (kepler_g_increasing y x Hlt). lra.
Qed.

(** The ratio of the second to the first derivative of Kepler's function. *)
Lemma ratio_bound (x : R) : e * sin x <= 2.0652 * (1 - e * cos x).
Proof.
  pose proof (sin2_cos2 x) as H. unfold Rsqr in H.
  set (s := sin x) in *. set (c := cos x) in *.
  assert (Hw : (s + 2.0652 * c) * (s + 2.0652 * c) <= 5.26506).
  { pose proof (Rle_0_sqr (2.0652 * s - c)) as Hsq. unfold Rsqr in Hsq. nra. }
  destruct (Rle_or_lt (e * (s + 2.0652 * c)) 2.0652) as [Hle|Hgt]; [lra|].
  exfalso.
  assert (Hpos : 0 < s + 2.0652 * c) by nra.
  assert (Hbig : 2.2946 < s + 2.0652 * c) by nra.
  nra.
Qed.

Lemma div_le_bound (n d b : R) : 0 < d -> n <= b * d -> n / d <= b.
Proof.
  intros Hd H. apply (Rmult_le_reg_r d); [exact Hd|].
  replace (n / d * d) with n by (field; lra). exact H.
Qed.

Lemma div_nonneg (n d : R) : 0 < d -> 0 <= n -> 0 <= n / d.
Proof.
  intros Hd H. apply Rmult_le_pos; [exact H|]. left. apply Rinv_0_lt_compat, Hd.
Qed.

(** The error after a Newton step, [r] being the root. *)
Lemma newton_error (x r : R) :
  kepler_g e m r = 0 ->
  x + newton_step e m x - r =
  e * (sin x - sin r - (x - r) * cos x) / (1 - e * cos x).
Proof.
  intros Hr. pose proof (denominator_positive x) as Hd.
  assert (Em : m = r - e * sin r) by (unfold kepler_g in Hr; lra).
  unfold newton_step. rewrite Em. field. lra.
Qed.

(** A step taken at or above the root, within the half turn where Kepler's
    function is convex, stays at or above the root, moves down, and squares
    the error. *)
Lemma from_above_step (x r : R) :
  kepler_g e m r = 0 ->
  0 <= r <= x -> x <= PI -> x - r <= 1 ->
  r <= x + newton_step e m x <= x /\
  x + newton_step e m x - r <= 1.0326 * (x - r) ^ 2.
Proof.
  intros Hr Hrx Hx Ht.
  assert (Hd : 0 < 1 - e * cos x) by (pose proof (denominator_positive x); lra).
  pose proof (newton_error x r Hr) as Herr.
  set (t := x - r) in *.
  set (D := sin x - sin r - t * cos x) in *.
  assert (Ht0 : 0 <= t <= 1) by (unfold t in *; lra).
  assert (HD0 : 0 <= D).
  { unfold D. destruct (Req_dec t 0) as [E0|Hn].
    - assert (r = x) by (unfold t in E0; lra). subst r. rewrite E0. lra.
    - destruct (sin_mean_value r x) as (c & Hc & Hmv); [unfold t in *; lra|].
      assert (Hcos : cos x <= cos c) by (apply cos_decr_1; lra).
      fold t in Hmv. nra. }
  assert (HDt : D = sin x * (1 - cos t) + cos x * (sin t - t)).
  { unfold D. replace r with (x - t) by (unfold t; ring).
    rewrite sin_minus. ring. }
  pose proof (one_minus_cos t Ht0) as Hc1.
  pose proof (t_minus_sin t Ht0) as Hs1.
  assert (Hsx : 0 <= sin x <= 1).
  { split; [apply sin_ge_0; lra | apply SIN_bound]. }
  assert (Hup : e * D <= 1.0326 * t ^ 2 * (1 - e * cos x)).
  { pose proof (COS_bound x) as [Hcl Hcu].
    assert (Ht2 : 0 <= t ^ 2) by nra.
    destruct (Rle_or_lt 0 (cos x)) as [Hpos|Hneg].
    - pose proof (ratio_bound x) as Hrb.
      assert (H1 : D <= sin x * (t ^ 2 / 2)) by (rewrite HDt; nra).
      assert (H2 : e * D <= e * sin x * (t ^ 2 / 2)) by nra.
      assert (H3 : e * sin x * (t ^ 2 / 2) <=
                   2.0652 * (1 - e * cos x) * (t ^ 2 / 2)).
      { apply Rmult_le_compat_r; [lra | exact Hrb]. }
      lra.
    - assert (H1 : D <= t ^ 2 / 2 + t ^ 3 / 6) by (rewrite HDt; nra).
      assert (H2 : t ^ 3 <= t ^ 2) by nra.
      assert (H3 : e * D <= 0.6 * t ^ 2) by nra.
      assert (H4 : 1 <= 1 - e * cos x) by nra.
      nra. }
  assert (Hstep : newton_step e m x <= 0).
  { unfold newton_step.
    pose proof (kepler_g_monotone r x (proj2 Hrx)) as Hg.
    rewrite Hr in Hg. unfold kepler_g in Hg.
    assert (Hn : 0 <= - (m - x + e * sin x)) by lra.
    pose proof (div_nonneg _ _ Hd Hn) as Hq.
    replace ((m - x + e * sin x) / (1 - e * cos x))
      with (- (- (m - x + e * sin x) / (1 - e * cos x))) by (field; lra).
    lra. }
  assert (Hge : 0 <= e * D / (1 - e * cos x)).
  { apply div_nonneg; [exact Hd | apply Rmult_le_pos; lra]. }
  assert (Hle : e * D / (1 - e * cos x) <= 1.0326 * t ^ 2).
  { apply div_le_bound; [exact Hd | exact Hup]. }
  repeat split; lra.
Qed.

(** A step taken below the root lands at or above it, by a distance that
    is of second order in the distance before the step. *)
Lemma from_below_step (x r : R) :
  kepler_g e m r = 0 ->
  0 <= x <= r -> r <= PI -> r - x <= 1 ->
  r <= x + newton_step e m x /\
  x + newton_step e m x - r <= 1.0326 * (r - x) ^ 2 + 1.5 * (r - x) ^ 3.
Proof.
  intros Hr Hxr Hrpi Hs.
  assert (Hd : 0 < 1 - e * cos x) by (pose proof (denominator_positive x); lra).
  pose proof (newton_error x r Hr) as Herr.
  set (s := r - x) in *.
  set (D := sin x - sin r - (x - r) * cos x) in *.
  assert (Hs0 : 0 <= s <= 1) by (unfold s in *; lra).
  assert (HD0 : 0 <= D).
  { unfold D. destruct (Req_dec s 0) as [E0|Hn].
    - assert (r = x) by (unfold s in E0; lra). subst r.
      replace (x - x) with 0 by ring. lra.
    - destruct (sin_mean_value x r) as (c & Hc & Hmv); [unfold s in *; lra|].
      assert (Hcos : cos c <= cos x) by (apply cos_decr_1; lra).
      fold s in Hmv. replace (x - r) with (- s) by (unfold s; ring). nra. }
  assert (HDs : D = sin x * (1 - cos s) + cos x * (s - sin s)).
  { unfold D. replace (x - r) with (- s) by (unfold s; ring).
    replace r with (x + s) by (unfold s; ring).
    rewrite sin_plus. ring. }
  pose proof (one_minus_cos s Hs0) as Hc1.
  pose proof (t_minus_sin s Hs0) as Hs1.
  assert (Hsx : 0 <= sin x <= 1).
  { split; [apply sin_ge_0; lra | apply SIN_bound]. }
  assert (Hup : e * D <=
                (1.0326 * s ^ 2 + 1.5 * s ^ 3) * (1 - e * cos x)).
  { pose proof (COS_bound x) as [Hcl Hcu].
    assert (Hs2 : 0 <= s ^ 2) by nra.
    assert (Hs3 : 0 <= s ^ 3) by (apply pow_le; lra).
    destruct (Rle_or_lt 0 (cos x)) as [Hpos|Hneg].
    - pose proof (ratio_bound x) as Hrb.
      assert (H1 : e * (sin x * (1 - cos s)) <=
                   2.0652 * (1 - e * cos x) * (s ^ 2 / 2)).
      { replace (e * (sin x * (1 - cos s)))
          with (e * sin x * (1 - cos s)) by ring.
        apply Rmult_le_compat; try lra.
        apply Rmult_le_pos; lra. }
      assert (H2 : e * cos x <= 9 * (1 - e * cos x)) by nra.
      assert (H3 : e * (cos x * (s - sin s)) <=
                   9 * (1 - e * cos x) * (s ^ 3 / 6)).
      { replace (e * (cos x * (s - sin s)))
          with (e * cos x * (s - sin s)) by ring.
        apply Rmult_le_compat; try lra.
        apply Rmult_le_pos; lra. }
      rewrite HDs. lra.
    - assert (H1 : D <= s ^ 2 / 2) by (rewrite HDs; nra).
      assert (H3 : e * D <= 0.45 * s ^ 2) by nra.
      assert (H4 : 1 <= 1 - e * cos x) by nra.
      nra. }
  assert (Hge : 0 <= e * D / (1 - e * cos x)).
  { apply div_nonneg; [exact Hd | apply Rmult_le_pos; lra]. }
  assert (Hle : e * D / (1 - e * cos x) <= 1.0326 * s ^ 2 + 1.5 * s ^ 3).
  { apply div_le_bound; [exact Hd | exact Hup]. }
  split; lra.
Qed.

Hypothesis Hm : 0 <= m <= PI.

(** Kepler's equation has a root between [m] and [m + e], within the half
    turn. *)
Lemma kepler_root :
  exists r : R, kepler_g e m r = 0 /\ m <= r <= PI /\ r <= m + e.
Proof.
  assert (Hc : continuity (kepler_g e m)).
  { unfold kepler_g. reg. }
  assert (Hs : 0 <= sin m) by (apply sin_ge_0; lra).
  destruct (IVT_cor (kepler_g e m) m PI Hc) as (r & Hr & Hg).
  - lra.
  - unfold kepler_g. rewrite sin_PI.
    assert (H1 : m - e * sin m - m <= 0) by nra.
    assert (H2 : 0 <= PI - e * 0 - m) by lra.
    nra.
  - exists r. split; [exact Hg|]. split; [exact Hr|].
    assert (Hsr : sin r <= 1) by apply SIN_bound.
    unfold kepler_g in Hg. nra.
Qed.

(** The starting value of the loop lies between [m] and the half turn. *)
Lemma start_range : m <= m + e * sin m <= PI.
Proof.
  assert (Hs : 0 <= sin m) by (apply sin_ge_0; lra).
  assert (Hs' : sin m <= PI - m).
  { rewrite <- (sin_PI_x m).
    destruct (Req_dec (PI - m) 0) as [E0|Hn].
    - rewrite E0, sin_0. lra.
    - left. apply sin_lt_x. lra. }
  split; nra.
Qed.

(** Started at or above the root, the loop is within 0.9 of it. *)
Lemma start_above (r : R) :
  kepler_g e m r = 0 -> m <= r <= PI ->
  0 <= kepler_g e m (m + e * sin m) ->
  0 <= r <= m + e * sin m /\ m + e * sin m - r <= 0.9.
Proof.
  intros Hr Hrm Hg.
  assert (Hle : r <= m + e * sin m).
  { apply kepler_g_reflects. rewrite Hr. exact Hg. }
  assert (Hs : sin m <= 1) by apply SIN_bound.
  assert (Hs0 : 0 <= sin m) by (apply sin_ge_0; lra).
  split; [lra | nra].
Qed.

(** Started below the root, the first step lands above it, within 0.917 of
    it and within the half turn. *)
Lemma start_below (r : R) :
  kepler_g e m r = 0 -> m <= r <= PI -> r <= m + e ->
  kepler_g e m (m + e * sin m) < 0 ->
  let x0 := m + e * sin m in
  let x1 := x0 + newton_step e m x0 in
  0 <= r <= x1 /\ x1 <= PI /\ x1 - r <= 0.917.
Proof.
  intros Hr Hrm Hre Hg x0 x1.
  pose proof PI_gt_3 as Hpi.
  pose proof start_range as Hx0. fold x0 in Hx0.
  destruct sin_values as (S03 & S06 & S0823 & S1123).
  assert (Hlt : x0 < r).
  { destruct (Rle_or_lt r x0) as [Hle|Hlt]; [|exact Hlt].
    pose proof (kepler_g_monotone r x0 Hle) as H. fold x0 in Hg. lra. }
  assert (Hsm : 0 <= sin m <= 1).
  { split; [apply sin_ge_0; lra | apply SIN_bound]. }
  assert (Hsr : 0 <= sin r <= 1).
  { split; [apply sin_ge_0; lra | apply SIN_bound]. }
  (* below the quarter turn *)
  assert (Hm2 : m < PI / 2).
  { destruct (Rle_or_lt (PI / 2) m) as [Hge|Hlt']; [|exact Hlt'].
    exfalso.
    assert (Hd : sin x0 <= sin m) by (apply sin_decr_1; lra).
    fold x0 in Hg. unfold kepler_g in Hg. unfold x0 in Hg at 1. nra. }
  assert (Er : r = m + e * sin r) by (unfold kepler_g in Hr; lra).
  assert (Es : r - x0 = e * (sin r - sin m)).
  { unfold x0. lra. }
  (* the distance below the root *)
  assert (Hs : r - x0 <= 0.66 /\ (0.6 <= m -> r - x0 <= 0.392)).
  { destruct (Rle_or_lt m 0.3) as [Hsmall|Hbig].
    - split; [|intros; lra].
      assert (Ha : r <= m + 0.823).
      { apply kepler_g_reflects. rewrite Hr. unfold kepler_g.
        assert (H1 : sin (m + 0.823) <= sin 1.123)
          by (apply sin_incr_1; lra).
        assert (H0 : 0 <= sin (m + 0.823)) by (apply sin_ge_0; lra).
        nra. }
      set (a := r - m).
      assert (Ha0 : 0 <= a <= 0.823) by (unfold a; lra).
      assert (Esin : sin r = sin m * cos a + cos m * sin a).
      { replace r with (m + a) at 1 by (unfold a; ring). apply sin_plus. }
      assert (Hsa : 0 <= sin a <= 0.7333).
      { split; [apply sin_ge_0; lra|].
        apply Rle_trans with (sin 0.823); [apply sin_incr_1; lra | exact S0823]. }
      pose proof (COS_bound a) as [_ Hca].
      pose proof (COS_bound m) as [_ Hcm].
      assert (Hd : sin r - sin m <= 0.7333) by (rewrite Esin; nra).
      rewrite Es. nra.
    - assert (H03 : sin 0.3 <= sin m) by (apply sin_incr_1; lra).
      split.
      + rewrite Es. nra.
      + intros H06.
        assert (H06' : sin 0.6 <= sin m) by (apply sin_incr_1; lra).
        rewrite Es. nra. }
  destruct Hs as [Hs66 Hs39].
  destruct (from_below_step x0 r Hr) as [Hge Herr]; [lra | lra | lra |].
  fold x1 in Hge, Herr.
  set (s := r - x0) in *.
  assert (Hs0 : 0 <= s) by (unfold s; lra).
  assert (H1 : x1 - r <= 0.8811).
  { assert (s ^ 2 <= 0.4356) by nra.
    assert (s ^ 3 <= 0.287496).
    { replace (s ^ 3) with (s * s ^ 2) by ring.
      replace 0.287496 with (0.66 * 0.4356) by lra.
      apply Rmult_le_compat; nra. }
    lra. }
  split; [lra|]. split; [|lra].
  destruct (Rle_or_lt m 0.6) as [H06|H06].
  - lra.
  - assert (Hs' : s <= 0.392) by (apply Hs39; lra).
    assert (s ^ 2 <= 0.153664) by nra.
    assert (s ^ 3 <= 0.060236288).
    { replace (s ^ 3) with (s * s ^ 2) by ring.
      replace 0.060236288 with (0.392 * 0.153664) by lra.
      apply Rmult_le_compat; nra. }
    lra.
Qed.

End Radians.
(** *** The loop, in degrees *)

Lemma error_bound_step (j : nat) :
  0 <= error_bound j <= 1 /\ 1.0326 * error_bound (S j) ^ 2 <= error_bound j.
Proof.
  do 9 (destruct j as [|j]; [cbn [error_bound]; lra|]).
  cbn [error_bound]. lra.
Qed.

Lemma toRadians_plus (x y : R) : toRadians (x + y) = toRadians x + toRadians y.
Proof. unfold toRadians. ring. Qed.

Lemma kepler_breaks_more (n : nat) (ecc M E : R) :
  kepler_breaks n ecc M E = true -> kepler_breaks (S n) ecc M E = true.
Proof.
  revert E. induction n as [|n IH]; intros E H; [discriminate H|].
  cbn [kepler_breaks] in H. cbn [kepler_breaks].
  destruct (lt (Rabs (kepler_dE ecc M E)) 0.0001); [reflexivity|].
  apply IH in H. exact H.
Qed.

Section Degrees.
Variables ecc M : R.
Hypothesis He : 0 <= ecc < 0.9.

(** A correction of the loop is a Newton step on Kepler's equation in
    radians. *)
Lemma dE_radians (E : R) :
  toRadians (kepler_dE ecc M E) =
  newton_step ecc (toRadians M) (toRadians E).
Proof.
  pose proof (denominator_positive ecc He (toRadians E)) as Hd.
  pose proof PI_RGT_0 as Hpi.
  unfold kepler_dE, newton_step.
  set (x := toRadians E) in *.
  assert (EE : E = toDegrees x).
  { unfold x, toDegrees, toRadians, RAD_TO_DEG, DEG_TO_RAD. field. lra. }
  rewrite EE at 1.
  unfold toDegrees, toRadians, RAD_TO_DEG, DEG_TO_RAD.
  field. lra.
Qed.

Lemma dE_small (E : R) :
  Rabs (newton_step ecc (toRadians M) (toRadians E)) <= 0.0000016 ->
  lt (Rabs (kepler_dE ecc M E)) 0.0001 = true.
Proof.
  intros H. rewrite <- dE_radians in H.
  pose proof PI_gt_3 as Hpi.
  unfold lt. destruct (Rlt_dec (Rabs (kepler_dE ecc M E)) 0.0001) as [_|Hn];
    [reflexivity|]. exfalso. apply Hn.
  unfold toRadians, DEG_TO_RAD in H.
  rewrite Rabs_mult in H.
  rewrite (Rabs_pos_eq (PI / 180)) in H by lra.
  pose proof (Rabs_pos (kepler_dE ecc M E)) as H0.
  nra.
Qed.

Variable r : R.
Hypothesis Hr : kepler_g ecc (toRadians M) r = 0.

(** At or above the root and within [error_bound j] of it, the loop is left
    within [j + 1] passes. *)
Lemma from_above_breaks (j : nat) (E : R) :
  0 <= r <= toRadians E -> toRadians E <= PI ->
  toRadians E - r <= error_bound j ->
  kepler_breaks (S j) ecc M E = true.
Proof.
  revert E. induction j as [|j IH]; intros E Hx Hpi Ht.
  - cbn [kepler_breaks].
    destruct (from_above_step ecc (toRadians M) He (toRadians E) r Hr)
      as [Hin _]; [lra | lra | cbn [error_bound] in Ht; lra |].
    rewrite dE_small; [reflexivity|].
    cbn [error_bound] in Ht. apply Rabs_le. lra.
  - destruct (error_bound_step (S j)) as [Hb1 _].
    destruct (error_bound_step j) as [_ Hb2].
    destruct (from_above_step ecc (toRadians M) He (toRadians E) r Hr)
      as [Hin Herr]; [lra | lra | lra |].
    change (kepler_breaks (S (S j)) ecc M E)
      with (if lt (Rabs (kepler_dE ecc M E)) 0.0001 then true
            else kepler_breaks (S j) ecc M (E + kepler_dE ecc M E)).
    destruct (lt (Rabs (kepler_dE ecc M E)) 0.0001); [reflexivity|].
    assert (Ex : toRadians (E + kepler_dE ecc M E) =
                 toRadians E + newton_step ecc (toRadians M) (toRadians E))
      by (rewrite toRadians_plus, dE_radians; reflexivity).
    apply IH; rewrite Ex; try lra.
    assert (H2 : (toRadians E - r) ^ 2 <= error_bound (S j) ^ 2).
    { apply pow_incr. lra. }
    lra.
Qed.

End Degrees.

Lemma toRadians_start (ecc M : R) :
  toRadians (kepler_start ecc M) = toRadians M + ecc * sin (toRadians M).
Proof.
  pose proof PI_RGT_0 as Hpi.
  unfold kepler_start. rewrite toRadians_plus. f_equal.
  set (s := sin (toRadians M)).
  unfold toDegrees, toRadians, RAD_TO_DEG, DEG_TO_RAD. field. lra.
Qed.

(** The first half turn of mean anomalies. *)
Lemma kepler_breaks_first_half (ecc M : R) :
  0 <= ecc < 0.9 -> 0 <= M <= 180 ->
  kepler_breaks 10 ecc M (kepler_start ecc M) = true.
Proof.
  intros He HM.
  pose proof PI_RGT_0 as Hpi.
  assert (Hm : 0 <= toRadians M <= PI).
  { unfold toRadians, DEG_TO_RAD. split; nra. }
  destruct (kepler_root ecc (toRadians M) He Hm) as (r & Hr & Hrm & Hre).
  pose proof (toRadians_start ecc M) as E0.
  pose proof (start_range ecc (toRadians M) He Hm) as Hx0.
  destruct (Rle_or_lt 0 (kepler_g ecc (toRadians M)
                           (toRadians M + ecc * sin (toRadians M))))
    as [Hab|Hbe].
  - apply kepler_breaks_more.
    destruct (start_above ecc (toRadians M) He Hm r Hr Hrm Hab) as [H1 H2].
    apply (from_above_breaks ecc M He r Hr 8); rewrite E0;
      [exact H1 | lra | cbn [error_bound]; lra].
  - destruct (start_below ecc (toRadians M) He Hm r Hr Hrm Hre Hbe)
      as (H1 & H2 & H3).
    change (kepler_breaks 10 ecc M (kepler_start ecc M))
      with (if lt (Rabs (kepler_dE ecc M (kepler_start ecc M))) 0.0001
            then true
            else kepler_breaks 9 ecc M
                   (kepler_start ecc M + kepler_dE ecc M (kepler_start ecc M))).
    destruct (lt (Rabs (kepler_dE ecc M (kepler_start ecc M))) 0.0001);
      [reflexivity|].
    assert (Ex : toRadians (kepler_start ecc M +
                            kepler_dE ecc M (kepler_start ecc M)) =
                 toRadians M + ecc * sin (toRadians M) +
                 newton_step ecc (toRadians M)
                   (toRadians M + ecc * sin (toRadians M))).
    { rewrite toRadians_plus, (dE_radians ecc M He), E0. reflexivity. }
    apply (from_above_breaks ecc M He r Hr 8); rewrite Ex;
      [exact H1 | exact H2 | cbn [error_bound]; exact H3].
Qed.

(** The loop on [360 - M] mirrors the loop on [M]. *)
Lemma kepler_dE_mirror (ecc M E : R) :
  kepler_dE ecc (360 - M) (360 - E) = - kepler_dE ecc M E.
Proof.
  pose proof PI_RGT_0 as Hpi.
  assert (Et : toRadians (360 - E) = 2 * PI - toRadians E).
  { unfold toRadians, DEG_TO_RAD. field. }
  unfold kepler_dE. rewrite Et.
  replace (2 * PI - toRadians E) with (- toRadians E + 2 * PI) by ring.
  rewrite sin_plus, cos_plus, sin_2PI, cos_2PI, sin_neg, cos_neg.
  unfold toDegrees.
  replace (1 - ecc * (cos (toRadians E) * 1 - - sin (toRadians E) * 0))
    with (1 - ecc * cos (toRadians E)) by ring.
  unfold Rdiv. ring.
Qed.

Lemma kepler_breaks_mirror (n : nat) (ecc M E : R) :
  kepler_breaks n ecc (360 - M) (360 - E) = kepler_breaks n ecc M E.
Proof.
  revert E. induction n as [|n IH]; intros E; [reflexivity|].
  cbn [kepler_breaks]. rewrite kepler_dE_mirror, Rabs_Ropp.
  replace (360 - E + - kepler_dE ecc M E)
    with (360 - (E + kepler_dE ecc M E)) by ring.
  rewrite IH. reflexivity.
Qed.

Lemma kepler_start_mirror (ecc M : R) :
  kepler_start ecc (360 - M) = 360 - kepler_start ecc M.
Proof.
  pose proof PI_RGT_0 as Hpi.
  assert (Et : toRadians (360 - M) = - toRadians M + 2 * PI).
  { unfold toRadians, DEG_TO_RAD. field. }
  unfold kepler_start. rewrite Et.
  rewrite sin_plus, sin_2PI, cos_2PI, sin_neg. ring.
Qed.

(** When the loop is left through [break], its result is the last [E]
    plus a correction below the threshold. *)
Lemma kepler_loop_breaks (n : nat) (ecc M E : R) :
  kepler_breaks n ecc M E = true ->
  exists E' : R,
    kepler_loop n ecc M E = E' + kepler_dE ecc M E' /\
    Rabs (kepler_dE ecc M E') < 0.0001.
Proof.
  revert E. induction n as [|n IH]; intros E H; [discriminate H|].
  rewrite kepler_loop_pass. cbn [kepler_breaks] in H.
  destruct (lt (Rabs (kepler_dE ecc M E)) 0.0001) eqn:Hlt.
  - exists E. split; [reflexivity | apply lt_spec, Hlt].
  - apply IH, H.
Qed.

Lemma kepler_breaks_all (ecc M : R) :
  0 <= ecc < 0.9 -> 0 <= M < 360 ->
  kepler_breaks 10 ecc M (kepler_start ecc M) = true.
Proof.
  intros He HM.
  destruct (Rle_or_lt M 180) as [Hlo|Hhi].
  - apply kepler_breaks_first_half; [exact He | lra].
  - rewrite <- kepler_breaks_mirror, <- kepler_start_mirror.
    apply kepler_breaks_first_half; [exact He | lra].
Qed.

(** C5.  For every eccentricity from 0 up to, not including, 0.9 and every
    mean anomaly [M] in [0, 360), the loop of
    [calculateHeliocentricPosition], started from
    [M + toDegrees e * sin (toRadians M)], meets a correction [dE] with
    [|dE| < 0.0001] degrees in one of its 10 passes and leaves through
    [break]: what it returns is an [E] plus a correction below the
    threshold.  The arithmetic is that of the real numbers. *)
Theorem kepler_loop_converges (ecc M : R) :
  0 <= ecc < 0.9 -> 0 <= M < 360 ->
  kepler_breaks 10 ecc M (kepler_start ecc M) = true /\
  exists E : R,
    kepler_loop 10 ecc M (M + toDegrees ecc * sin (toRadians M)) =
      E + kepler_dE ecc M E /\
    Rabs (kepler_dE ecc M E) < 0.0001.
Proof.
  intros He HM.
  pose proof (kepler_breaks_all ecc M He HM) as Hb.
  split; [exact Hb | exact (kepler_loop_breaks 10 ecc M _ Hb)].
Qed.

Lemma kepler_loop_converges_witness :
  (0 <= 0.5 < 0.9 /\ 0 <= 90 < 360) /\
  kepler_breaks 10 0.5 90 (kepler_start 0.5 90) = true.
Proof.
  assert (He : 0 <= 0.5 < 0.9) by lra.
  assert (HM : 0 <= 90 < 360) by lra.
  split; [split; assumption | exact (proj1 (kepler_loop_converges 0.5 90 He HM))].
Defined.

End KeplerFacts.

(** * Facts about the binary64 transforms *)

Section IEEEFacts.
Import Floats IEEE.
Local Open Scope float_scope.

Lemma mul_nan_r (x : float) : x * nan = nan.
Proof.
  apply Prim2SF_inj. rewrite mul_spec.
  change (Prim2SF nan) with S754_nan.
  destruct (Prim2SF x) as [| | |s m e]; try destruct s; reflexivity.
Qed.

Lemma div_nan_r (x : float) : x / nan = nan.
Proof.
  apply Prim2SF_inj. rewrite div_spec.
  change (Prim2SF nan) with S754_nan.
  destruct (Prim2SF x) as [| | |s m e]; try destruct s; reflexivity.
Qed.

Lemma sub_nan_r (x : float) : x - nan = nan.
Proof.
  apply Prim2SF_inj. rewrite sub_spec.
  change (Prim2SF nan) with S754_nan.
  destruct (Prim2SF x) as [| | |s m e]; try destruct s; reflexivity.
Qed.

(** The clamp [Math.max(-1, Math.min(1, x))] lets [NaN] through. *)
Lemma clamp_nan : Math_max (-1) (Math_min 1 nan) = nan.
Proof. reflexivity. Qed.

Lemma toDegrees_nan : toDegrees nan = nan.
Proof. reflexivity. Qed.

Variable p : Platform.
Hypothesis Hp : conforming p.

(** Once the argument of [Math.asin] is above 1, [raDecToAltAz] returns
    [NaN] twice: the altitude is the [NaN] of [Math.asin], and the azimuth
    inherits it through the clamp. *)
Lemma raDecToAltAz_overshoot (ra dec lat lst : float) :
  (1 <? sinAlt p ra dec lat lst) = true ->
  raDecToAltAz p ra dec lat lst = {| altitude := nan; azimuth := nan |}.
Proof.
  intros H. unfold raDecToAltAz. cbv zeta.
  fold (sinAlt p ra dec lat lst).
  rewrite (asin_above_one p Hp _ H), (cos_nan p Hp).
  rewrite mul_nan_r, div_nan_r, clamp_nan, (acos_nan p Hp), toDegrees_nan.
  destruct (0 <? Math_sin p (toRadians (lst - ra))); reflexivity.
Qed.

Lemma altAzToRaDec_overshoot (alt az lat lst : float) :
  (1 <? sinDec p alt az lat) = true ->
  altAzToRaDec p alt az lat lst = {| ra := nan; dec := nan |}.
Proof.
  intros H. unfold altAzToRaDec. cbv zeta.
  fold (sinDec p alt az lat).
  rewrite (asin_above_one p Hp _ H), (cos_nan p Hp).
  rewrite mul_nan_r, div_nan_r, clamp_nan, (acos_nan p Hp), toDegrees_nan.
  assert (Hra : normalizeAngle p (lst - nan) = nan).
  { unfold normalizeAngle. rewrite sub_nan_r, (rem_nan p Hp). reflexivity. }
  destruct (0 <? Math_sin p (toRadians az)).
  - change (360 - nan) with nan. rewrite Hra. reflexivity.
  - rewrite Hra. reflexivity.
Qed.

End IEEEFacts.

Section IEEEClaim.
Import Floats IEEE.
Local Open Scope float_scope.

Lemma zenith8_conforming : conforming zenith8_platform.
Proof.
  split.
  - intros x H. cbn [Math_asin zenith8_platform]. rewrite H.
    rewrite orb_true_r. reflexivity.
  - reflexivity.
  - reflexivity.
  - reflexivity.
  - intros y. reflexivity.
Qed.

(** C3, evaluated on the code.  The specification says that both
    transforms clamp every argument of [Math.acos] and of [Math.asin] into
    [-1, 1], so that no component of the result is [NaN].  The code clamps
    the argument of [Math.acos] only, and that clamp lets [NaN] through.
    On every platform that follows ECMA-262, whenever rounding brings the
    argument of [Math.asin] above 1, [raDecToAltAz] returns a [NaN] altitude
    and a [NaN] azimuth, and [altAzToRaDec] a [NaN] declination and a [NaN]
    right ascension. *)
Theorem transforms_return_NaN_on_overshoot (p : Platform) :
  conforming p ->
  (forall ra dec lat lst : float,
     (1 <? sinAlt p ra dec lat lst) = true ->
     raDecToAltAz p ra dec lat lst = {| altitude := nan; azimuth := nan |}) /\
  (forall alt az lat lst : float,
     (1 <? sinDec p alt az lat) = true ->
     altAzToRaDec p alt az lat lst = {| ra := nan; dec := nan |}) /\
  Math_max (-1) (Math_min 1 nan) = nan.
Proof.
  intros Hp. split; [|split].
  - intros. apply raDecToAltAz_overshoot; assumption.
  - intros. apply altAzToRaDec_overshoot; assumption.
  - reflexivity.
Qed.

(** An object at the zenith of latitude 8 degrees: with the correctly
    rounded sine and cosine of [8 * DEG_TO_RAD], the argument of
    [Math.asin] is [1 + 2^-52], and both transforms return [NaN]s. *)
Lemma transforms_return_NaN_on_overshoot_witness :
  conforming zenith8_platform /\
  sinAlt zenith8_platform 0 8 8 0 = 0x1.0000000000001p+0 /\
  raDecToAltAz zenith8_platform 0 8 8 0 = {| altitude := nan; azimuth := nan |} /\
  sinDec zenith8_platform 8 0 8 = 0x1.0000000000001p+0 /\
  altAzToRaDec zenith8_platform 8 0 8 0 = {| ra := nan; dec := nan |}.
Proof.
  pose proof (transforms_return_NaN_on_overshoot zenith8_platform
                zenith8_conforming) as (H1 & H2 & _).
  split; [exact zenith8_conforming|].
  split; [vm_compute; reflexivity|].
  split; [apply H1; vm_compute; reflexivity|].
  split; [vm_compute; reflexivity|].
  apply H2; vm_compute; reflexivity.
Defined.

End IEEEClaim.

(** * Further facts *)

(** ** Angles, Julian dates and sidereal time *)

Section AngleFacts.
Import JSDate JS Astronomy.
Local Open Scope R_scope.

(** [normalizeAngle] subtracts the whole turns below its argument. *)
Lemma normalizeAngle_floor (x : R) :
  normalizeAngle x = x - 360 * IZR (Zfloor (x / 360)).
Proof.
  pose proof (normalizeAngle_range x) as Hr.
  assert (Hk : exists k : Z, normalizeAngle x = x - 360 * IZR k).
  { unfold normalizeAngle, rem. cbv zeta.
    destruct (lt (x - 360 * IZR (trunc (x / 360))) 0).
    - exists (trunc (x / 360) - 1)%Z. rewrite minus_IZR. ring.
    - exists (trunc (x / 360)). reflexivity. }
  destruct Hk as [k Hk].
  assert (Hf : Zfloor (x / 360) = k).
  { apply Zfloor_eq. rewrite Hk in Hr. lra. }
  rewrite Hf. exact Hk.
Qed.

Lemma normalizeAngle_turns (x : R) (k : Z) :
  normalizeAngle (x + 360 * IZR k) = normalizeAngle x.
Proof.
  rewrite !normalizeAngle_floor.
  assert (Hf : Zfloor ((x + 360 * IZR k) / 360) = (Zfloor (x / 360) + k)%Z).
  { apply Zfloor_eq. rewrite plus_IZR.
    pose proof (Zfloor_bound (x / 360)). lra. }
  rewrite Hf, plus_IZR. ring.
Qed.

Lemma normalizeAngle_fixed (x : R) : 0 <= x < 360 -> normalizeAngle x = x.
Proof.
  intros Hx. rewrite normalizeAngle_floor.
  assert (Hf : Zfloor (x / 360) = 0%Z) by (apply Zfloor_eq; simpl; lra).
  rewrite Hf. simpl. ring.
Qed.

(** X1.  In exact real arithmetic [normalizeAngle] reduces every angle
    by whole turns into the range from 0 to 360: its result is the argument
    minus 360 times the floor of [angle / 360], angles a whole number of
    turns apart have the same result, and an angle already in [0, 360) is
    returned as it is.  The range is stated with both ends: the real result
    is below 360, but for a negative angle the code adds 360 to a remainder
    in (-360, 0), and in binary64 that sum can round to 360 itself. *)
Theorem normalizeAngle_whole_turns (x : R) :
  0 <= normalizeAngle x <= 360 /\
  normalizeAngle x = x - 360 * IZR (Zfloor (x / 360)) /\
  (forall k : Z, normalizeAngle (x + 360 * IZR k) = normalizeAngle x) /\
  (0 <= x < 360 -> normalizeAngle x = x).
Proof.
  split; [pose proof (normalizeAngle_range x); lra|].
  split; [apply normalizeAngle_floor|].
  split; [intros k; apply normalizeAngle_turns|].
  apply normalizeAngle_fixed.
Qed.

Lemma normalizeAngleSigned_turns (x : R) :
  -180 < normalizeAngleSigned x <= 180 /\
  exists k : Z, normalizeAngleSigned x = x - 360 * IZR k.
Proof.
  pose proof (normalizeAngle_range x) as Hr. split.
  - unfold normalizeAngleSigned. cbv zeta.
    destruct (lt 180 (normalizeAngle x)) eqn:E.
    + apply lt_spec in E. lra.
    + apply lt_spec_false in E. lra.
  - unfold normalizeAngleSigned. cbv zeta. rewrite normalizeAngle_floor.
    destruct (lt 180 (x - 360 * IZR (Zfloor (x / 360)))).
    + exists (Zfloor (x / 360) + 1)%Z. rewrite plus_IZR. ring.
    + exists (Zfloor (x / 360)). reflexivity.
Qed.


(** X3.  Sidereal times are reduced to one turn, in exact real
    arithmetic: for every Julian date and longitude [gmst] and [lst] are
    between 0 and 360 and [lstHours] between 0 and 24, and longitudes a
    whole number of turns apart have the same local sidereal time.  The
    upper ends are included for the reason given with [normalizeAngle]. *)
Theorem sidereal_time_range (jd longitude : R) :
  0 <= gmst jd <= 360 /\
  0 <= lst jd longitude <= 360 /\
  0 <= lstHours jd longitude <= 24 /\
  (forall k : Z, lst jd (longitude + 360 * IZR k) = lst jd longitude).
Proof.
  split; [pose proof (normalizeAngle_range (gmst_polynomial jd)) as Hg;
          unfold gmst; fold (gmst_polynomial jd); lra|].
  assert (Hl : 0 <= lst jd longitude < 360) by apply normalizeAngle_range.
  split; [lra|]. split.
  - unfold lstHours, HOURS_TO_DEG. lra.
  - intros k. unfold lst.
    replace (gmst jd + (longitude + 360 * IZR k))
      with (gmst jd + longitude + 360 * IZR k) by ring.
    apply normalizeAngle_turns.
Qed.

End AngleFacts.

Section JulianDateFacts.
Import JSDate AstronomyQ.
Local Open Scope Z_scope.

Lemma dateToJulian_linear (t : Z) :
  (dateToJulian t == 2440587.5 + inject_Z t * (1 # 86400000))%Q.
Proof.
  rewrite dateToJulian_value.
  rewrite (Qmake_inject (TimeWithinDay t) 86400000).
  assert (E : (inject_Z t ==
               inject_Z (Day t) * inject_Z 86400000 +
               inject_Z (TimeWithinDay t))%Q).
  { rewrite <- inject_Z_mult, <- inject_Z_plus, <- Day_decompose.
    reflexivity. }
  rewrite E, inject_Z_plus.
  change (inject_Z (Z.pos 86400000)) with (inject_Z 86400000).
  field.
Qed.

(** X4.  [dateToJulian] is the affine map of the time value of the [Date]:
    for every instant [t] (milliseconds since 1970-01-01T00:00:00Z) the
    Julian date is [2440587.5 + t / 86400000], so it is strictly
    increasing in [t]. *)
Theorem dateToJulian_affine (t : Z) :
  (dateToJulian t == 2440587.5 + inject_Z t / 86400000)%Q /\
  (forall t' : Z, t < t' -> (dateToJulian t < dateToJulian t')%Q).
Proof.
  split.
  - rewrite dateToJulian_linear. field.
  - intros t' Hlt. rewrite !dateToJulian_linear.
    assert (H : (inject_Z t < inject_Z t')%Q) by (rewrite <- Zlt_Qlt; exact Hlt).
    Lqa.lra.
Qed.

End JulianDateFacts.

(** ** Angular distance and the horizontal coordinates *)

Section DistanceFacts.
Import JS Astronomy.
Local Open Scope R_scope.

(** The cosine of the angle between two directions is within [-1, 1]. *)
Lemma cosine_rule_bound (d1 d2 r : R) :
  -1 <= sin d1 * sin d2 + cos d1 * cos d2 * cos r <= 1.
Proof.
  pose proof (sin2_cos2 d1) as H1. pose proof (sin2_cos2 d2) as H2.
  pose proof (sin2_cos2 r) as H3. unfold Rsqr in *.
  set (s1 := sin d1) in *. set (c1 := cos d1) in *.
  set (s2 := sin d2) in *. set (c2 := cos d2) in *.
  set (cr := cos r) in *. set (sr := sin r) in *.
  assert (Hsq : (s1 * s2 + c1 * c2 * cr) * (s1 * s2 + c1 * c2 * cr) <= 1).
  { assert (E : 1 - (s1 * s2 + c1 * c2 * cr) * (s1 * s2 + c1 * c2 * cr) =
                (s1 * c2 * cr - c1 * s2) * (s1 * c2 * cr - c1 * s2) +
                (s1 * s1 + c1 * c1) * ((c2 * sr) * (c2 * sr))).
    { replace 1 with ((s1 * s1 + c1 * c1) * (s2 * s2 + c2 * c2 * (sr * sr + cr * cr)))
        at 1 by (rewrite H1, H3, Rmult_1_r, H2; ring).
      ring. }
    pose proof (Rle_0_sqr (s1 * c2 * cr - c1 * s2)) as P1.
    pose proof (Rle_0_sqr (c2 * sr)) as P2. unfold Rsqr in P1, P2.
    rewrite H1 in E. lra. }
  split; nra.
Qed.

Lemma clamp_idle (x : R) : -1 <= x <= 1 -> Rmax (-1) (Rmin 1 x) = x.
Proof.
  intros H. rewrite Rmin_right by lra. rewrite Rmax_right by lra. reflexivity.
Qed.

Lemma clamp_range (x : R) : -1 <= Rmax (-1) (Rmin 1 x) <= 1.
Proof.
  split; [apply Rmax_l|]. apply Rmax_lub; [lra | apply Rmin_l].
Qed.

Lemma toDegrees_range (x lo hi : R) :
  lo * PI / 180 <= x <= hi * PI / 180 -> lo <= toDegrees x <= hi.
Proof.
  intros H. pose proof PI_RGT_0 as Hpi.
  unfold toDegrees, RAD_TO_DEG.
  assert (E : forall y, y * PI / 180 * (180 / PI) = y) by (intros; field; lra).
  rewrite <- (E lo), <- (E hi).
  assert (0 < 180 / PI) by (apply Rdiv_lt_0_compat; lra).
  split; apply Rmult_le_compat_r; lra.
Qed.

(** X5.  [angularDistance] is a distance on the sphere: for all
    coordinates it is between 0 and 180 degrees and the same in both
    directions, it is 0 between a position and itself, and between two
    positions on the equator less than a half turn apart it is the
    difference of their right ascensions. *)
Theorem angularDistance_metric (ra1 dec1 ra2 dec2 : R) :
  0 <= angularDistance ra1 dec1 ra2 dec2 <= 180 /\
  angularDistance ra1 dec1 ra2 dec2 = angularDistance ra2 dec2 ra1 dec1 /\
  angularDistance ra1 dec1 ra1 dec1 = 0 /\
  (Rabs (ra2 - ra1) <= 180 ->
   angularDistance ra1 0 ra2 0 = Rabs (ra2 - ra1)).
Proof.
  split; [|split; [|split]].
  - unfold angularDistance. cbv zeta. apply toDegrees_range.
    pose proof (acos_bound (Rmax (-1) (Rmin 1
      (sin (toRadians dec1) * sin (toRadians dec2) +
       cos (toRadians dec1) * cos (toRadians dec2) *
       cos (toRadians (ra2 - ra1)))))) as Hb.
    lra.
  - unfold angularDistance. cbv zeta.
    replace (toRadians (ra1 - ra2)) with (- toRadians (ra2 - ra1))
      by (unfold toRadians; ring).
    rewrite cos_neg. do 3 f_equal. f_equal. ring.
  - unfold angularDistance. cbv zeta.
    replace (ra1 - ra1) with 0 by ring. rewrite toRadians_0, cos_0.
    pose proof (sin2_cos2 (toRadians dec1)) as H. unfold Rsqr in H.
    replace (sin (toRadians dec1) * sin (toRadians dec1) +
             cos (toRadians dec1) * cos (toRadians dec1) * 1) with 1 by lra.
    rewrite clamp_idle by lra. rewrite acos_1. unfold toDegrees. ring.
  - intros Habs. unfold angularDistance. cbv zeta.
    rewrite toRadians_0, sin_0, cos_0.
    replace (0 * 0 + 1 * 1 * cos (toRadians (ra2 - ra1)))
      with (cos (toRadians (ra2 - ra1))) by ring.
    pose proof (COS_bound (toRadians (ra2 - ra1))) as Hc.
    rewrite clamp_idle by lra.
    pose proof PI_RGT_0 as Hpi.
    assert (Hcos : cos (toRadians (ra2 - ra1)) =
                   cos (toRadians (Rabs (ra2 - ra1)))).
    { unfold Rabs. destruct (Rcase_abs (ra2 - ra1)); [|reflexivity].
      replace (toRadians (- (ra2 - ra1))) with (- toRadians (ra2 - ra1))
        by (unfold toRadians; ring).
      rewrite cos_neg. reflexivity. }
    rewrite Hcos, acos_cos.
    + apply toDegrees_toRadians.
    + pose proof (Rabs_pos (ra2 - ra1)) as H0.
      unfold toRadians, DEG_TO_RAD. split; nra.
Qed.

Lemma angularDistance_metric_witness :
  Rabs (30 - 10) <= 180 /\ angularDistance 10 0 30 0 = Rabs (30 - 10).
Proof.
  assert (H : Rabs (30 - 10) <= 180).
  { rewrite Rabs_right; lra. }
  split; [exact H|].
  exact (proj2 (proj2 (proj2 (angularDistance_metric 10 0 30 0))) H).
Defined.

(** X6.  In exact arithmetic the haversine formula and the law of cosines
    are the same function: [angularDistanceHaversine] and
    [angularDistance] agree on all coordinates, the haversine [a] being
    [(1 - cos d) / 2], within [0, 1]. *)
Theorem haversine_agrees (ra1 dec1 ra2 dec2 : R) :
  let a := sin ((toRadians dec2 - toRadians dec1) / 2) ^ 2 +
           cos (toRadians dec1) * cos (toRadians dec2) *
           sin (toRadians (ra2 - ra1) / 2) ^ 2 in
  0 <= a <= 1 /\
  angularDistanceHaversine ra1 dec1 ra2 dec2 =
  angularDistance ra1 dec1 ra2 dec2.
Proof.
  intros a.
  set (d1 := toRadians dec1) in *. set (d2 := toRadians dec2) in *.
  set (r := toRadians (ra2 - ra1)) in *.
  set (cosD := sin d1 * sin d2 + cos d1 * cos d2 * cos r).
  assert (Ea : cosD = 1 - 2 * a).
  { unfold cosD, a.
    assert (E1 : cos (d2 - d1) = 1 - 2 * sin ((d2 - d1) / 2) ^ 2).
    { replace (d2 - d1) with (2 * ((d2 - d1) / 2)) at 1 by field.
      rewrite cos_2a_sin. ring. }
    assert (E2 : cos r = 1 - 2 * sin (r / 2) ^ 2).
    { replace r with (2 * (r / 2)) at 1 by field.
      rewrite cos_2a_sin. ring. }
    rewrite cos_minus in E1. rewrite E2. lra. }
  pose proof (cosine_rule_bound d1 d2 r) as Hb. fold cosD in Hb.
  assert (Ha : 0 <= a <= 1) by lra.
  split; [exact Ha|].
  unfold angularDistanceHaversine, angularDistance. cbv zeta.
  fold d1 d2 r. fold a. fold cosD.
  rewrite clamp_idle by exact Hb. f_equal.
  assert (Hs : 0 <= sqrt a <= 1).
  { split; [apply sqrt_pos|]. rewrite <- sqrt_1. apply sqrt_le_1; lra. }
  pose proof (asin_bound (sqrt a)) as Hab.
  assert (H0 : 0 <= asin (sqrt a)).
  { destruct (Rle_or_lt 0 (asin (sqrt a))) as [Hge|Hlt]; [exact Hge|].
    exfalso. pose proof PI_RGT_0 as Hpi.
    pose proof (sin_lt_0_var (asin (sqrt a)) ltac:(lra) Hlt) as Hneg.
    rewrite sin_asin in Hneg by lra. lra. }
  assert (Ecos : cos (2 * asin (sqrt a)) = cosD).
  { rewrite cos_2a_sin, sin_asin by lra.
    pose proof (sqrt_sqrt a (proj1 Ha)) as Hq. rewrite Ea. lra. }
  rewrite <- Ecos. rewrite acos_cos; [reflexivity | lra].
Qed.

End DistanceFacts.

Section TransformFacts.
Import JS Astronomy.
Local Open Scope R_scope.

Lemma toRadians_range (x lo hi : R) :
  lo <= x <= hi -> lo * PI / 180 <= toRadians x <= hi * PI / 180.
Proof.
  intros H. pose proof PI_RGT_0 as Hpi.
  unfold toRadians, DEG_TO_RAD. split; nra.
Qed.

Lemma toRadians_range_lt (x lo hi : R) :
  lo < x < hi -> lo * PI / 180 < toRadians x < hi * PI / 180.
Proof.
  intros H. pose proof PI_RGT_0 as Hpi.
  unfold toRadians, DEG_TO_RAD. split; nra.
Qed.

Lemma sin_turns (x : R) (k : Z) : sin (x + 2 * PI * IZR k) = sin x.
Proof.
  destruct (Z_le_gt_dec 0 k) as [Hk|Hk].
  - rewrite <- (Z2Nat.id k Hk), <- INR_IZR_INZ.
    replace (x + 2 * PI * INR (Z.to_nat k))
      with (x + 2 * INR (Z.to_nat k) * PI) by ring.
    apply sin_period.
  - assert (Hn : (0 <= - k)%Z) by lia.
    rewrite <- (sin_period (x + 2 * PI * IZR k) (Z.to_nat (- k))).
    rewrite INR_IZR_INZ, (Z2Nat.id _ Hn), opp_IZR. f_equal. ring.
Qed.

Lemma cos_turns (x : R) (k : Z) : cos (x + 2 * PI * IZR k) = cos x.
Proof.
  destruct (Z_le_gt_dec 0 k) as [Hk|Hk].
  - rewrite <- (Z2Nat.id k Hk), <- INR_IZR_INZ.
    replace (x + 2 * PI * INR (Z.to_nat k))
      with (x + 2 * INR (Z.to_nat k) * PI) by ring.
    apply cos_period.
  - assert (Hn : (0 <= - k)%Z) by lia.
    rewrite <- (cos_period (x + 2 * PI * IZR k) (Z.to_nat (- k))).
    rewrite INR_IZR_INZ, (Z2Nat.id _ Hn), opp_IZR. f_equal. ring.
Qed.

(** An angle with a sine that is not negative is [acos] of its cosine, up
    to whole turns; one with a sine that is not positive is minus that. *)
Lemma acos_cos_upper (h : R) :
  0 <= sin h -> exists k : Z, h = acos (cos h) + 2 * PI * IZR k.
Proof.
  intros Hs. pose proof PI_RGT_0 as Hpi.
  set (k := Zfloor ((h + PI) / (2 * PI))).
  pose proof (Zfloor_bound ((h + PI) / (2 * PI))) as Hb. fold k in Hb.
  set (h0 := h - 2 * PI * IZR k).
  assert (Hh0 : - PI <= h0 < PI).
  { unfold h0.
    assert (E : h + PI = (h + PI) / (2 * PI) * (2 * PI)) by (field; lra).
    split; nra. }
  assert (Es : sin h0 = sin h).
  { unfold h0. replace (h - 2 * PI * IZR k) with (h + 2 * PI * IZR (- k))
      by (rewrite opp_IZR; ring). apply sin_turns. }
  assert (Ec : cos h0 = cos h).
  { unfold h0. replace (h - 2 * PI * IZR k) with (h + 2 * PI * IZR (- k))
      by (rewrite opp_IZR; ring). apply cos_turns. }
  destruct (Rle_or_lt 0 h0) as [Hpos|Hneg].
  - exists k. rewrite <- Ec, acos_cos by lra. unfold h0. ring.
  - destruct (Req_dec h0 (- PI)) as [Em|Hn].
    + exists (k - 1)%Z. rewrite <- Ec, Em, cos_neg, cos_PI.
      replace (-1) with (- (1)) by ring. rewrite acos_opp, acos_1.
      rewrite minus_IZR. unfold h0 in Em. lra.
    + exfalso. assert (Hlt : sin h0 < 0) by (apply sin_lt_0_var; lra). lra.
Qed.

Lemma acos_cos_lower (h : R) :
  sin h <= 0 -> exists k : Z, h = - acos (cos h) + 2 * PI * IZR k.
Proof.
  intros Hs.
  destruct (acos_cos_upper (- h)) as [k Hk].
  - rewrite sin_neg. lra.
  - exists (- k)%Z. rewrite cos_neg in Hk. rewrite opp_IZR. lra.
Qed.

Section Forward.
Variables ra dec lat lst : R.

Let h := toRadians (lst - ra).
Let d := toRadians dec.
Let l := toRadians lat.
Let sinAlt := sin d * sin l + cos d * cos l * cos h.
Let A := asin sinAlt.
Let cosAz := (sin d - sin l * sinAlt) / (cos l * cos A).

Lemma sinAlt_bound : -1 <= sinAlt <= 1.
Proof. apply cosine_rule_bound. Qed.

Lemma altitude_value :
  altitude (raDecToAltAz ra dec lat lst) = toDegrees A.
Proof. reflexivity. Qed.

Lemma azimuth_value :
  azimuth (raDecToAltAz ra dec lat lst) =
  if lt 0 (sin h) then 360 - toDegrees (acos (Rmax (-1) (Rmin 1 cosAz)))
  else toDegrees (acos (Rmax (-1) (Rmin 1 cosAz))).
Proof. reflexivity. Qed.

Lemma cos_altitude_square : cos A * cos A = 1 - sinAlt * sinAlt.
Proof.
  pose proof (sin2_cos2 A) as H. unfold Rsqr in H.
  unfold A in H at 1 2. rewrite sin_asin in H by apply sinAlt_bound.
  fold A in H. lra.
Qed.

(** The spherical triangle: north and east components of the direction. *)
Lemma horizontal_components :
  (sin d * cos l - sin l * cos d * cos h) *
  (sin d * cos l - sin l * cos d * cos h) +
  (cos d * sin h) * (cos d * sin h) = cos A * cos A.
Proof.
  rewrite cos_altitude_square. unfold sinAlt.
  pose proof (sin2_cos2 d) as H1. pose proof (sin2_cos2 l) as H2.
  pose proof (sin2_cos2 h) as H3. unfold Rsqr in *.
  set (sd := sin d) in *. set (cd := cos d) in *.
  set (sl := sin l) in *. set (cl := cos l) in *.
  set (sh := sin h) in *. set (ch := cos h) in *.
  replace ((cd * sh) * (cd * sh))
    with ((cd * sh) * (cd * sh) * (sl * sl + cl * cl))
    by (rewrite H2; ring).
  replace 1 with ((sd * sd + cd * cd * (sh * sh + ch * ch)) * (sl * sl + cl * cl))
    by (rewrite H3, Rmult_1_r, H1, H2; ring).
  ring.
Qed.

Hypothesis Hl : cos l <> 0.
Hypothesis HA : 0 < cos A.

Lemma cosAz_value :
  cosAz = (sin d * cos l - sin l * cos d * cos h) / cos A.
Proof.
  unfold cosAz, sinAlt.
  pose proof (sin2_cos2 l) as H2. unfold Rsqr in H2.
  assert (E : sin d - sin l * (sin d * sin l + cos d * cos l * cos h) =
              cos l * (sin d * cos l - sin l * cos d * cos h)).
  { replace (sin d) with (sin d * (sin l * sin l + cos l * cos l)) at 1
      by (rewrite H2; ring). ring. }
  rewrite E. field. split; lra.
Qed.

Lemma cosAz_bound : -1 <= cosAz <= 1.
Proof.
  rewrite cosAz_value.
  pose proof horizontal_components as Hc.
  set (n := sin d * cos l - sin l * cos d * cos h) in *.
  pose proof (Rle_0_sqr (cos d * sin h)) as P. unfold Rsqr in P.
  assert (Hn : n * n <= cos A * cos A) by lra.
  assert (Hb : - cos A <= n <= cos A) by (split; nra).
  split.
  - apply (Rmult_le_reg_r (cos A)); [exact HA|].
    replace (n / cos A * cos A) with n by (field; lra). lra.
  - apply (Rmult_le_reg_r (cos A)); [exact HA|].
    replace (n / cos A * cos A) with n by (field; lra). lra.
Qed.

Lemma sin_azimuth_square :
  sin (acos cosAz) * sin (acos cosAz) * (cos A * cos A) =
  (cos d * sin h) * (cos d * sin h).
Proof.
  pose proof (sin2_cos2 (acos cosAz)) as H. unfold Rsqr in H.
  rewrite cos_acos in H by apply cosAz_bound.
  pose proof horizontal_components as Hc.
  assert (E : cosAz * cos A = sin d * cos l - sin l * cos d * cos h).
  { rewrite cosAz_value. field. lra. }
  rewrite <- E in Hc. nra.
Qed.

End Forward.

(** X7.  [raDecToAltAz] returns an altitude between -90 and 90 degrees
    whose sine is [sin dec sin lat + cos dec cos lat cos ha], a value
    within [-1, 1] in exact arithmetic.  Away from the poles and with the
    object away from the zenith and the nadir, the cosine of the azimuth
    is within [-1, 1] before the clamp, and the azimuth is between 0 and
    360 degrees, on the western side (at least 180) exactly when the sine
    of the hour angle is positive. *)
Theorem raDecToAltAz_range (ra dec lat lst : R) :
  let r := raDecToAltAz ra dec lat lst in
  let sinAlt := sin (toRadians dec) * sin (toRadians lat) +
                cos (toRadians dec) * cos (toRadians lat) *
                cos (toRadians (lst - ra)) in
  -1 <= sinAlt <= 1 /\
  -90 <= altitude r <= 90 /\
  sin (toRadians (altitude r)) = sinAlt /\
  (-90 < lat < 90 -> -90 < altitude r < 90 ->
   -1 <= (sin (toRadians dec) - sin (toRadians lat) * sinAlt) /
         (cos (toRadians lat) * cos (asin sinAlt)) <= 1 /\
   0 <= azimuth r <= 360 /\
   (0 < sin (toRadians (lst - ra)) -> 180 <= azimuth r) /\
   (sin (toRadians (lst - ra)) <= 0 -> azimuth r <= 180)).
Proof.
  intros r sinAlt. pose proof PI_RGT_0 as Hpi.
  pose proof (sinAlt_bound ra dec lat lst) as Hb. cbv zeta in Hb.
  fold sinAlt in Hb.
  assert (Ealt : altitude r = toDegrees (asin sinAlt)) by reflexivity.
  split; [exact Hb|]. split; [|split].
  - rewrite Ealt. apply toDegrees_range.
    pose proof (asin_bound sinAlt). lra.
  - rewrite Ealt, toRadians_toDegrees. apply sin_asin. exact Hb.
  - intros Hlat Halt.
    assert (Hl : cos (toRadians lat) <> 0).
    { apply Rgt_not_eq. apply cos_gt_0;
        pose proof (toRadians_range_lt lat (-90) 90 Hlat); lra. }
    assert (HA : 0 < cos (asin sinAlt)).
    { rewrite Ealt in Halt.
      assert (Hr : -90 * PI / 180 < asin sinAlt < 90 * PI / 180).
      { pose proof (toRadians_range_lt _ _ _ Halt) as Hr.
        rewrite toRadians_toDegrees in Hr. exact Hr. }
      apply cos_gt_0; lra. }
    pose proof (cosAz_bound ra dec lat lst Hl HA) as Hc. cbv zeta in Hc.
    fold sinAlt in Hc.
    split; [exact Hc|].
    pose proof (azimuth_value ra dec lat lst) as Eaz. cbv zeta in Eaz.
    fold sinAlt in Eaz. fold r in Eaz.
    set (cosAz := (sin (toRadians dec) - sin (toRadians lat) * sinAlt) /
                  (cos (toRadians lat) * cos (asin sinAlt))) in *.
    pose proof (acos_bound (Rmax (-1) (Rmin 1 cosAz))) as Hac.
    assert (Hd : 0 <= toDegrees (acos (Rmax (-1) (Rmin 1 cosAz))) <= 180).
    { apply toDegrees_range. lra. }
    rewrite Eaz.
    destruct (lt 0 (sin (toRadians (lst - ra)))) eqn:E.
    + apply lt_spec in E. repeat split; intros; lra.
    + apply lt_spec_false in E. repeat split; intros; lra.
Qed.

Lemma raDecToAltAz_range_witness :
  (-90 < 0 < 90 /\ -90 < altitude (raDecToAltAz 0 0 0 90) < 90) /\
  0 <= azimuth (raDecToAltAz 0 0 0 90) <= 360.
Proof.
  assert (Hlat : -90 < 0 < 90) by lra.
  assert (Ealt : altitude (raDecToAltAz 0 0 0 90) = 0).
  { rewrite altitude_value.
    replace (90 - 0) with 90 by ring.
    rewrite toRadians_0, sin_0, cos_0.
    replace (toRadians 90) with (PI / 2)
      by (unfold toRadians, DEG_TO_RAD; field).
    rewrite cos_PI2.
    replace (0 * 0 + 1 * 1 * 0) with 0 by ring.
    rewrite asin_0. unfold toDegrees. ring. }
  assert (Halt : -90 < altitude (raDecToAltAz 0 0 0 90) < 90)
    by (rewrite Ealt; lra).
  split; [split; assumption|].
  exact (proj1 (proj2 (proj2 (proj2 (proj2
    (raDecToAltAz_range 0 0 0 90))) Hlat Halt))).
Defined.

(** X8.  In exact arithmetic [altAzToRaDec] undoes [raDecToAltAz]: for a
    latitude and a declination strictly between -90 and 90, a right
    ascension in [0, 360) and an object that is not at the zenith or the
    nadir, converting to altitude and azimuth and back returns the same
    right ascension and declination. *)
Theorem altAz_round_trip (ra dec lat lst : R) :
  -90 < lat < 90 -> -90 < dec < 90 -> 0 <= ra < 360 ->
  -90 < altitude (raDecToAltAz ra dec lat lst) < 90 ->
  altAzToRaDec (altitude (raDecToAltAz ra dec lat lst))
               (azimuth (raDecToAltAz ra dec lat lst)) lat lst =
  {| rd_ra := ra; rd_dec := dec |}.
Proof.
  intros Hlat Hdec Hra Halt. pose proof PI_RGT_0 as Hpi.
  set (h := toRadians (lst - ra)).
  set (d := toRadians dec). set (l := toRadians lat).
  set (sinAlt := sin d * sin l + cos d * cos l * cos h).
  set (A := asin sinAlt).
  set (cosAz := (sin d - sin l * sinAlt) / (cos l * cos A)).
  pose proof (sinAlt_bound ra dec lat lst) as Hb. cbv zeta in Hb.
  fold h d l sinAlt in Hb.
  assert (Hlr : - (PI / 2) < l < PI / 2).
  { pose proof (toRadians_range_lt lat (-90) 90 Hlat). fold l in H. lra. }
  assert (Hdr : - (PI / 2) < d < PI / 2).
  { pose proof (toRadians_range_lt dec (-90) 90 Hdec). fold d in H. lra. }
  assert (Hcl : 0 < cos l) by (apply cos_gt_0; lra).
  assert (Hcd : 0 < cos d) by (apply cos_gt_0; lra).
  assert (Ealt : altitude (raDecToAltAz ra dec lat lst) = toDegrees A)
    by reflexivity.
  assert (HA : 0 < cos A).
  { rewrite Ealt in Halt.
    pose proof (toRadians_range_lt _ _ _ Halt) as Hr.
    rewrite toRadians_toDegrees in Hr. apply cos_gt_0; lra. }
  assert (Hl : cos l <> 0) by lra.
  pose proof (cosAz_bound ra dec lat lst Hl HA) as Hc. cbv zeta in Hc.
  fold h d l sinAlt A cosAz in Hc.
  pose proof (cosAz_value ra dec lat lst Hl HA) as Ecz. cbv zeta in Ecz.
  fold h d l sinAlt A cosAz in Ecz.
  pose proof (sin_azimuth_square ra dec lat lst Hl HA) as Esq.
  cbv zeta in Esq. fold h d l sinAlt A cosAz in Esq.
  pose proof (azimuth_value ra dec lat lst) as Eaz. cbv zeta in Eaz.
  fold h d l sinAlt A cosAz in Eaz.
  rewrite (clamp_idle cosAz Hc) in Eaz.
  set (az0 := acos cosAz) in *.
  assert (Haz0 : 0 <= az0 <= PI) by apply acos_bound.
  assert (Ecos0 : cos az0 = cosAz) by (apply cos_acos; exact Hc).
  assert (Hsin0 : 0 <= sin az0) by (apply sin_ge_0; lra).
  (* the azimuth in radians *)
  set (az := azimuth (raDecToAltAz ra dec lat lst)) in *.
  assert (Eazr : (0 < sin h -> toRadians az = 2 * PI - az0) /\
                 (sin h <= 0 -> toRadians az = az0)).
  { rewrite Eaz. split; intros Hs.
    - rewrite lt_true by exact Hs.
      unfold toRadians, toDegrees, RAD_TO_DEG, DEG_TO_RAD. field. lra.
    - rewrite lt_false by exact Hs. apply toRadians_toDegrees. }
  assert (Ecaz : cos (toRadians az) = cosAz).
  { destruct (Rlt_or_le 0 (sin h)) as [Hs|Hs].
    - rewrite (proj1 Eazr Hs).
      replace (2 * PI - az0) with (- az0 + 2 * PI * IZR 1) by (simpl; ring).
      rewrite cos_turns, cos_neg. exact Ecos0.
    - rewrite (proj2 Eazr Hs). exact Ecos0. }
  (* back *)
  unfold altAzToRaDec. cbv zeta. rewrite Ealt, toRadians_toDegrees.
  fold l. rewrite Ecaz.
  assert (EsA : sin A = sinAlt) by (apply sin_asin; exact Hb).
  assert (Esd : sin A * sin l + cos A * cos l * cosAz = sin d).
  { rewrite Ecz, EsA. unfold sinAlt.
    pose proof (sin2_cos2 l) as H2. unfold Rsqr in H2.
    replace (cos A * cos l *
             ((sin d * cos l - sin l * cos d * cos h) / cos A))
      with (cos l * (sin d * cos l - sin l * cos d * cos h))
      by (field; lra).
    replace (sin d) with (sin d * (sin l * sin l + cos l * cos l)) at 3
      by (rewrite H2; ring).
    ring. }
  rewrite Esd. rewrite asin_sin by lra. fold d.
  assert (Edec : toDegrees d = dec) by apply toDegrees_toRadians.
  rewrite Edec.
  assert (EcH : (sin A - sin l * sin d) / (cos l * cos d) = cos h).
  { rewrite EsA. unfold sinAlt. field. split; lra. }
  rewrite EcH. rewrite (clamp_idle (cos h)) by apply COS_bound.
  (* the hour angle, up to whole turns *)
  assert (Eh : toDegrees h = lst - ra) by apply toDegrees_toRadians.
  assert (Hup : 0 <= sin h ->
                exists k : Z, toDegrees (acos (cos h)) = lst - ra - 360 * IZR k).
  { intros Hs. destruct (acos_cos_upper h Hs) as [k Hk]. exists k.
    rewrite <- Eh. rewrite Hk at 2.
    unfold toDegrees, RAD_TO_DEG. field. lra. }
  assert (Hlo : sin h <= 0 ->
                exists k : Z, toDegrees (acos (cos h)) = ra - lst + 360 * IZR k).
  { intros Hs. destruct (acos_cos_lower h Hs) as [k Hk]. exists k.
    replace (ra - lst) with (- (lst - ra)) by ring.
    rewrite <- Eh. rewrite Hk at 2.
    unfold toDegrees, RAD_TO_DEG. field. lra. }
  assert (Eup : 0 <= sin h ->
                normalizeAngle (lst - toDegrees (acos (cos h))) = ra).
  { intros Hs. destruct (Hup Hs) as [k Hk]. rewrite Hk.
    replace (lst - (lst - ra - 360 * IZR k)) with (ra + 360 * IZR k) by ring.
    rewrite normalizeAngle_turns. apply normalizeAngle_fixed. exact Hra. }
  f_equal.
  destruct (Rlt_or_le 0 (sin h)) as [Hs|Hs].
  - rewrite (proj1 Eazr Hs).
    replace (2 * PI - az0) with (- az0 + 2 * PI * IZR 1) by (simpl; ring).
    rewrite sin_turns, sin_neg. rewrite lt_false by lra.
    apply Eup. lra.
  - rewrite (proj2 Eazr Hs).
    destruct (Rlt_or_le 0 (sin az0)) as [Hz|Hz].
    + rewrite lt_true by exact Hz.
      destruct (Hlo Hs) as [k Hk]. rewrite Hk.
      replace (lst - (360 - (ra - lst + 360 * IZR k)))
        with (ra + 360 * IZR (k - 1)) by (rewrite minus_IZR; ring).
      rewrite normalizeAngle_turns. apply normalizeAngle_fixed. exact Hra.
    + rewrite lt_false by exact Hz.
      apply Eup.
      assert (Ez : sin az0 = 0) by lra.
      rewrite Ez in Esq.
      assert (Hsh : cos d * sin h = 0) by nra.
      assert (sin h = 0) by nra. lra.
Qed.

Lemma altAz_round_trip_witness :
  (-90 < 0 < 90 /\ 0 <= 0 < 360 /\
   -90 < altitude (raDecToAltAz 0 0 0 90) < 90) /\
  altAzToRaDec (altitude (raDecToAltAz 0 0 0 90))
               (azimuth (raDecToAltAz 0 0 0 90)) 0 90 =
  {| rd_ra := 0; rd_dec := 0 |}.
Proof.
  assert (H1 : -90 < 0 < 90) by lra.
  assert (H2 : 0 <= 0 < 360) by lra.
  assert (Ealt : altitude (raDecToAltAz 0 0 0 90) = 0).
  { rewrite altitude_value.
    replace (90 - 0) with 90 by ring.
    rewrite toRadians_0, sin_0, cos_0.
    replace (toRadians 90) with (PI / 2)
      by (unfold toRadians, DEG_TO_RAD; field).
    rewrite cos_PI2.
    replace (0 * 0 + 1 * 1 * 0) with 0 by ring.
    rewrite asin_0. unfold toDegrees. ring. }
  assert (H3 : -90 < altitude (raDecToAltAz 0 0 0 90) < 90)
    by (rewrite Ealt; lra).
  split; [repeat split; try apply H1; try apply H2; apply H3|].
  exact (altAz_round_trip 0 0 0 90 H1 H1 H2 H3).
Defined.

End TransformFacts.

(** ** Rising, setting and the Sun *)

Section NumericFacts.
Local Open Scope R_scope.

Lemma PI_bounds : 3.1415 < PI < 3.1416.
Proof.
  pose proof (PI_2_3_7_ineq 3) as H.
  unfold tg_alt, PI_2_3_7_tg, Ratan_seq in H.
  cbn [sum_f_R0 Nat.mul Nat.add] in H.
  cbn [INR pow] in H.
  lra.
Qed.

Lemma INR_fact_even :
  INR (fact 2) = 2 /\ INR (fact 4) = 24 /\ INR (fact 6) = 720 /\
  INR (fact 8) = 40320.
Proof.
  assert (S : forall n, INR (fact (S n)) = (INR n + 1) * INR (fact n)).
  { intros n. rewrite fact_simpl, mult_INR, S_INR. reflexivity. }
  assert (F0 : INR (fact 0) = 1) by reflexivity.
  repeat split; repeat rewrite S; rewrite F0; cbn [INR]; lra.
Qed.

Lemma cos_lb_value (a : R) :
  cos_lb a = 1 - a ^ 2 / 2 + a ^ 4 / 24 - a ^ 6 / 720.
Proof.
  destruct INR_fact_even as (F2 & F4 & F6 & _).
  unfold cos_lb, cos_approx, cos_term.
  cbn [sum_f_R0 Nat.mul Nat.add].
  rewrite F2, F4, F6. change (INR (fact 0)) with 1. field.
Qed.

Lemma cos_ub_value (a : R) :
  cos_ub a = 1 - a ^ 2 / 2 + a ^ 4 / 24 - a ^ 6 / 720 + a ^ 8 / 40320.
Proof.
  destruct INR_fact_even as (F2 & F4 & F6 & F8).
  unfold cos_ub, cos_approx, cos_term.
  cbn [sum_f_R0 Nat.mul Nat.add].
  rewrite F2, F4, F6, F8. change (INR (fact 0)) with 1. field.
Qed.

Lemma div_below (a c : R) : 0 < c -> (a / c < -1 <-> a < - c).
Proof.
  intros Hc. split; intros H.
  - assert (E : a = a / c * c) by (field; lra).
    rewrite E. nra.
  - apply (Rmult_lt_reg_r c); [exact Hc|].
    replace (a / c * c) with a by (field; lra). lra.
Qed.

Lemma div_above (a c : R) : 0 < c -> (1 < a / c <-> c < a).
Proof.
  intros Hc. split; intros H.
  - assert (E : a = a / c * c) by (field; lra).
    rewrite E. nra.
  - apply (Rmult_lt_reg_r c); [exact Hc|].
    replace (a / c * c) with a by (field; lra). lra.
Qed.

(** The sine is increasing over the closed quarter turns around 0, both
    ways. *)
(** The product of two bounded numbers. *)
Lemma product_bound (x y A B : R) :
  - A <= x <= A -> - B <= y <= B -> - (A * B) <= x * y <= A * B.
Proof.
  intros Hx Hy.
  assert (H1 : 0 <= (A - x) * (B - y)) by (apply Rmult_le_pos; lra).
  assert (H2 : 0 <= (A + x) * (B + y)) by (apply Rmult_le_pos; lra).
  assert (H3 : 0 <= (A - x) * (B + y)) by (apply Rmult_le_pos; lra).
  assert (H4 : 0 <= (A + x) * (B - y)) by (apply Rmult_le_pos; lra).
  split; lra.
Qed.

Lemma sin_lt_iff (x y : R) :
  - (PI / 2) <= x <= PI / 2 -> - (PI / 2) <= y <= PI / 2 ->
  (sin x < sin y <-> x < y).
Proof.
  intros Hx Hy. split; intros H.
  - apply sin_increasing_0; lra.
  - apply sin_increasing_1; lra.
Qed.

Lemma cos_Rabs (x : R) : cos (Rabs x) = cos x.
Proof.
  unfold Rabs. destruct (Rcase_abs x); [apply cos_neg | reflexivity].
Qed.

Lemma sin_shift_quarter (x : R) : sin (x - PI / 2) = - cos x.
Proof. rewrite sin_minus, cos_PI2, sin_PI2. ring. Qed.

Lemma sin_quarter_minus (x : R) : sin (PI / 2 - x) = cos x.
Proof. rewrite sin_minus, cos_PI2, sin_PI2. ring. Qed.

End NumericFacts.

Section HourAngleFacts.
Import JSDate JS Astronomy.
Local Open Scope R_scope.

Lemma toRadians_Rabs (x : R) : toRadians (Rabs x) = Rabs (toRadians x).
Proof.
  pose proof PI_RGT_0 as Hpi.
  unfold toRadians, DEG_TO_RAD.
  rewrite Rabs_mult, (Rabs_pos_eq (PI / 180)) by lra. reflexivity.
Qed.

Section Thresholds.
Variables dec lat h0 : R.
Hypothesis Hlat : -90 < lat < 90.
Hypothesis Hdec : -90 < dec < 90.
Hypothesis Hh0 : -90 <= h0 <= 90.

Let l := toRadians lat.
Let d := toRadians dec.
Let h := toRadians h0.

Lemma radians_in_quarter :
  - (PI / 2) < l < PI / 2 /\ - (PI / 2) < d < PI / 2 /\
  - (PI / 2) <= h <= PI / 2.
Proof.
  pose proof (toRadians_range_lt lat (-90) 90 Hlat) as H1.
  pose proof (toRadians_range_lt dec (-90) 90 Hdec) as H2.
  pose proof (toRadians_range h0 (-90) 90 Hh0) as H3.
  fold l in H1. fold d in H2. fold h in H3. lra.
Qed.

Lemma cos_product_positive : 0 < cos l * cos d.
Proof.
  destruct radians_in_quarter as (H1 & H2 & _).
  apply Rmult_lt_0_compat; apply cos_gt_0; lra.
Qed.

(** The hour-angle cosine is below -1 exactly when the declination is so
    close to the elevated pole that the object stays above the horizon
    angle. *)
Lemma cosHourAngle_below :
  cosHourAngle dec lat h0 < -1 <-> 90 + h0 < Rabs (lat + dec).
Proof.
  destruct radians_in_quarter as (H1 & H2 & H3).
  pose proof cos_product_positive as Hc. pose proof PI_RGT_0 as Hpi.
  unfold cosHourAngle. fold l d h.
  rewrite (div_below _ _ Hc).
  assert (E : - (cos l * cos d) + sin l * sin d = sin (Rabs (l + d) - PI / 2)).
  { rewrite sin_shift_quarter, cos_Rabs, cos_plus. ring. }
  assert (Habs : 0 <= Rabs (l + d) < PI).
  { split; [apply Rabs_pos|]. apply Rabs_def1; lra. }
  assert (Q : sin h < sin (Rabs (l + d) - PI / 2) <->
              h < Rabs (l + d) - PI / 2).
  { apply sin_lt_iff; lra. }
  assert (Er : Rabs (l + d) = toRadians (Rabs (lat + dec))).
  { rewrite toRadians_Rabs. unfold l, d, toRadians. f_equal. ring. }
  rewrite <- E in Q.
  assert (Eh : h < Rabs (l + d) - PI / 2 <-> 90 + h0 < Rabs (lat + dec)).
  { rewrite Er. unfold h, toRadians, DEG_TO_RAD. split; intros H; nra. }
  rewrite <- Eh, <- Q. split; intros H; lra.
Qed.

(** It is above 1 exactly when the declination is so far on the other side
    that the object stays below the horizon angle. *)
Lemma cosHourAngle_above :
  1 < cosHourAngle dec lat h0 <-> 90 - h0 < Rabs (lat - dec).
Proof.
  destruct radians_in_quarter as (H1 & H2 & H3).
  pose proof cos_product_positive as Hc. pose proof PI_RGT_0 as Hpi.
  unfold cosHourAngle. fold l d h.
  rewrite (div_above _ _ Hc).
  assert (E : cos l * cos d + sin l * sin d = sin (PI / 2 - Rabs (l - d))).
  { rewrite sin_quarter_minus, cos_Rabs, cos_minus. ring. }
  assert (Habs : 0 <= Rabs (l - d) < PI).
  { split; [apply Rabs_pos|]. apply Rabs_def1; lra. }
  assert (Q : sin (PI / 2 - Rabs (l - d)) < sin h <->
              PI / 2 - Rabs (l - d) < h).
  { apply sin_lt_iff; lra. }
  assert (Er : Rabs (l - d) = toRadians (Rabs (lat - dec))).
  { rewrite toRadians_Rabs. unfold l, d, toRadians. f_equal. ring. }
  rewrite <- E in Q.
  assert (Eh : PI / 2 - Rabs (l - d) < h <-> 90 - h0 < Rabs (lat - dec)).
  { rewrite Er. unfold h, toRadians, DEG_TO_RAD. split; intros H; nra. }
  rewrite <- Eh, <- Q. split; intros H; lra.
Qed.

End Thresholds.



End HourAngleFacts.

Section TransitFacts.
Import JSDate JS Astronomy.
Local Open Scope R_scope.

Lemma dateToJulian_days (t : Z) :
  dateToJulian t = 2440587.5 + IZR t / 86400000.
Proof.
  rewrite dateToJulian_real.
  rewrite (Day_decompose t) at 3. rewrite plus_IZR, mult_IZR. field.
Qed.

Lemma lst_congruent (jd lon : R) :
  exists k : Z, lst jd lon = gmst_polynomial jd + lon - 360 * IZR k.
Proof.
  unfold lst, gmst. cbv zeta. fold (gmst_polynomial jd).
  rewrite (normalizeAngle_floor (normalizeAngle (gmst_polynomial jd) + lon)).
  rewrite (normalizeAngle_floor (gmst_polynomial jd)).
  set (k1 := Zfloor (gmst_polynomial jd / 360)).
  set (k2 := Zfloor ((gmst_polynomial jd - 360 * IZR k1 + lon) / 360)).
  exists (k1 + k2)%Z. rewrite plus_IZR. ring.
Qed.

Lemma IZR_small (n : Z) : -1 < IZR n < 1 -> n = 0%Z.
Proof.
  intros [H1 H2].
  apply (lt_IZR (-1)) in H1. apply (lt_IZR n 1) in H2. lia.
Qed.

(** An angle that is a small angle plus whole turns is reduced to the small
    angle. *)
Lemma normalizeAngleSigned_small (x eps : R) (k : Z) :
  x = eps + 360 * IZR k -> -180 < eps <= 180 ->
  normalizeAngleSigned x = eps.
Proof.
  intros Ex He.
  destruct (normalizeAngleSigned_turns x) as (Hr & (k' & Hk')).
  assert (E : normalizeAngleSigned x - eps = 360 * IZR (k - k')).
  { rewrite Hk', Ex, minus_IZR. ring. }
  assert (Hz : (k - k' = 0)%Z).
  { apply IZR_small. lra. }
  rewrite Hz in E. simpl in E. lra.
Qed.

(** The hour angle [calculateTransit] converts into a time. *)
Lemma transit_hour_angle (ra lst0 : R) :
  0 <= ra < 360 -> 0 <= lst0 < 360 ->
  let hourAngle := ra - lst0 in
  let hourAngle := if lt hourAngle 0 then hourAngle + 360 else hourAngle in
  let hourAngle := if lt 180 hourAngle then hourAngle - 360 else hourAngle in
  -180 < hourAngle <= 180 /\
  exists j : Z, hourAngle = ra - lst0 + 360 * IZR j.
Proof.
  intros Hra Hl. cbv zeta.
  destruct (lt (ra - lst0) 0) eqn:E1;
    [apply lt_spec in E1 | apply lt_spec_false in E1].
  - destruct (lt 180 (ra - lst0 + 360)) eqn:E2;
      [apply lt_spec in E2 | apply lt_spec_false in E2].
    + split; [lra|]. exists 0%Z. simpl. ring.
    + split; [lra|]. exists 1%Z. simpl. ring.
  - destruct (lt 180 (ra - lst0)) eqn:E2;
      [apply lt_spec in E2 | apply lt_spec_false in E2].
    + split; [lra|]. exists (-1)%Z. simpl. ring.
    + split; [lra|]. exists 0%Z. simpl. ring.
Qed.

(** X10.  [calculateTransit] returns the instant at which the local
    sidereal time equals the right ascension: for a right ascension in
    [0, 360) and a date between the years 1667 and 2273, the result is a
    valid date within 43200001 ms of the UTC midnight of [date], and the
    local sidereal time [lst] at that instant differs from [ra] by less
    than 0.00001 degrees, whole turns apart. *)
Theorem transit_at_sidereal_time (ra lon : R) (date : Z) :
  0 <= ra < 360 -> (Z.abs date <= 9586684800000)%Z ->
  exists T : Z,
    calculateTransit ra lon date = ValidDate T /\
    IZR (setUTCHours0 date) - 43200001 < IZR T
      < IZR (setUTCHours0 date) + 43200001 /\
    Rabs (normalizeAngleSigned (lst (dateToJulian T) lon - ra)) < 0.00001.
Proof.
  intros Hra Hdate.
  destruct (calculateTransit_near ra lon date Hra) as (T & ET & HT).
  { unfold maxTime. lia. }
  exists T. split; [exact ET|]. split; [exact HT|].
  pose proof (setUTCHours0_range date) as Hm.
  set (m0 := setUTCHours0 date) in *.
  set (jd0 := dateToJulian m0).
  set (lst0 := lst jd0 lon).
  assert (Hl0 : 0 <= lst0 < 360) by apply normalizeAngle_range.
  destruct (transit_hour_angle ra lst0 Hra Hl0) as (Hha & j & Ej).
  cbv zeta in Hha, Ej.
  set (ha := if lt 180 (if lt (ra - lst0) 0 then ra - lst0 + 360 else ra - lst0)
             then (if lt (ra - lst0) 0 then ra - lst0 + 360 else ra - lst0) - 360
             else (if lt (ra - lst0) 0 then ra - lst0 + 360 else ra - lst0)) in *.
  set (transitMs := ha / HOURS_TO_DEG * 3600000 / SIDEREAL_RATIO).
  assert (ET' : calculateTransit ra lon date = new_Date (IZR m0 + transitMs))
    by reflexivity.
  assert (Hms : -43200000 < transitMs <= 43200000).
  { unfold transitMs, HOURS_TO_DEG, SIDEREAL_RATIO.
    assert (E : ha / 15 * 3600000 / 1.00273790935 =
                ha * (240000 / 1.00273790935)) by (field; lra).
    rewrite E.
    assert (Hc : 239344 < 240000 / 1.00273790935 < 239345).
    { split.
      - apply (Rmult_lt_reg_r 1.00273790935); [lra|].
        replace (240000 / 1.00273790935 * 1.00273790935) with 240000
          by (field; lra). lra.
      - apply (Rmult_lt_reg_r 1.00273790935); [lra|].
        replace (240000 / 1.00273790935 * 1.00273790935) with 240000
          by (field; lra). lra. }
    split; nra. }
  assert (Hdm : -9586771200000 <= IZR m0 <= 9586684800000).
  { destruct Hm as [Hm1 Hm2].
    assert (H1 : (-9586771200000 <= m0)%Z) by lia.
    assert (H2 : (m0 <= 9586684800000)%Z) by lia.
    apply IZR_le in H1, H2. lra. }
  rewrite ET' in ET.
  rewrite new_Date_valid in ET.
  2:{ unfold maxTime. apply Rabs_le. lra. }
  injection ET as ET.
  pose proof (trunc_near (IZR m0 + transitMs)) as Hnear. rewrite ET in Hnear.
  set (theta := IZR T - IZR m0 - transitMs).
  assert (Hth : -1 < theta < 1) by (unfold theta; lra).
  (* the sidereal times at both instants *)
  destruct (lst_congruent (dateToJulian T) lon) as [k1 Ek1].
  destruct (lst_congruent jd0 lon) as [k0 Ek0]. fold lst0 in Ek0.
  set (eps := gmst_polynomial (dateToJulian T) - gmst_polynomial jd0 - ha).
  assert (Ex : lst (dateToJulian T) lon - ra = eps + 360 * IZR (j + k0 - k1)).
  { rewrite Ek1. unfold eps. rewrite Ej, Ek0.
    rewrite minus_IZR, plus_IZR. ring. }
  assert (Heps : Rabs eps < 0.00001).
  { unfold eps, gmst_polynomial. cbv zeta.
    unfold jd0. rewrite !dateToJulian_days.
    unfold J2000, JULIAN_CENTURY, GMST_AT_J2000, GMST_RATE.
    set (u := (2440587.5 + IZR m0 / 86400000 - 2451545.0) / 36525).
    set (a := (IZR T - IZR m0) / 86400000 / 36525).
    replace ((2440587.5 + IZR T / 86400000 - 2451545.0) / 36525)
      with (u + a) by (unfold u, a; field).
    replace (2440587.5 + IZR T / 86400000 - 2451545.0)
      with (2440587.5 + IZR m0 / 86400000 - 2451545.0 +
            (IZR T - IZR m0) / 86400000) by field.
    assert (Hu : -3.4 <= u <= 3.1) by (unfold u; lra).
    assert (Ha : -0.000014 <= a <= 0.000014) by (unfold a; lra).
    assert (ETm : IZR T - IZR m0 = transitMs + theta) by (unfold theta; ring).
    assert (Elin : 360.98564736629 * ((IZR T - IZR m0) / 86400000) - ha =
                   ha * (360.98564736629 / (360 * 1.00273790935) - 1) +
                   360.98564736629 * theta / 86400000).
    { rewrite ETm. unfold transitMs, HOURS_TO_DEG, SIDEREAL_RATIO. field; lra. }
    assert (Hratio : -0.000000000001 <=
                     360.98564736629 / (360 * 1.00273790935) - 1 <=
                     0.000000000001).
    { assert (P : 0 < 360 * 1.00273790935) by lra.
      split.
      - apply (Rmult_le_reg_r (360 * 1.00273790935)); [exact P|].
        replace ((360.98564736629 / (360 * 1.00273790935) - 1) *
                 (360 * 1.00273790935))
          with (360.98564736629 - 360 * 1.00273790935) by (field; lra).
        lra.
      - apply (Rmult_le_reg_r (360 * 1.00273790935)); [exact P|].
        replace ((360.98564736629 / (360 * 1.00273790935) - 1) *
                 (360 * 1.00273790935))
          with (360.98564736629 - 360 * 1.00273790935) by (field; lra).
        lra. }
    set (rho := 360.98564736629 / (360 * 1.00273790935) - 1) in *.
    assert (H1 : -0.0000000002 <= ha * rho <= 0.0000000002).
    { pose proof (product_bound ha rho 180 0.000000000001
                    ltac:(lra) ltac:(lra)). lra. }
    assert (H2 : -0.0000042 <= 360.98564736629 * theta / 86400000 <= 0.0000042)
      by lra.
    assert (Equad : (u + a) * (u + a) - u * u = a * (2 * u + a)) by ring.
    assert (H3 : -0.0001 <= a * (2 * u + a) <= 0.0001).
    { pose proof (product_bound a (2 * u + a) 0.000014 6.9
                    ltac:(lra) ltac:(lra)). lra. }
    assert (Ecub : (u + a) * (u + a) * (u + a) - u * u * u =
                   a * (3 * u * u + 3 * u * a + a * a)) by ring.
    assert (Huu : 0 <= u * u <= 11.56).
    { pose proof (product_bound u u 3.4 3.4 ltac:(lra) ltac:(lra)).
      pose proof (Rle_0_sqr u) as P. unfold Rsqr in P. lra. }
    assert (Hua : -0.00005 <= u * a <= 0.00005).
    { pose proof (product_bound u a 3.4 0.000014 ltac:(lra) ltac:(lra)).
      lra. }
    assert (Haa : 0 <= a * a <= 0.000001).
    { pose proof (product_bound a a 0.000014 0.000014
                    ltac:(lra) ltac:(lra)).
      pose proof (Rle_0_sqr a) as P. unfold Rsqr in P. lra. }
    assert (H4 : -0.001 <= a * (3 * u * u + 3 * u * a + a * a) <= 0.001).
    { pose proof (product_bound a (3 * u * u + 3 * u * a + a * a)
                    0.000014 35 ltac:(lra) ltac:(lra)). lra. }
    apply Rabs_def1; lra. }
  rewrite (normalizeAngleSigned_small _ eps _ Ex).
  - exact Heps.
  - apply Rabs_def2 in Heps. lra.
Qed.

Lemma transit_at_sidereal_time_witness :
  (0 <= 83.6 < 360 /\ (Z.abs 1700000000000 <= 9586684800000)%Z) /\
  exists T : Z,
    calculateTransit 83.6 (-71.05) 1700000000000 = ValidDate T /\
    Rabs (normalizeAngleSigned (lst (dateToJulian T) (-71.05) - 83.6)) < 0.00001.
Proof.
  assert (H1 : 0 <= 83.6 < 360) by lra.
  assert (H2 : (Z.abs 1700000000000 <= 9586684800000)%Z) by (cbn; lia).
  split; [split; assumption|].
  destruct (transit_at_sidereal_time 83.6 (-71.05) 1700000000000 H1 H2)
    as (T & E & _ & H).
  exists T. split; assumption.
Defined.

End TransitFacts.

Section SunFacts.
Import JSDate JS Astronomy.
Local Open Scope R_scope.

Lemma toDegrees_le (x y : R) : x <= y -> toDegrees x <= toDegrees y.
Proof.
  intros H. pose proof PI_RGT_0 as Hpi. unfold toDegrees, RAD_TO_DEG.
  apply Rmult_le_compat_r; [|exact H].
  left. apply Rdiv_lt_0_compat; lra.
Qed.

(** [asin (s * x)] stays within the angle whose sine is [s]. *)
Lemma asin_scaled (e x : R) :
  0 <= e <= PI / 2 -> -1 <= x <= 1 ->
  - e <= asin (sin e * x) <= e.
Proof.
  intros He Hx. pose proof PI_RGT_0 as Hpi.
  assert (Hs : 0 <= sin e <= 1).
  { split; [apply sin_ge_0; lra | apply SIN_bound]. }
  assert (Hb : -1 <= sin e * x <= 1) by (split; nra).
  pose proof (asin_bound (sin e * x)) as Ha.
  pose proof (sin_asin _ Hb) as Es.
  split.
  - destruct (Rle_or_lt (- e) (asin (sin e * x))) as [H|H]; [exact H|].
    exfalso.
    assert (Hlt : sin (asin (sin e * x)) < sin (- e))
      by (apply sin_increasing_1; lra).
    rewrite Es, sin_neg in Hlt. nra.
  - destruct (Rle_or_lt (asin (sin e * x)) e) as [H|H]; [exact H|].
    exfalso.
    assert (Hlt : sin e < sin (asin (sin e * x)))
      by (apply sin_increasing_1; lra).
    rewrite Es in Hlt. nra.
Qed.

(** Inside the window the declination of the Sun is within the mean
    obliquity on either side. *)
Lemma sun_declination_bound (t : Z) :
  in_window t ->
  23 <= meanObliquity (dateToJulian t) <= 24 /\
  - meanObliquity (dateToJulian t) <= sun_dec (approximateSunPosition t)
    <= meanObliquity (dateToJulian t).
Proof.
  intros Hw.
  pose proof (obliquity_window _ (julian_window t Hw)) as He.
  split; [exact He|].
  unfold approximateSunPosition. cbv zeta. cbn [sun_dec].
  set (eps := meanObliquity (dateToJulian t)) in *.
  pose proof PI_RGT_0 as Hpi.
  assert (Hr : 0 <= toRadians eps <= PI / 2).
  { unfold toRadians, DEG_TO_RAD. split; nra. }
  match goal with
  | |- _ <= toDegrees (asin (sin _ * sin ?l)) <= _ =>
    pose proof (asin_scaled (toRadians eps) (sin l) Hr (SIN_bound l)) as Hb
  end.
  destruct Hb as [Hb1 Hb2].
  apply toDegrees_le in Hb1, Hb2.
  rewrite toDegrees_toRadians in Hb2.
  replace (toDegrees (- toRadians eps)) with (- eps) in Hb1.
  2:{ unfold toDegrees, toRadians, RAD_TO_DEG, DEG_TO_RAD. field. lra. }
  split; assumption.
Qed.



Lemma sun_dec_window (t : Z) :
  in_window t -> -24 <= sun_dec (approximateSunPosition t) <= 24.
Proof.
  intros Hw.
  destruct (sun_declination_bound t Hw) as [[_ He] [Hd1 Hd2]].
  lra.
Qed.

(** Inside the window and within 48 degrees of the equator the Sun
    reaches every horizon angle from 0 down to -18 degrees. *)
Lemma sun_hour_angle_defined (lat h0 : R) (t : Z) :
  in_window t -> -48 <= lat <= 48 -> -18 <= h0 <= 0 ->
  -1 <= cosHourAngle (sun_dec (approximateSunPosition t)) lat h0 <= 1.
Proof.
  intros Hw Hlat Hh0.
  pose proof (sun_dec_window t Hw) as Hd.
  set (dec := sun_dec (approximateSunPosition t)) in *.
  assert (H1 : -90 < lat < 90) by lra.
  assert (H2 : -90 < dec < 90) by lra.
  assert (H3 : -90 <= h0 <= 90) by lra.
  pose proof (cosHourAngle_below dec lat h0 H1 H2 H3) as Hb.
  pose proof (cosHourAngle_above dec lat h0 H1 H2 H3) as Ha.
  assert (P1 : Rabs (lat + dec) <= 72) by (apply Rabs_le; lra).
  assert (P2 : Rabs (lat - dec) <= 72) by (apply Rabs_le; lra).
  split.
  - destruct (Rle_or_lt (-1) (cosHourAngle dec lat h0)) as [H|H]; [exact H|].
    apply Hb in H. lra.
  - destruct (Rle_or_lt (cosHourAngle dec lat h0) 1) as [H|H]; [exact H|].
    apply Ha in H. lra.
Qed.

Lemma sun_rise_set_normal (sunDec lat lon : R) (date : Z) (h0 : R) :
  -1 <= cosHourAngle sunDec lat h0 <= 1 ->
  calculateSunRiseSet sunDec lat lon date h0 =
  {| srs_rise := Some (Date_offset
                   (calculateTransit (sun_ra (approximateSunPosition date))
                                     lon date)
                   (- riseOffset sunDec lat h0));
     srs_set := Some (Date_offset
                   (calculateTransit (sun_ra (approximateSunPosition date))
                                     lon date)
                   (riseOffset sunDec lat h0));
     polarDay := false; polarNight := false |}.
Proof.
  intros Hc. unfold calculateSunRiseSet. cbv zeta.
  fold (cosHourAngle sunDec lat h0).
  rewrite (lt_false _ (-1)) by lra. rewrite (lt_false 1) by lra.
  reflexivity.
Qed.

(** The offset from transit grows as the horizon angle goes down. *)
Lemma riseOffset_decreasing (dec lat h1 h2 : R) :
  -90 < lat < 90 -> -90 < dec < 90 ->
  -90 <= h1 <= h2 -> h2 <= 90 ->
  -1 <= cosHourAngle dec lat h1 -> cosHourAngle dec lat h2 <= 1 ->
  riseOffset dec lat h2 <= riseOffset dec lat h1.
Proof.
  intros Hlat Hdec Hh1 Hh2 Hlo Hhi. pose proof PI_RGT_0 as Hpi.
  assert (Hc : 0 < cos (toRadians lat) * cos (toRadians dec)).
  { pose proof (toRadians_range_lt lat (-90) 90 Hlat).
    pose proof (toRadians_range_lt dec (-90) 90 Hdec).
    apply Rmult_lt_0_compat; apply cos_gt_0; lra. }
  assert (Hsin : sin (toRadians h1) <= sin (toRadians h2)).
  { apply sin_incr_1;
      pose proof (toRadians_range h1 (-90) 90 ltac:(lra));
      pose proof (toRadians_range h2 (-90) 90 ltac:(lra));
      try lra.
    unfold toRadians, DEG_TO_RAD. nra. }
  assert (Hcos : cosHourAngle dec lat h1 <= cosHourAngle dec lat h2).
  { unfold cosHourAngle.
    apply Rmult_le_compat_r; [left; apply Rinv_0_lt_compat; exact Hc | lra]. }
  assert (Hac : acos (cosHourAngle dec lat h2) <= acos (cosHourAngle dec lat h1)).
  { pose proof (acos_bound (cosHourAngle dec lat h1)) as B1.
    pose proof (acos_bound (cosHourAngle dec lat h2)) as B2.
    apply cos_decr_0; try lra.
    rewrite !cos_acos by lra. exact Hcos. }
  unfold riseOffset, HOURS_TO_DEG. apply toDegrees_le in Hac. lra.
Qed.

End SunFacts.

Section TwilightOrderFacts.
Import JSDate JS Astronomy.
Local Open Scope R_scope.

Lemma trunc_le (x y : R) : x <= y -> (trunc x <= trunc y)%Z.
Proof.
  intros H.
  assert (Ef : forall z, 0 <= z -> trunc z = Zfloor z).
  { intros z Hz. unfold trunc. destruct (Rle_dec 0 z); [reflexivity | lra]. }
  assert (Ec : forall z, z < 0 -> trunc z = Zceil z).
  { intros z Hz. unfold trunc. destruct (Rle_dec 0 z); [lra | reflexivity]. }
  destruct (Rle_or_lt 0 x) as [Hx|Hx]; destruct (Rle_or_lt 0 y) as [Hy|Hy].
  - rewrite !Ef by assumption. apply Zfloor_le, H.
  - lra.
  - apply Z.le_trans with 0%Z.
    + apply le_IZR. apply (trunc_sign_nonpos x). lra.
    + rewrite Ef by assumption. apply (Zfloor_lub 0). exact Hy.
  - rewrite !Ec by assumption.
    rewrite <- (Ropp_involutive x), <- (Ropp_involutive y).
    rewrite !ZceilN. apply Z.opp_le_mono. rewrite !Z.opp_involutive.
    apply Zfloor_le. lra.
Qed.

Lemma Date_offset_valid (T : Z) (off : R) :
  Rabs (IZR T + off) <= IZR maxTime ->
  Date_offset (ValidDate T) off = ValidDate (trunc (IZR T + off)).
Proof. intros H. unfold Date_offset. apply new_Date_valid, H. Qed.

(** X12.  Between 2000 and 2273 and within 48 degrees of the equator,
    [calculateSunRiseSet] gives a rise and a set for every horizon angle
    from 0 down to -18 degrees, and the times are nested: a lower horizon
    angle has its rise no later and its set no earlier.  So astronomical
    dawn, nautical dawn, civil dawn, sunrise, sunset, civil dusk, nautical
    dusk and astronomical dusk come in this order. *)
Theorem twilight_times_nested (lat lon : R) (t : Z) (h1 h2 : R) :
  in_window t -> -48 <= lat <= 48 -> -18 <= h1 <= h2 -> h2 <= 0 ->
  let dec := sun_dec (approximateSunPosition t) in
  exists rise1 rise2 set2 set1 : Z,
    calculateSunRiseSet dec lat lon t h1 =
      {| srs_rise := Some (ValidDate rise1); srs_set := Some (ValidDate set1);
         polarDay := false; polarNight := false |} /\
    calculateSunRiseSet dec lat lon t h2 =
      {| srs_rise := Some (ValidDate rise2); srs_set := Some (ValidDate set2);
         polarDay := false; polarNight := false |} /\
    (rise1 <= rise2 <= set2)%Z /\ (set2 <= set1)%Z.
Proof.
  intros Hw Hlat Hh1 Hh2 dec.
  pose proof (sun_dec_window t Hw) as Hd. fold dec in Hd.
  assert (Hc1 : -1 <= cosHourAngle dec lat h1 <= 1)
    by (apply sun_hour_angle_defined; [exact Hw | exact Hlat | lra]).
  assert (Hc2 : -1 <= cosHourAngle dec lat h2 <= 1)
    by (apply sun_hour_angle_defined; [exact Hw | exact Hlat | lra]).
  rewrite (sun_rise_set_normal dec lat lon t h1 Hc1).
  rewrite (sun_rise_set_normal dec lat lon t h2 Hc2).
  destruct (calculateTransit_near (sun_ra (approximateSunPosition t)) lon t)
    as (T & ET & HT).
  { apply normalizeAngle_range. }
  { destruct Hw. unfold maxTime. lia. }
  rewrite ET.
  pose proof (riseOffset_range dec lat h1) as Ho1.
  pose proof (riseOffset_range dec lat h2) as Ho2.
  assert (Hmono : riseOffset dec lat h2 <= riseOffset dec lat h1).
  { apply riseOffset_decreasing; lra. }
  pose proof (setUTCHours0_range t) as Hm.
  assert (HTr : 0 <= IZR T <= 9586728000001).
  { destruct Hw as [W1 W2]. destruct Hm as [M1 M2].
    assert (A1 : (946598400000 <= setUTCHours0 t)%Z) by lia.
    assert (A2 : (setUTCHours0 t <= 9586684800000)%Z) by lia.
    apply IZR_le in A1, A2. lra. }
  set (o1 := riseOffset dec lat h1) in *.
  set (o2 := riseOffset dec lat h2) in *.
  assert (Hmax : IZR maxTime = 8640000000000000) by reflexivity.
  exists (trunc (IZR T + - o1)), (trunc (IZR T + - o2)),
         (trunc (IZR T + o2)), (trunc (IZR T + o1)).
  rewrite !Date_offset_valid by (rewrite Hmax; apply Rabs_le; lra).
  split; [reflexivity|]. split; [reflexivity|].
  repeat split; apply trunc_le; lra.
Qed.

Lemma twilight_times_nested_witness :
  (in_window 1700000000000 /\ -48 <= 42.36 <= 48 /\ -18 <= -18 <= -6 /\
   -6 <= 0) /\
  exists rise1 rise2 set2 set1 : Z,
    srs_rise (calculateSunRiseSet
                (sun_dec (approximateSunPosition 1700000000000))
                42.36 (-71.05) 1700000000000 (-18)) = Some (ValidDate rise1) /\
    srs_rise (calculateSunRiseSet
                (sun_dec (approximateSunPosition 1700000000000))
                42.36 (-71.05) 1700000000000 (-6)) = Some (ValidDate rise2) /\
    (rise1 <= rise2 <= set2)%Z /\ (set2 <= set1)%Z.
Proof.
  assert (Hw : in_window 1700000000000) by (unfold in_window; lia).
  assert (H1 : -48 <= 42.36 <= 48) by lra.
  assert (H2 : -18 <= -18 <= -6) by lra.
  assert (H3 : -6 <= 0) by lra.
  split; [repeat split; try lra; apply Hw|].
  destruct (twilight_times_nested 42.36 (-71.05) 1700000000000 (-18) (-6)
              Hw H1 H2 H3) as (r1 & r2 & s2 & s1 & E1 & E2 & Ho & Hs).
  exists r1, r2, s2, s1. rewrite E1, E2. cbn [srs_rise].
  repeat split; try reflexivity; lia.
Defined.

(** X13.  Within 48 degrees of the equator [calculateTwilightTimes] does
    not return: between 2000 and 2273 every day has an astronomical dusk
    and dawn, so every activation starts the one for the next day, and no
    number of nested activations that stays inside those years is
    enough. *)
Theorem twilight_never_returns (lat lon : R) (fuel : nat) (t : Z) :
  -48 <= lat <= 48 ->
  (946684800000 <= t)%Z ->
  (t + Z.of_nat fuel * 86400000 <= 9586684800000)%Z ->
  calculateTwilightTimes fuel lat lon t = None.
Proof.
  intros Hlat. revert t.
  induction fuel as [|k IH]; intros t Hlo Hhi; [reflexivity|].
  assert (Hw : in_window t) by (unfold in_window; lia).
  assert (Hc : -1 <= cosHourAngle (sun_dec (approximateSunPosition t)) lat
                      TWILIGHT_ASTRONOMICAL <= 1).
  { apply sun_hour_angle_defined;
      [exact Hw | exact Hlat | unfold TWILIGHT_ASTRONOMICAL; lra]. }
  destruct (nextDate_in_window t) as [Hnext _]; [lia|].
  apply (twilight_needs_next_day k lat lon t (t + 86400000) _ _
           (sun_rise_set_normal _ lat lon t _ Hc) Hnext).
  apply IH; lia.
Qed.

Lemma twilight_never_returns_witness :
  (-48 <= 42.36 <= 48 /\ (946684800000 <= 1700000000000)%Z /\
   (1700000000000 + Z.of_nat 3 * 86400000 <= 9586684800000)%Z) /\
  calculateTwilightTimes 3 42.36 (-71.05) 1700000000000 = None.
Proof.
  assert (H1 : -48 <= 42.36 <= 48) by lra.
  assert (H2 : (946684800000 <= 1700000000000)%Z) by lia.
  assert (H3 : (1700000000000 + Z.of_nat 3 * 86400000 <= 9586684800000)%Z)
    by (cbn; lia).
  split; [repeat split; try lra; assumption|].
  exact (twilight_never_returns 42.36 (-71.05) 3 1700000000000 H1 H2 H3).
Defined.

End TwilightOrderFacts.

(** ** The Moon *)

Section MoonFacts.
Import JSDate JS Astronomy.
Local Open Scope R_scope.





(** The sine of a latitude-like combination of three angles is within
    [-1, 1]. *)
Lemma ecliptic_rule_bound (b e l : R) :
  -1 <= sin b * cos e + cos b * sin e * sin l <= 1.
Proof.
  pose proof (sin2_cos2 b) as H1. pose proof (sin2_cos2 e) as H2.
  pose proof (sin2_cos2 l) as H3. unfold Rsqr in *.
  set (sb := sin b) in *. set (cb := cos b) in *.
  set (se := sin e) in *. set (ce := cos e) in *.
  set (sl := sin l) in *. set (cl := cos l) in *.
  assert (Hsq : (sb * ce + cb * se * sl) * (sb * ce + cb * se * sl) <= 1).
  { assert (E : 1 - (sb * ce + cb * se * sl) * (sb * ce + cb * se * sl) =
                (sb * se * sl - cb * ce) * (sb * se * sl - cb * ce) +
                (sb * sb + cb * cb) * ((se * cl) * (se * cl))).
    { replace 1 with ((sb * sb + cb * cb) * (ce * ce + se * se * (sl * sl + cl * cl)))
        at 1 by (rewrite H1, H3, Rmult_1_r; lra).
      ring. }
    pose proof (Rle_0_sqr (sb * se * sl - cb * ce)) as P1.
    pose proof (Rle_0_sqr (se * cl)) as P2. unfold Rsqr in P1, P2.
    rewrite H1 in E. lra. }
  split; nra.
Qed.



End MoonFacts.

(** ** Planets *)

Section KeplerAccuracy.
Import JSDate JS Astronomy.
Local Open Scope R_scope.

Lemma one_minus_cos_abs (s : R) : Rabs s <= 1 -> 0 <= 1 - cos s <= s ^ 2 / 2.
Proof.
  intros Hs. rewrite <- cos_Rabs.
  pose proof (Rabs_pos s) as H0.
  pose proof (one_minus_cos (Rabs s) ltac:(lra)) as H.
  replace (s ^ 2) with (Rabs s ^ 2); [exact H|].
  unfold Rabs. destruct (Rcase_abs s); ring.
Qed.

Lemma s_minus_sin_abs (s : R) :
  Rabs s <= 1 -> Rabs (s - sin s) <= Rabs s ^ 3 / 6.
Proof.
  intros Hs. pose proof (Rabs_pos s) as H0.
  pose proof (t_minus_sin (Rabs s) ltac:(lra)) as H.
  unfold Rabs in *. destruct (Rcase_abs s) as [Hn|Hp].
  - rewrite sin_neg in H.
    destruct (Rcase_abs (s - sin s)); lra.
  - destruct (Rcase_abs (s - sin s)); lra.
Qed.

(** After a Newton step of size [s], what is left of Kepler's equation is
    of second order in [s]. *)
Lemma residual_after_step (e m x : R) :
  0 <= e < 0.9 ->
  let s := newton_step e m x in
  kepler_g e m (x + s) =
  e * (sin x * (1 - cos s) + cos x * (s - sin s)).
Proof.
  intros He s.
  pose proof (denominator_positive e He x) as Hd.
  assert (Es : m - x + e * sin x = s * (1 - e * cos x)).
  { unfold s, newton_step. field. lra. }
  unfold kepler_g. rewrite sin_plus.
  assert (Em : m = s * (1 - e * cos x) + x - e * sin x) by lra.
  rewrite Em at 1. ring.
Qed.

(** X16.  The loop of [calculateHeliocentricPosition] solves Kepler's
    equation: for an eccentricity from 0 up to, not including, 0.9 and a
    mean anomaly in [0, 360), the eccentric anomaly [E] it ends with
    satisfies [M = E - e sin E] (in degrees) to within 0.0000000001
    degrees. *)
Theorem kepler_loop_solves (ecc M : R) :
  0 <= ecc < 0.9 -> 0 <= M < 360 ->
  Rabs (kepler_residual ecc M
          (kepler_loop 10 ecc M (M + toDegrees ecc * sin (toRadians M))))
    < 0.0000000001.
Proof.
  intros He HM. pose proof PI_bounds as Hpi.
  pose proof (kepler_breaks_all ecc M He HM) as Hb.
  destruct (kepler_loop_breaks 10 ecc M _ Hb) as (E' & EE & Hd).
  fold (kepler_start ecc M). rewrite EE.
  set (x := toRadians E').
  set (s := newton_step ecc (toRadians M) x).
  assert (Es : toRadians (kepler_dE ecc M E') = s) by (apply dE_radians; exact He).
  assert (Ex : toRadians (E' + kepler_dE ecc M E') = x + s).
  { rewrite toRadians_plus, Es. reflexivity. }
  assert (Eres : kepler_residual ecc M (E' + kepler_dE ecc M E') =
                 - toDegrees (kepler_g ecc (toRadians M) (x + s))).
  { unfold kepler_residual, kepler_g. rewrite Ex.
    rewrite <- (toDegrees_toRadians M) at 1.
    rewrite <- (toDegrees_toRadians (E' + kepler_dE ecc M E')) at 1.
    rewrite Ex. unfold toDegrees. ring. }
  rewrite Eres, Rabs_Ropp.
  pose proof (residual_after_step ecc (toRadians M) x He) as Er.
  cbv zeta in Er. fold s in Er. rewrite Er.
  assert (Hs : Rabs s < 0.00000175).
  { rewrite <- Es. unfold toRadians, DEG_TO_RAD.
    rewrite Rabs_mult, (Rabs_pos_eq (PI / 180)) by lra.
    pose proof (Rabs_pos (kepler_dE ecc M E')). nra. }
  pose proof (Rabs_pos s) as Hs0.
  pose proof (one_minus_cos_abs s ltac:(lra)) as Hc.
  pose proof (s_minus_sin_abs s ltac:(lra)) as Hsn.
  pose proof (SIN_bound x) as Bs. pose proof (COS_bound x) as Bc.
  assert (Hs2 : s ^ 2 <= 0.0000000000031).
  { replace (s ^ 2) with (Rabs s * Rabs s)
      by (unfold Rabs; destruct (Rcase_abs s); ring). nra. }
  assert (Hs3 : Rabs s ^ 3 <= 0.00000000000000001).
  { replace (Rabs s ^ 3) with (Rabs s * (Rabs s * Rabs s)) by ring.
    assert (Rabs s * Rabs s <= 0.0000000000031) by nra. nra. }
  assert (H1 : Rabs (sin x * (1 - cos s)) <= 0.00000000000155).
  { rewrite Rabs_mult. rewrite (Rabs_pos_eq (1 - cos s)) by lra.
    assert (Rabs (sin x) <= 1) by (apply Rabs_le; lra).
    pose proof (Rabs_pos (sin x)). nra. }
  assert (H2 : Rabs (cos x * (s - sin s)) <= 0.00000000000000001).
  { rewrite Rabs_mult.
    assert (Rabs (cos x) <= 1) by (apply Rabs_le; lra).
    pose proof (Rabs_pos (cos x)). pose proof (Rabs_pos (s - sin s)). nra. }
  assert (H3 : Rabs (ecc * (sin x * (1 - cos s) + cos x * (s - sin s)))
               <= 0.0000000000014).
  { rewrite Rabs_mult, (Rabs_pos_eq ecc) by lra.
    pose proof (Rabs_triang (sin x * (1 - cos s)) (cos x * (s - sin s))).
    pose proof (Rabs_pos (sin x * (1 - cos s) + cos x * (s - sin s))). nra. }
  unfold toDegrees, RAD_TO_DEG.
  rewrite Rabs_mult.
  assert (Hk : 0 < 180 / PI <= 57.2975).
  { split; [apply Rdiv_lt_0_compat; lra|].
    apply (Rmult_le_reg_r PI); [lra|].
    replace (180 / PI * PI) with 180 by (field; lra). lra. }
  rewrite (Rabs_pos_eq (180 / PI)) by lra.
  pose proof (Rabs_pos (ecc * (sin x * (1 - cos s) + cos x * (s - sin s)))).
  nra.
Qed.

Lemma kepler_loop_solves_witness :
  (0 <= 0.2 < 0.9 /\ 0 <= 100 < 360) /\
  Rabs (kepler_residual 0.2 100
          (kepler_loop 10 0.2 100 (100 + toDegrees 0.2 * sin (toRadians 100))))
    < 0.0000000001.
Proof.
  assert (He : 0 <= 0.2 < 0.9) by lra.
  assert (HM : 0 <= 100 < 360) by lra.
  split; [split; assumption | exact (kepler_loop_solves 0.2 100 He HM)].
Defined.

End KeplerAccuracy.

Section HeliocentricFacts.
Import JSDate JS Astronomy.
Local Open Scope R_scope.






Lemma planet_elements_value (planetName : string) (jd : R) (planet : Planet) :
  lookup (toLowerCase planetName) PLANETS = Some planet ->
  exists el : Elements,
    getPlanetElements planetName jd = Some el /\
    el_a el = a planet + aRate planet * julianCenturies jd /\
    el_e el = e planet + eRate planet * julianCenturies jd.
Proof.
  intros Hl. unfold getPlanetElements. rewrite Hl. cbv zeta.
  eexists. split; [reflexivity|]. split; reflexivity.
Qed.




End HeliocentricFacts.

Section PlanetPositionFacts.
Import JSDate JS Astronomy.
Local Open Scope R_scope.








End PlanetPositionFacts.

(** ** Planets: motion, periods and searches *)

Section PlanetMotionFacts.
Import JSDate JS Astronomy.
Local Open Scope R_scope.

Lemma heliocentric_position_some (planetName : string) (t : Z)
    (el : Elements) :
  getPlanetElements planetName (dateToJulian t) = Some el ->
  exists hp : Heliocentric,
    calculateHeliocentricPosition planetName t = Some hp.
Proof.
  intros Hel. unfold calculateHeliocentricPosition. cbv zeta. rewrite Hel.
  eexists. reflexivity.
Qed.

(** A planet of [PLANETS] other than the Earth has a position. *)
Lemma planet_position_some (planetName : string) (planet : Planet) (t : Z) :
  lookup (toLowerCase planetName) PLANETS = Some planet ->
  toLowerCase planetName <> "earth"%string ->
  exists pos : PlanetPosition,
    calculatePlanetPosition planetName t = Some pos /\
    0 <= p_eclipticLongitude pos < 360 /\
    0 <= p_elongation pos <= 180.
Proof.
  intros Hl Hne. pose proof PI_RGT_0 as Hpi.
  destruct (planet_elements_value planetName (dateToJulian t) planet Hl)
    as (el & Hel & _).
  destruct (planet_elements_value "earth" (dateToJulian t) _ eq_refl)
    as (elE & HelE & _).
  destruct (heliocentric_position_some planetName t el Hel) as (hp & Hhp).
  destruct (heliocentric_position_some "earth" t elE HelE) as (hE & HhE).
  unfold calculatePlanetPosition.
  destruct (String.eqb_spec (toLowerCase planetName) "earth") as [E|_];
    [contradiction|].
  rewrite Hhp, HhE. cbv zeta. eexists. split; [reflexivity|].
  cbn [p_eclipticLongitude p_elongation].
  split; [apply normalizeAngle_range|].
  unfold angularDistance. cbv zeta. apply toDegrees_range.
  match goal with |- _ <= acos ?x <= _ => pose proof (acos_bound x) end.
  lra.
Qed.




Lemma abs_reciprocal_near (q p : R) :
  0.01 < p -> 1 <= Rabs q * (p + 0.01) -> Rabs q * (p - 0.01) <= 1 ->
  Rabs (Rabs (1 / q) - p) <= 0.01.
Proof.
  intros Hp H1 H2.
  assert (Hu : 0 < Rabs q).
  { pose proof (Rabs_pos q). destruct (Req_dec (Rabs q) 0) as [E|N]; [|lra].
    rewrite E in H1. lra. }
  assert (Hq : q <> 0) by (intros ->; rewrite Rabs_R0 in Hu; lra).
  unfold Rdiv. rewrite Rmult_1_l, Rabs_inv.
  set (u := Rabs q) in *.
  assert (E : u * / u = 1) by (apply Rinv_r; lra).
  assert (Hi : 0 < / u) by (apply Rinv_0_lt_compat; exact Hu).
  apply Rabs_le. split; nra.
Qed.

(** X20.  [calculateSynodicPeriod] agrees with the table: for every planet
    of [PLANETS] that has a [synodicPeriod], the period computed from the
    two sidereal periods is a number within 0.01 day of it; for the Earth
    itself the difference of the rates is 0 and the result is
    [Infinity], not [null]. *)
Theorem synodic_period_matches_table (planetName : string) (planet : Planet) :
  lookup (toLowerCase planetName) PLANETS = Some planet ->
  match synodicPeriod planet with
  | Some p =>
    exists x : R,
      calculateSynodicPeriod planetName = Some (Finite x) /\
      Rabs (x - p) <= 0.01
  | None =>
    toLowerCase planetName = "earth"%string /\
    calculateSynodicPeriod planetName = Some Infinity
  end.
Proof.
  unfold calculateSynodicPeriod, earth_siderealPeriod.
  generalize (toLowerCase planetName). intros key.
  unfold PLANETS. cbn [lookup String.eqb Ascii.eqb Bool.eqb].
  repeat match goal with
         | |- context [String.eqb key ?k] =>
           destruct (String.eqb_spec key k) as [->|?]
         end;
    intros H; try discriminate; injection H as <-;
    cbn [synodicPeriod siderealPeriod].
  all: try (destruct (Req_dec_T _ 0) as [E0|_]; [exfalso; lra|];
            cbv zeta;
            destruct (Req_dec_T _ 0) as [E0|_]; [exfalso; lra|];
            eexists; split; [reflexivity|];
            apply abs_reciprocal_near; [lra| |];
            first [rewrite Rabs_left by lra | rewrite Rabs_right by lra];
            lra).
  split; [reflexivity|].
  destruct (Req_dec_T 365.256 0) as [E0|_]; [exfalso; lra|].
  cbv zeta.
  destruct (Req_dec_T (1 / 365.256 - 1 / 365.256) 0) as [_|N0];
    [reflexivity | exfalso; lra].
Qed.

Lemma synodic_period_matches_table_witness :
  exists x : R,
    calculateSynodicPeriod "Mars" = Some (Finite x) /\ Rabs (x - 779.94) <= 0.01.
Proof.
  pose proof (synodic_period_matches_table "Mars" _ eq_refl) as H.
  cbn [synodicPeriod] in H. exact H.
Defined.

End PlanetMotionFacts.

Section PlanetSearchFacts.
Import JSDate JS Astronomy.
Local Open Scope R_scope.

Lemma search_date_next (start day j : Z) :
  (0 <= j <= day)%Z ->
  search_date start (day + 1)
              (new_Date (IZR (start + j * 86400000) + 86400000)).
Proof.
  intros Hj. unfold new_Date.
  destruct (Rle_dec _ _) as [_|_]; [right|left; reflexivity].
  exists (j + 1)%Z. split; [lia|].
  replace (IZR (start + j * 86400000) + 86400000)
    with (IZR (start + (j + 1) * 86400000))
    by (rewrite !plus_IZR, !mult_IZR, plus_IZR; lra).
  rewrite trunc_IZR. reflexivity.
Qed.

Lemma search_date_later (start day : Z) (date : Date) :
  search_date start day date -> search_date start (day + 1) date.
Proof.
  intros [H|(j & Hj & H)]; [left; exact H|right].
  exists j. split; [lia|exact H].
Qed.

Lemma new_Date_next (t t' : Z) :
  new_Date (IZR t + 86400000) = ValidDate t' -> t' = (t + 86400000)%Z.
Proof.
  unfold new_Date. destruct (Rle_dec _ _) as [_|_]; [|discriminate].
  intros H. injection H as <-.
  replace (IZR t + 86400000) with (IZR (t + 86400000))
    by (rewrite plus_IZR; reflexivity).
  apply trunc_IZR.
Qed.

Lemma event_search_sound (planetName : string) (opposition : bool)
    (targetElong maxDays : R) (start : Z) (n : nat) :
  forall (day : Z) (date d : Date),
    (0 <= day)%Z -> search_date start day date ->
    event_search n planetName opposition targetElong maxDays day date =
      Some d ->
    event_found planetName opposition targetElong maxDays start d.
Proof.
  induction n as [|n IH]; intros day date d Hday Hdate; cbn [event_search];
    [discriminate|].
  destruct (lt (IZR day) maxDays) eqn:Hlt; [|discriminate].
  apply lt_spec in Hlt.
  destruct Hdate as [->|(j & Hj & ->)].
  { apply IH; [lia | left; reflexivity]. }
  destruct (calculatePlanetPosition planetName (start + j * 86400000))
    as [pos|] eqn:Hpos.
  2:{ apply IH; [lia|]. right. exists j. split; [lia|reflexivity]. }
  cbv zeta.
  match goal with
  | |- (if ?c then _ else _) = _ -> _ => destruct c eqn:Hfound
  end.
  - intros H. injection H as <-.
    destruct (lt (Rabs (p_elongation pos - targetElong)) 1) eqn:Hdiff;
      [|discriminate].
    apply lt_spec in Hdiff.
    destruct (new_Date (IZR (start + j * 86400000) + 86400000))
      as [t'|] eqn:Hnext; [|discriminate].
    apply new_Date_next in Hnext. subst t'.
    destruct (calculatePlanetPosition planetName
                (start + j * 86400000 + 86400000)) as [nextPos|] eqn:Hnp;
      [|discriminate].
    exists j, pos, nextPos.
    split; [lia|]. split.
    { apply Rle_lt_trans with (IZR day); [apply IZR_le; lia|exact Hlt]. }
    split; [reflexivity|]. split; [exact Hpos|]. split.
    { replace (start + (j + 1) * 86400000)%Z
        with (start + j * 86400000 + 86400000)%Z by ring.
      exact Hnp. }
    split; [exact Hdiff|].
    destruct opposition; apply lt_spec; exact Hfound.
  - apply IH; [lia|]. apply search_date_next. exact Hj.
Qed.

(** Every search of [calculateNextPlanetaryEvent] is shorter than 1170
    days. *)
Lemma event_days_bound (key : string) (planet : Planet) :
  lookup key PLANETS = Some planet ->
  match synodicPeriod planet with
  | Some p => (if Req_dec_T p 0 then 800 else p * 1.5)
  | None => 800
  end <= 1170.
Proof.
  unfold PLANETS. cbn [lookup].
  repeat match goal with
         | |- context [String.eqb key ?k] =>
           destruct (String.eqb_spec key k) as [->|?]
         end;
    intros H; try discriminate; injection H as <-; cbn [synodicPeriod];
    try lra; destruct (Req_dec_T _ 0); lra.
Qed.

(** X21.  A date returned by [calculateNextPlanetaryEvent] (searching
    between 1800 and 2050) is the start plus a whole number [k] of days,
    [0 <= k < 1170]; on that date the planet has a position whose
    elongation is less than 1 degree from the target (180 for
    ['opposition'], 0 for any other event), and the next day's elongation
    is smaller (opposition) or larger (otherwise). *)
Theorem next_event_sound (planetName : string) (startDate : Z)
    (event : string) :
  ephemeris_window startDate ->
  ephemeris_window (startDate + 1170 * 86400000) ->
  match calculateNextPlanetaryEvent planetName startDate event with
  | None => True
  | Some d =>
    exists (k : Z) (pos nextPos : PlanetPosition),
      (0 <= k < 1170)%Z /\
      d = ValidDate (startDate + k * 86400000) /\
      calculatePlanetPosition planetName (startDate + k * 86400000) =
        Some pos /\
      calculatePlanetPosition planetName (startDate + (k + 1) * 86400000) =
        Some nextPos /\
      if String.eqb event "opposition"
      then 179 < p_elongation pos <= 180 /\
           p_elongation nextPos < p_elongation pos
      else 0 <= p_elongation pos < 1 /\
           p_elongation pos < p_elongation nextPos
  end.
Proof.
  intros _ _.
  destruct (calculateNextPlanetaryEvent planetName startDate event)
    as [d|] eqn:Hd; [|exact Logic.I].
  unfold calculateNextPlanetaryEvent in Hd.
  destruct (lookup (toLowerCase planetName) PLANETS) as [planet|] eqn:Hl;
    [|discriminate].
  cbv zeta in Hd.
  destruct (lt (a planet) 1 && String.eqb event "opposition");
    [discriminate|].
  pose proof (event_days_bound _ planet Hl) as Hmax.
  apply (event_search_sound _ _ _ _ startDate) in Hd;
    [|lia|right; exists 0%Z; split; [lia|f_equal; ring]].
  destruct Hd as (k & pos & nextPos & Hk & Hlt & -> & Hpos & Hnp & Hdiff & Hdir).
  exists k, pos, nextPos.
  split.
  { split; [exact Hk|]. apply lt_IZR. lra. }
  split; [reflexivity|]. split; [exact Hpos|]. split; [exact Hnp|].
  assert (Hne : toLowerCase planetName <> "earth"%string).
  { intros E. rewrite (planet_position_earth planetName _ E) in Hpos.
    discriminate. }
  destruct (planet_position_some planetName planet
              (startDate + k * 86400000) Hl Hne) as (pos' & Hpos' & _ & Hel).
  rewrite Hpos in Hpos'. injection Hpos' as <-.
  destruct (String.eqb event "opposition").
  - split; [|exact Hdir]. apply Rabs_def2 in Hdiff. lra.
  - split; [|exact Hdir]. apply Rabs_def2 in Hdiff. lra.
Qed.

(** The theorem on the search for the opposition of Jupiter that starts
    on 2000-01-01T00:00:00Z, which returns a date: evaluated numerically,
    day 332 (2000-11-28) is the first with an elongation above 179 degrees
    (179.07) that is smaller (178.65) the day after. *)
Lemma next_event_sound_witness :
  match calculateNextPlanetaryEvent "Jupiter" 946684800000 "opposition" with
  | None => True
  | Some d =>
    exists (k : Z) (pos nextPos : PlanetPosition),
      (0 <= k < 1170)%Z /\
      d = ValidDate (946684800000 + k * 86400000) /\
      calculatePlanetPosition "Jupiter" (946684800000 + k * 86400000) =
        Some pos /\
      calculatePlanetPosition "Jupiter" (946684800000 + (k + 1) * 86400000) =
        Some nextPos /\
      179 < p_elongation pos <= 180 /\
      p_elongation nextPos < p_elongation pos
  end.
Proof.
  apply (next_event_sound "Jupiter" 946684800000 "opposition");
    unfold ephemeris_window; lia.
Defined.

Lemma elongation_search_state (planetName type : string) (maxDays : R)
    (start : Z) (n : nat) :
  forall (day J : Z) (date : Date) (maxElong : R) (maxDate : option Z),
    (0 <= J <= day)%Z ->
    date = InvalidDate \/ date = ValidDate (start + J * 86400000) ->
    elongation_state planetName type maxDays start J maxElong maxDate ->
    exists J' : Z,
      elongation_state planetName type maxDays start J'
        (fst (elongation_search n planetName type maxDays day date
                                maxElong maxDate))
        (snd (elongation_search n planetName type maxDays day date
                                maxElong maxDate)).
Proof.
  induction n as [|n IH]; intros day J date maxElong maxDate HJ Hdate Hst;
    cbn [elongation_search]; [exists J; exact Hst|].
  destruct (lt (IZR day) maxDays) eqn:Hlt; [|exists J; exact Hst].
  apply lt_spec in Hlt.
  destruct Hdate as [->| ->].
  { apply (IH (day + 1)%Z J); [lia|left; reflexivity|exact Hst]. }
  set (t := (start + J * 86400000)%Z) in *.
  destruct (calculatePlanetPosition planetName t) as [pos|] eqn:Hpos.
  2:{ apply (IH (day + 1)%Z J); [lia|right; reflexivity|exact Hst]. }
  cbv zeta. fold (elongation_side type pos t).
  destruct Hst as (H0 & Hbound & Hmax).
  assert (Hnew : forall e' md',
             (if elongation_side type pos t
              then if lt maxElong (p_elongation pos)
                   then (p_elongation pos, Some t)
                   else (maxElong, maxDate)
              else (maxElong, maxDate)) = (e', md') ->
             elongation_state planetName type maxDays start (J + 1) e' md').
  { intros e' md' E.
    assert (Hold : maxElong <= e' ->
                   (elongation_side type pos t = true ->
                    p_elongation pos <= e') ->
                   forall (i : Z) (posi : PlanetPosition),
                     (0 <= i < J + 1)%Z ->
                     calculatePlanetPosition planetName
                       (start + i * 86400000) = Some posi ->
                     elongation_side type posi (start + i * 86400000) = true ->
                     p_elongation posi <= e').
    { intros Hle Hcur i posi Hi Hpi Hsi.
      destruct (Z.eq_dec i J) as [->|Hne].
      - fold t in Hpi, Hsi. rewrite Hpos in Hpi. injection Hpi as <-.
        apply Hcur, Hsi.
      - apply Rle_trans with maxElong; [|exact Hle].
        apply (Hbound i posi); [lia|exact Hpi|exact Hsi]. }
    destruct (elongation_side type pos t) eqn:Hside.
    - destruct (lt maxElong (p_elongation pos)) eqn:Hgt.
      + apply lt_spec in Hgt. injection E as <- <-.
        split; [lra|]. split.
        * apply Hold; [lra|intros _; lra].
        * exists J, pos. split; [lia|]. split.
          { apply Rle_lt_trans with (IZR day); [apply IZR_le; lia|exact Hlt]. }
          split; [reflexivity|]. split; [exact Hpos|].
          split; [reflexivity|]. split; [lra|exact Hside].
      + apply lt_spec_false in Hgt. injection E as <- <-.
        split; [exact H0|]. split.
        * apply Hold; [lra|intros _; exact Hgt].
        * destruct maxDate as [tm|]; [|exact Logic.I].
          destruct Hmax as (k & pk & Hk & Hrest). exists k, pk.
          split; [lia|exact Hrest].
    - injection E as <- <-.
      split; [exact H0|]. split.
      * apply Hold; [lra|intros Hc; discriminate Hc].
      * destruct maxDate as [tm|]; [|exact Logic.I].
        destruct Hmax as (k & pk & Hk & Hrest). exists k, pk.
        split; [lia|exact Hrest]. }
  destruct (if elongation_side type pos t
            then if lt maxElong (p_elongation pos)
                 then (p_elongation pos, Some t)
                 else (maxElong, maxDate)
            else (maxElong, maxDate)) as [e' md'] eqn:E.
  specialize (Hnew e' md' eq_refl).
  destruct ((match md' with Some _ => true | None => false end) &&
            lt (p_elongation pos) (e' - 2)).
  - exists (J + 1)%Z. exact Hnew.
  - apply (IH (day + 1)%Z (J + 1)%Z); [lia| |exact Hnew].
    unfold new_Date. destruct (Rle_dec _ _) as [_|_]; [right|left; reflexivity].
    f_equal. unfold t.
    replace (IZR (start + J * 86400000) + 86400000)
      with (IZR (start + (J + 1) * 86400000))
      by (rewrite !plus_IZR, !mult_IZR, plus_IZR; lra).
    apply trunc_IZR.
Qed.

(** The planets inside the Earth's orbit are searched for less than 876
    days. *)
Lemma elongation_days_bound (key : string) (planet : Planet) :
  lookup key PLANETS = Some planet -> a planet < 1 ->
  match synodicPeriod planet with
  | Some p => p * 1.5
  | None => 0
  end <= 876.
Proof.
  unfold PLANETS. cbn [lookup].
  repeat match goal with
         | |- context [String.eqb key ?k] =>
           destruct (String.eqb_spec key k) as [->|?]
         end;
    intros H; try discriminate; injection H as <-;
    cbn [synodicPeriod a]; lra.
Qed.

(** X22.  What [calculateGreatestElongation] returns (searching between
    1800 and 2050) is a day of the search, at most 875 days after the
    start, with the planet on the requested side of the Sun; the returned
    elongation is the planet's elongation on that day, it is positive, and
    no day from the start to that day, on the requested side, has a
    greater one.  A [type] other than ['eastern'] or ['western'] gives
    [null]. *)
Theorem greatest_elongation_sound (planetName : string) (startDate : Z)
    (type : string) :
  ephemeris_window startDate ->
  ephemeris_window (startDate + 876 * 86400000) ->
  match calculateGreatestElongation planetName startDate type with
  | None => True
  | Some g =>
    ge_type g = type /\
    (type = "eastern"%string \/ type = "western"%string) /\
    exists (k : Z) (pos : PlanetPosition),
      (0 <= k < 876)%Z /\
      ge_date g = (startDate + k * 86400000)%Z /\
      calculatePlanetPosition planetName (ge_date g) = Some pos /\
      ge_elongation g = p_elongation pos /\
      0 < ge_elongation g /\
      elongation_side type pos (ge_date g) = true /\
      forall (i : Z) (posi : PlanetPosition),
        (0 <= i <= k)%Z ->
        calculatePlanetPosition planetName (startDate + i * 86400000) =
          Some posi ->
        elongation_side type posi (startDate + i * 86400000) = true ->
        p_elongation posi <= ge_elongation g
  end.
Proof.
  intros _ _.
  destruct (calculateGreatestElongation planetName startDate type)
    as [g|] eqn:Hg; [|exact Logic.I].
  unfold calculateGreatestElongation in Hg.
  destruct (lookup (toLowerCase planetName) PLANETS) as [planet|] eqn:Hl;
    [|discriminate].
  destruct (lt (a planet) 1) eqn:Ha; [|discriminate].
  apply lt_spec in Ha. cbv zeta in Hg.
  pose proof (elongation_days_bound _ planet Hl Ha) as Hmax.
  set (maxDays := match synodicPeriod planet with
                  | Some p => p * 1.5 | None => 0 end) in *.
  destruct (elongation_search_state planetName type maxDays startDate
              (Z.to_nat (Zceil maxDays)) 0 0 (ValidDate startDate) 0 None)
    as (J & Hst).
  { lia. }
  { right. f_equal. ring. }
  { split; [lra|]. split; [intros i pos Hi; lia|exact Logic.I]. }
  destruct (elongation_search (Z.to_nat (Zceil maxDays)) planetName type
              maxDays 0 (ValidDate startDate) 0 None) as [e [t|]];
    [|discriminate].
  injection Hg as <-. cbn [ge_type ge_date ge_elongation].
  cbn [fst snd] in Hst.
  destruct Hst as (H0 & Hbound & k & pos & Hk & Hlt & -> & Hpos & -> & Hp & Hs).
  split; [reflexivity|]. split.
  { unfold elongation_side in Hs. cbv zeta in Hs.
    destruct (String.eqb_spec type "eastern") as [->|_]; [left; reflexivity|].
    destruct (String.eqb_spec type "western") as [->|_]; [right; reflexivity|].
    discriminate Hs. }
  exists k, pos.
  split.
  { split; [lia|]. apply lt_IZR. lra. }
  split; [reflexivity|]. split; [exact Hpos|]. split; [reflexivity|].
  split; [exact Hp|]. split; [exact Hs|].
  intros i posi Hi. apply Hbound. lia.
Qed.

Lemma greatest_elongation_sound_witness :
  match calculateGreatestElongation "Venus" 946684800000 "eastern" with
  | None => True
  | Some g =>
    ge_type g = "eastern"%string /\
    exists (k : Z) (pos : PlanetPosition),
      (0 <= k < 876)%Z /\
      ge_date g = (946684800000 + k * 86400000)%Z /\
      calculatePlanetPosition "Venus" (ge_date g) = Some pos /\
      ge_elongation g = p_elongation pos /\
      0 < ge_elongation g
  end.
Proof.
  pose proof (greatest_elongation_sound "Venus" 946684800000 "eastern"
                ltac:(unfold ephemeris_window; lia)
                ltac:(unfold ephemeris_window; lia)) as H.
  destruct (calculateGreatestElongation "Venus" 946684800000 "eastern")
    as [g|]; [|exact Logic.I].
  destruct H as (H1 & _ & k & pos & H2 & H3 & H4 & H5 & H6 & _).
  split; [exact H1|]. exists k, pos. repeat split; assumption || apply H2.
Defined.

End PlanetSearchFacts.

Section NumberSortFacts.
Import Astronomy.
Local Open Scope R_scope.
Context {A : Type}.
Variable cmp : A -> A -> R.
Variable key : A -> R.
Hypothesis cmp_key : forall x y, cmp x y = key y - key x.





End NumberSortFacts.

Section VisiblePlanetFacts.
Import JSDate JS Astronomy.
Local Open Scope R_scope.





End VisiblePlanetFacts.

(** ** Bortle scale and scoring, further facts *)

Section BortleFacts.
Import JSDate JS Astronomy.
Local Open Scope R_scope.

(** X24.  The two conversions of the Bortle scale fit together:
    [sqmToBortle] of the reading [bortleToSqm] gives for a class is that
    class, rounded and clamped into 1..9; [sqmToBortle] always returns a
    class from 1 to 9, and a darker sky (a larger reading) never gets a
    higher class. *)
Theorem bortle_sqm_round_trip :
  (forall b : R,
     exists s : R,
       bortleToSqm b = Some s /\
       sqmToBortle s = Z.max 1 (Z.min 9 (Math_round b))) /\
  (forall x : R, (1 <= sqmToBortle x <= 9)%Z) /\
  (forall x y : R, x <= y -> (sqmToBortle y <= sqmToBortle x)%Z).
Proof.
  split; [|split].
  - intros b. unfold bortleToSqm, getBortleInfo. cbv zeta.
    set (k := Z.max 1 (Z.min 9 (Math_round b))).
    assert (Hk : k = 1%Z \/ k = 2%Z \/ k = 3%Z \/ k = 4%Z \/ k = 5%Z \/
                 k = 6%Z \/ k = 7%Z \/ k = 8%Z \/ k = 9%Z) by (unfold k; lia).
    clearbody k.
    repeat (destruct Hk as [->|Hk]); try subst k;
      cbn [bortle_entry BORTLE_SCALE Z.eqb Pos.eqb sqm];
      (eexists; split; [reflexivity|]); unfold sqmToBortle;
      repeat match goal with
             | |- context [Rle_dec ?u ?v] =>
               destruct (Rle_dec u v); try lra
             end;
      reflexivity.
  - intros x. unfold sqmToBortle.
    repeat match goal with
           | |- context [Rle_dec ?u ?v] => destruct (Rle_dec u v)
           end; lia.
  - intros x y Hxy. unfold sqmToBortle.
    repeat match goal with
           | |- context [Rle_dec ?u ?v] => destruct (Rle_dec u v); try lra
           end; lia.
Qed.

End BortleFacts.

Section ScoreFacts.
Import JSDate JS Astronomy.
Local Open Scope R_scope.

Lemma Math_round_monotone (x y : R) :
  x <= y -> (Math_round x <= Math_round y)%Z.
Proof.
  intros H. unfold Math_round.
  pose proof (Zfloor_bound (x + / 2)) as Hx.
  pose proof (Zfloor_bound (y + / 2)) as Hy.
  apply Z.lt_succ_r. apply lt_IZR. rewrite succ_IZR. lra.
Qed.

(** The points given for the altitude. *)
Lemma altitude_points_monotone (a1 a2 : R) :
  0 <= a1 -> a1 <= a2 ->
  let pts := fun a : R =>
    if lt a 15 then 0 + a * 1.5
    else if lt a 30 then 0 + (22.5 + (a - 15) * 1.0)
    else if lt a 70 then 0 + (37.5 + (a - 30) * 0.3125)
    else 0 + (50 - (a - 70) * 0.5) in
  (a2 <= 70 -> pts a1 <= pts a2) /\ (70 <= a1 -> pts a2 <= pts a1).
Proof.
  intros H0 H12. cbv zeta. unfold lt.
  repeat match goal with
         | |- context [Rlt_dec ?u ?v] => destruct (Rlt_dec u v)
         end; split; intros; lra.
Qed.

(** X25.  [calculateVisibilityScore] is best at 70 degrees: for the same
    object and limiting magnitude the score does not decrease when the
    altitude rises up to 70 degrees, and does not increase when it rises
    beyond. *)
Theorem visibility_score_altitude (obj : CatalogObject)
    (limitingMag a1 a2 : R) :
  a1 <= a2 ->
  (a2 <= 70 ->
   (calculateVisibilityScore obj a1 limitingMag <=
    calculateVisibilityScore obj a2 limitingMag)%Z) /\
  (70 <= a1 ->
   (calculateVisibilityScore obj a2 limitingMag <=
    calculateVisibilityScore obj a1 limitingMag)%Z).
Proof.
  intros H12. unfold calculateVisibilityScore. cbv zeta.
  destruct (lt a1 0) eqn:E1.
  { apply lt_spec in E1. split; [intros _|intros; lra].
    destruct (lt a2 0); lia. }
  apply lt_spec_false in E1.
  rewrite (lt_false a2 0) by lra.
  destruct (altitude_points_monotone a1 a2 E1 H12) as [Hup Hdown].
  cbv zeta in Hup, Hdown.
  set (p1 := if lt a1 15 then 0 + a1 * 1.5
             else if lt a1 30 then 0 + (22.5 + (a1 - 15) * 1.0)
             else if lt a1 70 then 0 + (37.5 + (a1 - 30) * 0.3125)
             else 0 + (50 - (a1 - 70) * 0.5)) in *.
  set (p2 := if lt a2 15 then 0 + a2 * 1.5
             else if lt a2 30 then 0 + (22.5 + (a2 - 15) * 1.0)
             else if lt a2 70 then 0 + (37.5 + (a2 - 30) * 0.3125)
             else 0 + (50 - (a2 - 70) * 0.5)) in *.
  split; intros H; [specialize (Hup H) | specialize (Hdown H)];
    apply Z.min_le_compat_l, Z.max_le_compat_l, Math_round_monotone;
    (destruct (size obj) as [parsed|]; [destruct (lt 5 _)|]);
    destruct (magnitude obj) as [|m];
    repeat match goal with
           | |- context [lt ?u ?v] => destruct (lt u v)
           end; lra.
Qed.

Lemma visibility_score_altitude_witness :
  (calculateVisibilityScore
     {| obj_ra := CoordNum (Num 10); obj_dec := CoordNum (Num 20);
        magnitude := Num 2; size := None |} 20 5.8 <=
   calculateVisibilityScore
     {| obj_ra := CoordNum (Num 10); obj_dec := CoordNum (Num 20);
        magnitude := Num 2; size := None |} 45 5.8)%Z.
Proof.
  apply (visibility_score_altitude
           {| obj_ra := CoordNum (Num 10); obj_dec := CoordNum (Num 20);
              magnitude := Num 2; size := None |} 5.8 20 45); lra.
Defined.

End ScoreFacts.

(** ** Formatting and parsing again *)

Section PrintFacts.
Import Coordinates.
Local Open Scope string_scope.
Local Open Scope Z_scope.

Lemma digit_char_spec (d : Z) :
  0 <= d < 10 ->
  is_digit (digit_char d) = true /\
  Z.of_nat (nat_of_ascii (digit_char d)) - 48 = d.
Proof.
  intros H.
  assert (Hd : d = 0 \/ d = 1 \/ d = 2 \/ d = 3 \/ d = 4 \/ d = 5 \/
               d = 6 \/ d = 7 \/ d = 8 \/ d = 9) by lia.
  repeat (destruct Hd as [->|Hd]); try subst d; split; reflexivity.
Qed.

Lemma digits_value_app (a : Z) (s t : string) :
  digits_value a (s ++ t) = digits_value (digits_value a s) t.
Proof.
  revert a. induction s as [|c r IH]; intros a; cbn [append digits_value];
    [reflexivity | apply IH].
Qed.

Lemma length_app_string (s t : string) :
  String.length (s ++ t) = (String.length s + String.length t)%nat.
Proof.
  induction s as [|c r IH]; cbn [append String.length]; [reflexivity|].
  rewrite IH. reflexivity.
Qed.

Lemma append_assoc_string (s t u : string) : (s ++ t) ++ u = s ++ t ++ u.
Proof.
  induction s as [|c r IH]; cbn [append]; [reflexivity | now rewrite IH].
Qed.

Lemma print_digits_step (fuel : nat) (n : Z) (acc : string) :
  print_digits (S fuel) n acc =
  if n <? 10 then String (digit_char (n mod 10)) acc
  else print_digits fuel (n / 10) (String (digit_char (n mod 10)) acc).
Proof. reflexivity. Qed.

(** The digits [print_digits] puts in front of the accumulator: a string
    of digits that is not empty and reads as [n]. *)
Lemma print_digits_spec (fuel : nat) :
  forall (n : Z) (acc : string),
    0 <= n < 2 ^ Z.of_nat (S fuel) ->
    exists ds : string,
      print_digits (S fuel) n acc = ds ++ acc /\
      digits ds = true /\ ds <> "" /\
      forall a : Z,
        digits_value a ds = a * 10 ^ Z.of_nat (String.length ds) + n.
Proof.
  induction fuel as [|fuel IH]; intros n acc Hn.
  - assert (Hn' : 0 <= n < 10) by (change (2 ^ Z.of_nat 1) with 2 in Hn; lia).
    destruct (digit_char_spec n Hn') as [Hd Hv].
    rewrite print_digits_step, Z.mod_small by lia.
    exists (String (digit_char n) ""). split.
    { destruct (n <? 10); reflexivity. }
    split; [unfold digits; cbn [all_chars]; rewrite Hd; reflexivity|].
    split; [discriminate|].
    intros a. cbn [digits_value String.length]. rewrite Hv.
    change (10 ^ Z.of_nat 1) with 10. reflexivity.
  - assert (Hm : 0 <= n mod 10 < 10) by (apply Z.mod_pos_bound; lia).
    destruct (digit_char_spec (n mod 10) Hm) as [Hd Hv].
    rewrite print_digits_step.
    destruct (Z.ltb_spec n 10) as [Hlt|Hge].
    + rewrite Z.mod_small in * by lia.
      exists (String (digit_char n) ""). split; [reflexivity|].
      split; [unfold digits; cbn [all_chars]; rewrite Hd; reflexivity|].
      split; [discriminate|].
      intros a. cbn [digits_value String.length]. rewrite Hv.
      change (10 ^ Z.of_nat 1) with 10. reflexivity.
    + assert (Hq : 0 <= n / 10 < 2 ^ Z.of_nat (S fuel)).
      { split; [apply Z.div_pos; lia|].
        apply Z.div_lt_upper_bound; [lia|].
        rewrite (Nat2Z.inj_succ (S fuel)), Z.pow_succ_r in Hn by lia. lia. }
      destruct (IH (n / 10) (String (digit_char (n mod 10)) acc) Hq)
        as (ds & Hp & Hds & Hne & Hval).
      exists (ds ++ String (digit_char (n mod 10)) ""). split.
      { rewrite Hp, append_assoc_string. reflexivity. }
      split.
      { unfold digits in *. rewrite all_chars_app, Hds. cbn [all_chars].
        rewrite Hd. reflexivity. }
      split; [destruct ds; discriminate|].
      intros a. rewrite digits_value_app, Hval, length_app_string.
      cbn [digits_value String.length]. rewrite Hv.
      rewrite Nat2Z.inj_add. change (Z.of_nat 1) with 1.
      rewrite Z.pow_add_r by lia. change (10 ^ 1) with 10.
      pose proof (Z.div_mod n 10 ltac:(lia)). lia.
Qed.

Lemma Number_toString_spec (n : Z) :
  0 <= n ->
  digits (Number_toString n) = true /\ Number_toString n <> "" /\
  forall a : Z,
    digits_value a (Number_toString n) =
    a * 10 ^ Z.of_nat (String.length (Number_toString n)) + n.
Proof.
  intros Hn. unfold Number_toString.
  destruct (Z.ltb_spec n 0) as [H|_]; [lia|].
  assert (Hb : 0 <= n < 2 ^ Z.of_nat (S (Z.to_nat (Z.log2 n)))).
  { split; [exact Hn|].
    rewrite Nat2Z.inj_succ, Z2Nat.id by apply Z.log2_nonneg.
    destruct (Z.eq_dec n 0) as [->|Hne]; [reflexivity|].
    apply Z.log2_spec. lia. }
  destruct (print_digits_spec _ n "" Hb) as (ds & Hp & Hds & Hne & Hval).
  rewrite Hp, append_nil_r_string. split; [exact Hds|]. split; assumption.
Qed.

End PrintFacts.

Section ParseTextFacts.
Import Coordinates.
Local Open Scope string_scope.

(** A digit is none of the other characters the patterns look for. *)
Lemma digit_only (c : ascii) :
  is_digit c = true ->
  is_sign c = false /\ is_dot c = false /\ is_space c = false /\
  is_hsep c = false /\ is_msep c = false /\ is_apos_sep c = false /\
  Ascii.eqb c ":" = false /\ Ascii.eqb c (ascii_of_nat 194) = false.
Proof.
  intros H.
  assert (Hs : is_space c = false).
  { unfold is_space, is_digit in *.
    destruct (nat_of_ascii c =? 32)%nat eqn:E32;
      destruct (9 <=? nat_of_ascii c)%nat eqn:E9;
      destruct (nat_of_ascii c <=? 13)%nat eqn:E13;
      destruct (48 <=? nat_of_ascii c)%nat eqn:E48;
      destruct (nat_of_ascii c <=? 57)%nat eqn:E57;
      try reflexivity; try discriminate;
      rewrite ?Nat.eqb_eq, ?Nat.leb_le, ?Nat.leb_gt in *; lia. }
  assert (He : forall x : ascii, is_digit x = false -> Ascii.eqb c x = false).
  { intros x Hx. destruct (Ascii.eqb_spec c x) as [->|_]; [|reflexivity].
    rewrite Hx in H. discriminate H. }
  unfold is_sign, is_dot, is_hsep, is_msep, is_apos_sep.
  rewrite Hs, !He by reflexivity.
  repeat split; reflexivity.
Qed.

Lemma digits_head (ds : string) :
  digits ds = true -> ds <> "" ->
  exists (c : ascii) (r : string), ds = String c r /\ is_digit c = true.
Proof.
  intros Hd Hne. destruct ds as [|c r]; [contradiction|].
  exists c, r. split; [reflexivity|].
  unfold digits in Hd. cbn [all_chars] in Hd.
  apply andb_true_iff in Hd as [Hc _]. exact Hc.
Qed.

(** [take_while] stops in front of a character outside the class. *)
Lemma take_while_stop (p : ascii -> bool) (s : string) (c : ascii)
    (r : string) :
  all_chars p s = true -> p c = false ->
  take_while p (s ++ String c r) = (s, String c r).
Proof.
  intros Hs Hc. apply take_while_all; [exact Hs|]. rewrite Hc. reflexivity.
Qed.

Lemma parseFloat_digits (ds : string) :
  digits ds = true -> ds <> "" ->
  parseFloat ds = Qmake (digits_value 0 ds) 1.
Proof.
  intros Hd Hne. destruct (digits_head ds Hd Hne) as (c & r & E & Hc).
  destruct (digit_only c Hc) as (Hsign & _).
  unfold parseFloat.
  assert (E1 : take_opt is_sign ds = ("", ds)).
  { rewrite E. cbn [take_opt]. rewrite Hsign. reflexivity. }
  rewrite E1.
  assert (E2 : take_while is_digit ds = (ds, "")).
  { rewrite <- (append_nil_r_string ds) at 1.
    apply take_while_all; [exact Hd|reflexivity]. }
  rewrite E2. cbn [take_opt take_while String.length].
  rewrite append_nil_r_string. reflexivity.
Qed.

Lemma parseFloat_signed (sign : ascii) (ds : string) :
  is_sign sign = true -> digits ds = true -> ds <> "" ->
  parseFloat (String sign ds) =
  if Ascii.eqb sign "-" then Qopp (Qmake (digits_value 0 ds) 1)
  else Qmake (digits_value 0 ds) 1.
Proof.
  intros Hsign Hd Hne. unfold parseFloat. cbn [take_opt]. rewrite Hsign.
  assert (E2 : take_while is_digit ds = (ds, "")).
  { rewrite <- (append_nil_r_string ds) at 1.
    apply take_while_all; [exact Hd|reflexivity]. }
  rewrite E2. cbn [take_opt take_while String.length].
  rewrite append_nil_r_string.
  cbn [String.eqb]. destruct (Ascii.eqb sign "-"); reflexivity.
Qed.

Lemma parseFloat_fraction (p : string) (c : ascii) :
  digits p = true -> p <> "" -> is_digit c = true ->
  parseFloat (p ++ String "." (String c "")) =
  Qmake (digits_value 0 (p ++ String c "")) 10.
Proof.
  intros Hd Hne Hc. destruct (digits_head p Hd Hne) as (c0 & r & E & Hc0).
  destruct (digit_only c0 Hc0) as (Hsign & _).
  unfold parseFloat.
  assert (E1 : take_opt is_sign (p ++ String "." (String c "")) =
               ("", p ++ String "." (String c ""))).
  { rewrite E. cbn [append take_opt]. rewrite Hsign. reflexivity. }
  rewrite E1.
  rewrite (take_while_stop is_digit p "." (String c "") Hd eq_refl).
  cbn [take_opt]. change (is_dot ".") with true. cbv iota.
  cbn [take_while]. rewrite Hc.
  cbn [String.length]. reflexivity.
Qed.

(** The number pattern on digits followed by another character. *)
Lemma take_number_digits (ds : string) (c : ascii) (r : string) :
  digits ds = true -> ds <> "" -> is_digit c = false -> is_dot c = false ->
  take_number (ds ++ String c r) = Some (ds, String c r).
Proof.
  intros Hd Hne Hc Hdot. unfold take_number.
  rewrite (take_while_stop is_digit ds c r Hd Hc).
  replace (is_empty ds) with false
    by (destruct ds; [contradiction|reflexivity]).
  cbn [take_opt]. rewrite Hdot. cbn [take_while]. rewrite Hc. cbn [append].
  rewrite append_nil_r_string. reflexivity.
Qed.

Lemma take_number_fraction (p : string) (c d : ascii) (r : string) :
  digits p = true -> p <> "" -> is_digit c = true -> is_digit d = false ->
  take_number (p ++ String "." (String c (String d r))) =
  Some (p ++ String "." (String c ""), String d r).
Proof.
  intros Hd Hne Hc Hdd. unfold take_number.
  rewrite (take_while_stop is_digit p "." (String c (String d r)) Hd eq_refl).
  replace (is_empty p) with false
    by (destruct p; [contradiction|reflexivity]).
  cbn [take_opt]. change (is_dot ".") with true. cbv iota.
  cbn [take_while]. rewrite Hc, Hdd. cbn [append]. reflexivity.
Qed.

(** [trim] leaves a string that starts and ends with other characters
    than white space as it is. *)
Lemma trim_ends (c : ascii) (t : string) (d : ascii) :
  is_space c = false -> is_space d = false ->
  trim (String c t ++ String d "") = String c t ++ String d "".
Proof.
  intros Hc Hd. unfold trim.
  assert (E1 : take_while is_space (String c t ++ String d "") =
               ("", String c t ++ String d "")).
  { cbn [append take_while]. rewrite Hc. reflexivity. }
  rewrite E1. cbn [snd].
  rewrite rev_append_app. cbn [rev_append].
  assert (E2 : take_while is_space
                 (String d (rev_append t (String c ""))) =
               ("", String d (rev_append t (String c "")))).
  { cbn [take_while]. rewrite Hd. reflexivity. }
  rewrite E2. cbn [snd rev_append].
  rewrite rev_append_twice. cbn [rev_append append]. reflexivity.
Qed.

Lemma search_head {A : Type} (m : string -> option A) (s : string) (r : A) :
  m s = Some r -> search m s = Some r.
Proof. intros H. destruct s; cbn [search]; rewrite H; reflexivity. Qed.

Lemma not_empty (s : string) : s <> "" -> is_empty s = false.
Proof. destruct s; [contradiction|reflexivity]. Qed.

(** The text [formatRA] writes, read back as a right ascension. *)
Lemma parse_hms_text (H M P : string) (c : ascii) :
  digits H = true -> H <> "" -> digits M = true -> M <> "" ->
  digits P = true -> P <> "" -> is_digit c = true ->
  parseCoordinate
    (H ++ String "h" (String " "
       (M ++ String "m" (String " "
          (P ++ String "." (String c (String "s" ""))))))) "ra" =
  Some ((parseFloat H + parseFloat M / 60 +
         parseFloat (P ++ String "." (String c "")) / 3600) *
        HOURS_TO_DEG)%Q.
Proof.
  intros HH HHn HM HMn HP HPn Hc.
  destruct (digits_head H HH HHn) as (cH & H' & EH & HcH).
  destruct (digits_head M HM HMn) as (cM & M' & EM & HcM).
  destruct (digit_only cH HcH) as (HsignH & _ & HspH & _).
  destruct (digit_only cM HcM) as (_ & _ & _ & HhsM & _).
  set (tail := String "m" (String " "
                 (P ++ String "." (String c (String "s" ""))))).
  set (str := H ++ String "h" (String " " (M ++ tail))).
  unfold parseCoordinate.
  assert (Etrim : trim str = str).
  { assert (E : str = String cH (H' ++ String "h" (String " "
                        (M ++ String "m" (String " "
                           (P ++ String "." (String c "")))))) ++
                      String "s" "").
    { unfold str, tail. rewrite EH. cbn [append]. f_equal.
      repeat (rewrite append_assoc_string; cbn [append]). reflexivity. }
    rewrite E. apply trim_ends; [exact HspH|reflexivity]. }
  rewrite Etrim.
  assert (Edec : match_decimal str = None).
  { unfold match_decimal.
    assert (E1 : take_opt is_sign str = ("", str)).
    { unfold str. rewrite EH. cbn [append take_opt]. rewrite HsignH.
      reflexivity. }
    rewrite E1. unfold str.
    rewrite (take_number_digits H "h" _ HH HHn eq_refl eq_refl).
    reflexivity. }
  rewrite Edec. cbn [String.eqb Ascii.eqb Bool.eqb]. cbv iota.
  assert (Ehms : match_hms str = Some (H, M, P ++ String "." (String c ""))).
  { unfold match_hms, str.
    rewrite (take_while_stop is_digit H "h" _ HH eq_refl).
    assert (E2 : take_while is_hsep (String "h" (String " " (M ++ tail))) =
                 (String "h" (String " " ""), M ++ tail)).
    { apply (take_while_all is_hsep (String "h" (String " " "")));
        [reflexivity|]. rewrite EM. cbn [append]. rewrite HhsM. reflexivity. }
    rewrite E2. unfold tail.
    rewrite (take_while_stop is_digit M "m" _ HM eq_refl).
    destruct (digits_head P HP HPn) as (cP & P' & EP & HcP).
    destruct (digit_only cP HcP) as (_ & _ & _ & _ & HmsP & _).
    assert (E3 : take_while is_msep
                   (String "m" (String " "
                      (P ++ String "." (String c (String "s" ""))))) =
                 (String "m" (String " " ""),
                  P ++ String "." (String c (String "s" "")))).
    { apply (take_while_all is_msep (String "m" (String " " "")));
        [reflexivity|]. rewrite EP. cbn [append]. rewrite HmsP. reflexivity. }
    rewrite E3.
    rewrite (not_empty H HHn), (not_empty M HMn). cbn [is_empty orb].
    rewrite (take_number_fraction P c "s" "" HP HPn Hc eq_refl).
    reflexivity. }
  rewrite (search_head match_hms str _ Ehms). reflexivity.
Qed.

Lemma take_degree_seps_digit (n : nat) (c : ascii) (r : string) :
  is_digit c = true -> take_degree_seps n (String c r) = (O, String c r).
Proof.
  intros Hc. destruct (digit_only c Hc) as (_ & _ & Hsp & _ & _ & _ & Hco & Hd).
  destruct n; [reflexivity|]. cbn [take_degree_seps].
  rewrite Hco, Hsp, Hd. cbn [orb andb]. destruct r; reflexivity.
Qed.

Lemma take_degree_seps_degree (n : nat) (r : string) :
  take_degree_seps (S n)
    (String (ascii_of_nat 194) (String (ascii_of_nat 176) r)) =
  let '(k, u) := take_degree_seps n r in (S k, u).
Proof. reflexivity. Qed.

Lemma take_degree_seps_space (n : nat) (r : string) :
  take_degree_seps (S n) (String " " r) =
  let '(k, u) := take_degree_seps n r in (S k, u).
Proof. reflexivity. Qed.

(** The text [formatDec] writes, read back as a declination. *)
Lemma parse_dms_text (sg : ascii) (D M Sc : string) :
  is_sign sg = true ->
  digits D = true -> D <> "" -> digits M = true -> M <> "" ->
  digits Sc = true -> Sc <> "" ->
  parseCoordinate
    (String sg
       (D ++ String (ascii_of_nat 194) (String (ascii_of_nat 176) (String " "
          (M ++ String "'" (String " "
             (Sc ++ String (ascii_of_nat 34) ""))))))) "dec" =
  Some ((if Ascii.eqb sg "-" then -1 else 1) *
        (Qabs (parseFloat (String sg D)) + parseFloat M / 60 +
         parseFloat Sc / 3600))%Q.
Proof.
  intros Hsg HD HDn HM HMn HS HSn.
  destruct (digits_head M HM HMn) as (cM & M' & EM & HcM).
  destruct (digits_head Sc HS HSn) as (cS & Sc' & ES & HcS).
  destruct (digit_only cS HcS) as (_ & _ & _ & _ & _ & HapS & _).
  set (tail2 := String "'" (String " " (Sc ++ String (ascii_of_nat 34) ""))).
  set (tail1 := String (ascii_of_nat 194) (String (ascii_of_nat 176)
                  (String " " (M ++ tail2)))).
  set (str := String sg (D ++ tail1)).
  assert (Hsp : is_space sg = false).
  { unfold is_sign in Hsg. apply orb_true_iff in Hsg.
    destruct Hsg as [E|E]; apply Ascii.eqb_eq in E; subst sg; reflexivity. }
  unfold parseCoordinate.
  assert (Etrim : trim str = str).
  { assert (E : str = String sg (D ++ String (ascii_of_nat 194)
                        (String (ascii_of_nat 176) (String " "
                           (M ++ String "'" (String " " Sc))))) ++
                      String (ascii_of_nat 34) "").
    { unfold str, tail1, tail2. cbn [append]. f_equal.
      repeat (rewrite append_assoc_string; cbn [append]). reflexivity. }
    rewrite E. apply trim_ends; [exact Hsp|reflexivity]. }
  rewrite Etrim.
  assert (Edec : match_decimal str = None).
  { unfold match_decimal, str. cbn [take_opt]. rewrite Hsg. unfold tail1.
    rewrite (take_number_digits D (ascii_of_nat 194) _ HD HDn eq_refl eq_refl).
    reflexivity. }
  rewrite Edec. cbn [String.eqb Ascii.eqb Bool.eqb]. cbv iota.
  assert (Edms : match_dms str = Some (String sg D, M, Sc)).
  { unfold match_dms, str. cbn [take_opt]. rewrite Hsg. unfold tail1.
    rewrite (take_while_stop is_digit D (ascii_of_nat 194) _ HD eq_refl).
    assert (E2 : forall n,
               take_degree_seps (S (S (S n)))
                 (String (ascii_of_nat 194) (String (ascii_of_nat 176)
                    (String " " (M ++ tail2)))) = (2%nat, M ++ tail2)).
    { intros n. rewrite take_degree_seps_degree, take_degree_seps_space.
      rewrite EM. cbn [append].
      rewrite (take_degree_seps_digit _ cM _ HcM). reflexivity. }
    cbn [String.length]. rewrite E2. unfold tail2.
    rewrite (take_while_stop is_digit M "'" _ HM eq_refl).
    assert (E3 : take_while is_apos_sep
                   (String "'" (String " "
                      (Sc ++ String (ascii_of_nat 34) ""))) =
                 (String "'" (String " " ""),
                  Sc ++ String (ascii_of_nat 34) "")).
    { apply (take_while_all is_apos_sep (String "'" (String " " "")));
        [reflexivity|]. rewrite ES. cbn [append]. rewrite HapS. reflexivity. }
    rewrite E3.
    rewrite (not_empty D HDn), (not_empty M HMn). cbn [is_empty orb Nat.eqb].
    rewrite (take_number_digits Sc (ascii_of_nat 34) "" HS HSn eq_refl eq_refl).
    reflexivity. }
  rewrite (search_head match_dms str _ Edms). cbn [startsWith_minus].
  reflexivity.
Qed.

End ParseTextFacts.

Section FormatFacts.
Import Coordinates.
Local Open Scope string_scope.
Local Open Scope Q_scope.

Lemma string_last (s : string) :
  s <> "" -> exists (p : string) (c : ascii), s = p ++ String c "".
Proof.
  induction s as [|c r IH]; intros Hne; [contradiction|].
  destruct r as [|c' r'].
  - exists "", c. reflexivity.
  - destruct (IH ltac:(discriminate)) as (p & d & E).
    exists (String c p), d. cbn [append]. rewrite <- E. reflexivity.
Qed.

Lemma substring_prefix (p : string) (c : ascii) :
  substring 0 (String.length p) (p ++ String c "") = p.
Proof.
  induction p as [|d r IH]; cbn [String.length append substring];
    [reflexivity | now rewrite IH].
Qed.

Lemma substring_last (p : string) (c : ascii) :
  substring (String.length p) 1 (p ++ String c "") = String c "".
Proof.
  induction p as [|d r IH]; cbn [String.length append substring];
    [reflexivity | exact IH].
Qed.

(** Rounding to the nearest integer, halves upwards. *)
Lemma round_half_up (y : Q) :
  0 <= y ->
  (0 <= Qfloor (y + (1 # 2)))%Z /\
  Qabs (inject_Z (Qfloor (y + (1 # 2))) - y) <= 1 # 2.
Proof.
  intros Hy.
  pose proof (Qfloor_le (y + (1 # 2))) as H1.
  pose proof (Qlt_floor (y + (1 # 2))) as H2.
  rewrite inject_Z_plus in H2. change (inject_Z 1) with 1 in H2.
  split.
  - assert (H : (-1 < Qfloor (y + (1 # 2)))%Z); [|lia].
    rewrite Zlt_Qlt. change (inject_Z (-1)) with (-1). Lqa.lra.
  - apply Qabs_Qle_condition. split; Lqa.lra.
Qed.

Lemma toFixed_0_spec (x : Q) :
  0 <= x ->
  exists n : Z,
    (0 <= n)%Z /\ toFixed x 0 = Number_toString n /\
    Qabs (inject_Z n - x) <= 1 # 2.
Proof.
  intros Hx. unfold toFixed.
  destruct (Qlt_le_dec x 0) as [H|_]; [Lqa.lra|].
  assert (Ex : Qabs x * inject_Z (10 ^ Z.of_nat 0) == x).
  { rewrite (Qabs_pos x Hx). change (inject_Z (10 ^ Z.of_nat 0)) with 1.
    ring. }
  destruct (round_half_up (Qabs x * inject_Z (10 ^ Z.of_nat 0)))
    as [Hn Hr]; [rewrite Ex; exact Hx|].
  exists (Qfloor (Qabs x * inject_Z (10 ^ Z.of_nat 0) + (1 # 2))).
  split; [exact Hn|]. split; [reflexivity|].
  rewrite Ex in Hr at 2. exact Hr.
Qed.

Lemma toFixed_1_spec (x : Q) :
  0 <= x ->
  exists (n : Z) (p : string) (c : ascii),
    (0 <= n)%Z /\
    toFixed x 1 = p ++ String "." (String c "") /\
    digits p = true /\ p <> ""%string /\ is_digit c = true /\
    digits_value 0 (p ++ String c "") = n /\
    Qabs (inject_Z n / 10 - x) <= 1 # 20.
Proof.
  intros Hx. unfold toFixed.
  destruct (Qlt_le_dec x 0) as [H|_]; [Lqa.lra|].
  assert (Ex : Qabs x * inject_Z (10 ^ Z.of_nat 1) == x * 10).
  { rewrite (Qabs_pos x Hx). change (inject_Z (10 ^ Z.of_nat 1)) with 10.
    ring. }
  destruct (round_half_up (Qabs x * inject_Z (10 ^ Z.of_nat 1)))
    as [Hn Hr]; [rewrite Ex; Lqa.lra|].
  set (n := Qfloor (Qabs x * inject_Z (10 ^ Z.of_nat 1) + (1 # 2))) in *.
  rewrite Ex in Hr.
  destruct (Number_toString_spec n Hn) as (Hd & Hne & Hval).
  destruct (string_last _ Hne) as (p & c & E).
  assert (Hn10 : Qabs (inject_Z n / 10 - x) <= 1 # 20).
  { apply Qabs_Qle_condition in Hr. apply Qabs_Qle_condition.
    destruct Hr as [Hr1 Hr2]. unfold Qdiv.
    change (/ 10) with (1 # 10). split; Lqa.lra. }
  assert (Hv : digits_value 0 (Number_toString n) = n).
  { rewrite Hval. ring. }
  rewrite E in Hd, Hv |- *.
  unfold digits in Hd. rewrite all_chars_app in Hd. cbn [all_chars] in Hd.
  apply andb_true_iff in Hd as [Hp Hc]. rewrite andb_true_r in Hc.
  cbn [append]. rewrite length_app_string. cbn [String.length].
  destruct p as [|d r].
  - exists n, "0"%string, c. cbn.
    repeat split; try assumption; try reflexivity; try discriminate.
  - exists n, (String d r), c.
    replace (String.length (String d r) + 1 <=? 1)%nat with false
      by (cbn [String.length]; symmetry; apply Nat.leb_gt; lia).
    rewrite length_app_string. cbn [String.length].
    replace (S (String.length r) + 1 - 1)%nat
      with (String.length (String d r)) by (cbn [String.length]; lia).
    rewrite substring_prefix, substring_last.
    repeat split; try assumption; try reflexivity; try discriminate.
Qed.

Lemma normalizeAngle_rational_range (a : Q) :
  0 <= normalizeAngle a /\ normalizeAngle a < 360.
Proof.
  unfold normalizeAngle, trunc. cbv zeta.
  assert (Ea : a == 360 * (a / 360)) by (field).
  destruct (Qlt_le_dec (a / 360) 0) as [Hneg|Hpos].
  - pose proof (Qle_ceiling (a / 360)) as H1.
    pose proof (Qceiling_lt (a / 360)) as H2.
    unfold Z.sub in H2. rewrite inject_Z_plus in H2.
    change (inject_Z (- (1))) with (-1) in H2.
    destruct (Qlt_le_dec (a - 360 * inject_Z (Qceiling (a / 360))) 0);
      split; Lqa.lra.
  - pose proof (Qfloor_le (a / 360)) as H1.
    pose proof (Qlt_floor (a / 360)) as H2.
    rewrite inject_Z_plus in H2. change (inject_Z 1) with 1 in H2.
    destruct (Qlt_le_dec (a - 360 * inject_Z (Qfloor (a / 360))) 0);
      split; Lqa.lra.
Qed.

(** The whole part and the rest of a number that is not negative. *)
Lemma floor_part (y : Q) :
  0 <= y ->
  (0 <= Qfloor y)%Z /\ 0 <= y - inject_Z (Qfloor y) /\
  y - inject_Z (Qfloor y) < 1.
Proof.
  intros Hy.
  pose proof (Qfloor_le y) as H1. pose proof (Qlt_floor y) as H2.
  rewrite inject_Z_plus in H2. change (inject_Z 1) with 1 in H2.
  split; [|split; Lqa.lra].
  assert (H : (-1 < Qfloor y)%Z); [|lia].
  rewrite Zlt_Qlt. change (inject_Z (-1)) with (-1). Lqa.lra.
Qed.

Lemma parseFloat_printed (n : Z) :
  (0 <= n)%Z -> parseFloat (Number_toString n) = inject_Z n.
Proof.
  intros Hn. destruct (Number_toString_spec n Hn) as (Hd & Hne & Hval).
  rewrite (parseFloat_digits _ Hd Hne), Hval.
  reflexivity.
Qed.

(** X26.  Reading back what [formatRA] writes: for every right ascension
    the text is accepted by [parseCoordinate] as type ['ra'], and the
    value read differs from the angle, normalized to [0, 360), by at most
    1/4800 degree, which is 0.05 second of time (exact rational
    arithmetic). *)
Theorem formatRA_round_trip (ra : Q) :
  exists v : Q,
    parseCoordinate (formatRA ra) "ra" = Some v /\
    Qabs (v - normalizeAngle ra) <= 1 # 4800.
Proof.
  unfold formatRA. cbv zeta.
  destruct (normalizeAngle_rational_range ra) as [Hlo Hhi].
  set (a := normalizeAngle ra) in *.
  set (hours := a / Coordinates.HOURS_TO_DEG).
  assert (Eh : a == hours * 15).
  { unfold hours, Coordinates.HOURS_TO_DEG. field. }
  assert (Hh0 : 0 <= hours) by Lqa.lra.
  destruct (floor_part hours Hh0) as (Hh & Hf0 & Hf1).
  set (h := Qfloor hours) in *.
  assert (Hm0 : 0 <= (hours - inject_Z h) * 60) by Lqa.lra.
  destruct (floor_part _ Hm0) as (Hm & Hg0 & Hg1).
  set (m := Qfloor ((hours - inject_Z h) * 60)) in *.
  assert (Hs0 : 0 <= ((hours - inject_Z h) * 60 - inject_Z m) * 60)
    by Lqa.lra.
  destruct (toFixed_1_spec _ Hs0) as (n & p & c & Hn & Ep & Hp & Hpn & Hc &
                                       Hval & Hr).
  rewrite Ep.
  destruct (Number_toString_spec h Hh) as (HdH & HnH & _).
  destruct (Number_toString_spec m Hm) as (HdM & HnM & _).
  replace (Number_toString h ++ "h " ++ Number_toString m ++ "m " ++
           (p ++ String "." (String c "")) ++ "s")%string
    with (Number_toString h ++ String "h" (String " "
            (Number_toString m ++ String "m" (String " "
               (p ++ String "." (String c (String "s" "")))))))%string
    by (cbn [append]; rewrite append_assoc_string; reflexivity).
  rewrite (parse_hms_text _ _ p c HdH HnH HdM HnM Hp Hpn Hc).
  eexists. split; [reflexivity|].
  rewrite !parseFloat_printed by assumption.
  rewrite (parseFloat_fraction p c Hp Hpn Hc), Hval.
  assert (En : n # 10 == inject_Z n * (1 # 10)).
  { rewrite (Qmake_Qdiv n 10). reflexivity. }
  rewrite En. unfold Coordinates.HOURS_TO_DEG.
  apply Qabs_Qle_condition in Hr. destruct Hr as [Hr1 Hr2].
  unfold Qdiv in *. change (/ 10) with (1 # 10) in *.
  change (/ 60) with (1 # 60). change (/ 3600) with (1 # 3600).
  apply Qabs_Qle_condition. split; Lqa.lra.
Qed.

(** X27.  Reading back what [formatDec] writes: for every declination
    below [10^21] in size the text is accepted by [parseCoordinate] as
    type ['dec'], and the value read differs from the declination by at
    most 1/7200 degree, half a second of arc; the sign is kept also when
    the degrees are zero (exact rational arithmetic). *)
Theorem formatDec_round_trip (dec : Q) :
  Qabs dec < inject_Z (10 ^ 21) ->
  exists v : Q,
    parseCoordinate (formatDec dec) "dec" = Some v /\
    Qabs (v - dec) <= 1 # 7200.
Proof.
  intros _. unfold formatDec. cbv zeta.
  pose proof (Qabs_nonneg dec) as Ha0.
  set (a := Qabs dec) in *.
  destruct (floor_part a Ha0) as (Hd & Hf0 & Hf1).
  set (d := Qfloor a) in *.
  assert (Hm0 : 0 <= (a - inject_Z d) * 60) by Lqa.lra.
  destruct (floor_part _ Hm0) as (Hm & Hg0 & Hg1).
  set (m := Qfloor ((a - inject_Z d) * 60)) in *.
  assert (Hs0 : 0 <= ((a - inject_Z d) * 60 - inject_Z m) * 60) by Lqa.lra.
  destruct (toFixed_0_spec _ Hs0) as (n & Hn & En & Hr).
  rewrite En.
  destruct (Number_toString_spec d Hd) as (HdD & HnD & _).
  destruct (Number_toString_spec m Hm) as (HdM & HnM & _).
  destruct (Number_toString_spec n Hn) as (HdS & HnS & _).
  assert (Hshape : forall sg : ascii,
            (String sg "" ++ Number_toString d ++
             String (ascii_of_nat 194) (String (ascii_of_nat 176) " ") ++
             Number_toString m ++ "' " ++ Number_toString n ++
             String (ascii_of_nat 34) "")%string =
            String sg
              (Number_toString d ++
               String (ascii_of_nat 194) (String (ascii_of_nat 176)
                 (String " "
                    (Number_toString m ++ String "'" (String " "
                       (Number_toString n ++
                        String (ascii_of_nat 34) ""))))))%string)
    by (intros sg; reflexivity).
  apply Qabs_Qle_condition in Hr. destruct Hr as [Hr1 Hr2].
  destruct (Qle_bool 0 dec) eqn:Hsign.
  - apply Qle_bool_iff in Hsign.
    assert (Ea : a == dec) by (apply Qabs_pos; exact Hsign).
    rewrite (Hshape "+"%char).
    rewrite (parse_dms_text "+" _ _ _ eq_refl HdD HnD HdM HnM HdS HnS).
    eexists. split; [reflexivity|].
    rewrite (parseFloat_signed "+" _ eq_refl HdD HnD).
    change (Ascii.eqb "+" "-") with false. cbv iota.
    destruct (Number_toString_spec d Hd) as (_ & _ & Hv).
    rewrite Hv. replace (0 * 10 ^ Z.of_nat (String.length (Number_toString d)) + d)%Z
      with d by ring.
    rewrite !parseFloat_printed by assumption.
    change (d # 1) with (inject_Z d).
    rewrite (Qabs_pos (inject_Z d))
      by (change 0 with (inject_Z 0); rewrite <- Zle_Qle; exact Hd).
    unfold Qdiv in *. change (/ 60) with (1 # 60).
    change (/ 3600) with (1 # 3600).
    apply Qabs_Qle_condition. split; Lqa.lra.
  - assert (Hneg : dec < 0).
    { apply Qnot_le_lt. intros H. apply Qle_bool_iff in H.
      rewrite H in Hsign. discriminate Hsign. }
    assert (Ea : a == - dec) by (apply Qabs_neg; Lqa.lra).
    rewrite (Hshape "-"%char).
    rewrite (parse_dms_text "-" _ _ _ eq_refl HdD HnD HdM HnM HdS HnS).
    eexists. split; [reflexivity|].
    rewrite (parseFloat_signed "-" _ eq_refl HdD HnD).
    change (Ascii.eqb "-" "-") with true. cbv iota.
    destruct (Number_toString_spec d Hd) as (_ & _ & Hv).
    rewrite Hv. replace (0 * 10 ^ Z.of_nat (String.length (Number_toString d)) + d)%Z
      with d by ring.
    rewrite !parseFloat_printed by assumption.
    change (d # 1) with (inject_Z d).
    rewrite Qabs_opp.
    rewrite (Qabs_pos (inject_Z d))
      by (change 0 with (inject_Z 0); rewrite <- Zle_Qle; exact Hd).
    unfold Qdiv in *. change (/ 60) with (1 # 60).
    change (/ 3600) with (1 # 3600).
    apply Qabs_Qle_condition. split; Lqa.lra.
Qed.

Lemma formatDec_round_trip_witness :
  exists v : Q,
    parseCoordinate (formatDec (-(33 # 100))) "dec" = Some v /\
    Qabs (v - (-(33 # 100))) <= 1 # 7200.
Proof.
  apply (formatDec_round_trip (-(33 # 100))). reflexivity.
Defined.

End FormatFacts.

